(** * PyCaptionCompiler: the caption archive writer of [compiler.py]

    A shallow embedding of [src/pycaptioncompiler/compiler.py]: the helper
    [GetLineSized], the classes [LineData] and [BlockData], and the methods
    [_createblocks], [_createdirectory] and [serialize] of [Subtitles],
    together with the Python library functions they call ([struct.pack],
    [binascii.crc32], [str.lower], [str.encode], [bytes(n)]).

    Conventions.
    - A Python [int] is a [Z]; [bytes] is a [list byte]; a [str], caption
      name or caption text, is the list of its code points, lone surrogates
      included.  [str.lower] is the one of CPython 3.11 (Unicode 14.0.0).
    - A Python exception is a constructor of [exn]; a computation that may
      raise lives in [result].  The [while] loops of [_createblocks] carry a
      fuel argument and answer [OutOfFuel] when it is used up.
    - A Python [dict] is an association list in insertion order: assigning to
      a key that is present keeps the position of the key, [del] removes the
      binding, iteration goes front to back.
    - [struct.pack] is called without a byte-order prefix, so it uses the
      native order and sizes of the host.  The host is taken to be
      little-endian with a 2-byte [short] and a 4-byte [int] (x86, x86-64,
      AArch64). *)

From Stdlib Require Import ZArith List Bool Lia Permutation.
From Stdlib.Strings Require Import String Ascii Byte.
Import ListNotations.
Open Scope Z_scope.

(** ** Exceptions and results *)

Inductive exn : Type :=
| UnicodeEncodeError   (* str.encode on a lone surrogate *)
| ValueError           (* bytes(n) with n < 0: "negative count" *)
| StructError          (* struct.pack: argument out of range *)
| KeyError.            (* d[k] with k absent *)

Inductive result (A : Type) : Type :=
| Ok (a : A)
| Raise (e : exn)
| OutOfFuel.

Arguments Ok {A} a.
Arguments Raise {A} e.
Arguments OutOfFuel {A}.

Definition bind {A B : Type} (m : result A) (k : A -> result B) : result B :=
  match m with
  | Ok a => k a
  | Raise e => Raise e
  | OutOfFuel => OutOfFuel
  end.

Notation "x <- m ;; k" := (bind m (fun x => k))
  (at level 61, m at next level, right associativity).
Notation "' p <- m ;; k" := (bind m (fun x => let p := x in k))
  (at level 61, p pattern, m at next level, right associativity).

(** ** Bytes *)

Definition bytes := list byte.

Definition len {A : Type} (l : list A) : Z := Z.of_nat (List.length l).

Definition byte_of_Z (z : Z) : byte :=
  match Byte.of_N (Z.to_N (z mod 256)) with
  | Some b => b
  | None => x00
  end.

Definition Z_of_byte (b : byte) : Z := Z.of_N (Byte.to_N b).

(** [bytes(n)]: [n] zero bytes, [ValueError] when [n] is negative. *)
Definition bytes_zero (n : Z) : result bytes :=
  if n <? 0 then Raise ValueError else Ok (repeat x00 (Z.to_nat n)).

(** Little-endian two's-complement image of [z] on [n] bytes, and the
    unsigned value a little-endian byte string denotes. *)
Fixpoint le_bytes (n : nat) (z : Z) : bytes :=
  match n with
  | O => []
  | S k => byte_of_Z z :: le_bytes k (z / 256)
  end.

Fixpoint le_decode (bs : bytes) : Z :=
  match bs with
  | [] => 0
  | b :: rest => Z_of_byte b + 256 * le_decode rest
  end.

(** ** [struct.pack] with one format character *)

Inductive fmt : Type :=
| fmt_h    (* "h": signed short *)
| fmt_H    (* "H": unsigned short *)
| fmt_i    (* "i": signed int *)
| fmt_I.   (* "I": unsigned int *)

Definition fmt_size (f : fmt) : nat :=
  match f with
  | fmt_h | fmt_H => 2%nat
  | fmt_i | fmt_I => 4%nat
  end.

Definition fmt_min (f : fmt) : Z :=
  match f with
  | fmt_h => -32768
  | fmt_i => -2147483648
  | fmt_H | fmt_I => 0
  end.

Definition fmt_max (f : fmt) : Z :=
  match f with
  | fmt_h => 32767
  | fmt_H => 65535
  | fmt_i => 2147483647
  | fmt_I => 4294967295
  end.

Definition pack (f : fmt) (v : Z) : result bytes :=
  if (fmt_min f <=? v) && (v <=? fmt_max f)
  then Ok (le_bytes (fmt_size f) v)
  else Raise StructError.

(** ** [binascii.crc32]: CRC-32 (reflected polynomial 0xEDB88320, initial
    value and final xor 0xFFFFFFFF) *)

Definition crc32_shift (c : Z) : Z :=
  if Z.testbit c 0
  then Z.lxor (Z.shiftr c 1) 0xEDB88320
  else Z.shiftr c 1.

Definition crc32_update (c : Z) (b : byte) : Z :=
  Nat.iter 8 crc32_shift (Z.lxor c (Z_of_byte b)).

Definition crc32 (data : bytes) : Z :=
  Z.lxor (fold_left crc32_update data 0xFFFFFFFF) 0xFFFFFFFF.

(** ** Python strings

    A Python [str], caption name or caption text, is a list of code points:
    the values 0..0x10FFFF, lone surrogates (U+D800..U+DFFF) included.  Both
    codecs raise [UnicodeEncodeError] on a surrogate; a number outside
    0..0x10FFFF is no code point, and the codecs below refuse it as well. *)

Definition text := list Z.

Definition text_of_string (s : string) : text :=
  map (fun c => Z.of_N (N_of_ascii c)) (list_ascii_of_string s).

(** Short name for text literals (each character is one code point below
    U+0100). *)
Definition txt (str : string) : text := text_of_string str.

(** *** [str.lower]

    CPython lowers a string code point by code point with the full lowercase
    mapping of the Unicode database (14.0.0, the one of Python 3.11), except
    for the capital sigma U+03A3, which becomes the final sigma U+03C2 or
    the small sigma U+03C3 by the code points around it.  The three tables
    are those of the interpreter: the lowercase mapping as runs
    [(first, last, step, delta)] that send every [step]-th code point of
    [first..last] to itself plus [delta]; the case-ignorable code points;
    and the cased code points that are not case-ignorable (the sigma rule
    asks for casedness only where case-ignorability has failed). *)

Definition lower_runs : list (Z * Z * Z * Z) :=
  [
   (0x41, 0x5A, 1, 32); (0xC0, 0xD6, 1, 32); (0xD8, 0xDE, 1, 32);
   (0x100, 0x12E, 2, 1); (0x132, 0x136, 2, 1); (0x139, 0x147, 2, 1);
   (0x14A, 0x176, 2, 1); (0x178, 0x178, 1, (-121)); (0x179, 0x17D, 2, 1);
   (0x181, 0x181, 1, 210); (0x182, 0x184, 2, 1); (0x186, 0x186, 1, 206);
   (0x187, 0x187, 1, 1); (0x189, 0x18A, 1, 205); (0x18B, 0x18B, 1, 1);
   (0x18E, 0x18E, 1, 79); (0x18F, 0x18F, 1, 202); (0x190, 0x190, 1, 203);
   (0x191, 0x191, 1, 1); (0x193, 0x193, 1, 205); (0x194, 0x194, 1, 207);
   (0x196, 0x196, 1, 211); (0x197, 0x197, 1, 209); (0x198, 0x198, 1, 1);
   (0x19C, 0x19C, 1, 211); (0x19D, 0x19D, 1, 213); (0x19F, 0x19F, 1, 214);
   (0x1A0, 0x1A4, 2, 1); (0x1A6, 0x1A6, 1, 218); (0x1A7, 0x1A7, 1, 1);
   (0x1A9, 0x1A9, 1, 218); (0x1AC, 0x1AC, 1, 1); (0x1AE, 0x1AE, 1, 218);
   (0x1AF, 0x1AF, 1, 1); (0x1B1, 0x1B2, 1, 217); (0x1B3, 0x1B5, 2, 1);
   (0x1B7, 0x1B7, 1, 219); (0x1B8, 0x1B8, 1, 1); (0x1BC, 0x1BC, 1, 1);
   (0x1C4, 0x1C4, 1, 2); (0x1C5, 0x1C5, 1, 1); (0x1C7, 0x1C7, 1, 2);
   (0x1C8, 0x1C8, 1, 1); (0x1CA, 0x1CA, 1, 2); (0x1CB, 0x1DB, 2, 1);
   (0x1DE, 0x1EE, 2, 1); (0x1F1, 0x1F1, 1, 2); (0x1F2, 0x1F4, 2, 1);
   (0x1F6, 0x1F6, 1, (-97)); (0x1F7, 0x1F7, 1, (-56)); (0x1F8, 0x21E, 2, 1);
   (0x220, 0x220, 1, (-130)); (0x222, 0x232, 2, 1); (0x23A, 0x23A, 1, 10795);
   (0x23B, 0x23B, 1, 1); (0x23D, 0x23D, 1, (-163)); (0x23E, 0x23E, 1, 10792);
   (0x241, 0x241, 1, 1); (0x243, 0x243, 1, (-195)); (0x244, 0x244, 1, 69);
   (0x245, 0x245, 1, 71); (0x246, 0x24E, 2, 1); (0x370, 0x372, 2, 1);
   (0x376, 0x376, 1, 1); (0x37F, 0x37F, 1, 116); (0x386, 0x386, 1, 38);
   (0x388, 0x38A, 1, 37); (0x38C, 0x38C, 1, 64); (0x38E, 0x38F, 1, 63);
   (0x391, 0x3A1, 1, 32); (0x3A3, 0x3AB, 1, 32); (0x3CF, 0x3CF, 1, 8);
   (0x3D8, 0x3EE, 2, 1); (0x3F4, 0x3F4, 1, (-60)); (0x3F7, 0x3F7, 1, 1);
   (0x3F9, 0x3F9, 1, (-7)); (0x3FA, 0x3FA, 1, 1); (0x3FD, 0x3FF, 1, (-130));
   (0x400, 0x40F, 1, 80); (0x410, 0x42F, 1, 32); (0x460, 0x480, 2, 1);
   (0x48A, 0x4BE, 2, 1); (0x4C0, 0x4C0, 1, 15); (0x4C1, 0x4CD, 2, 1);
   (0x4D0, 0x52E, 2, 1); (0x531, 0x556, 1, 48); (0x10A0, 0x10C5, 1, 7264);
   (0x10C7, 0x10C7, 1, 7264); (0x10CD, 0x10CD, 1, 7264); (0x13A0, 0x13EF, 1, 38864);
   (0x13F0, 0x13F5, 1, 8); (0x1C90, 0x1CBA, 1, (-3008)); (0x1CBD, 0x1CBF, 1, (-3008));
   (0x1E00, 0x1E94, 2, 1); (0x1E9E, 0x1E9E, 1, (-7615)); (0x1EA0, 0x1EFE, 2, 1);
   (0x1F08, 0x1F0F, 1, (-8)); (0x1F18, 0x1F1D, 1, (-8)); (0x1F28, 0x1F2F, 1, (-8));
   (0x1F38, 0x1F3F, 1, (-8)); (0x1F48, 0x1F4D, 1, (-8)); (0x1F59, 0x1F5F, 2, (-8));
   (0x1F68, 0x1F6F, 1, (-8)); (0x1F88, 0x1F8F, 1, (-8)); (0x1F98, 0x1F9F, 1, (-8));
   (0x1FA8, 0x1FAF, 1, (-8)); (0x1FB8, 0x1FB9, 1, (-8)); (0x1FBA, 0x1FBB, 1, (-74));
   (0x1FBC, 0x1FBC, 1, (-9)); (0x1FC8, 0x1FCB, 1, (-86)); (0x1FCC, 0x1FCC, 1, (-9));
   (0x1FD8, 0x1FD9, 1, (-8)); (0x1FDA, 0x1FDB, 1, (-100)); (0x1FE8, 0x1FE9, 1, (-8));
   (0x1FEA, 0x1FEB, 1, (-112)); (0x1FEC, 0x1FEC, 1, (-7)); (0x1FF8, 0x1FF9, 1, (-128));
   (0x1FFA, 0x1FFB, 1, (-126)); (0x1FFC, 0x1FFC, 1, (-9)); (0x2126, 0x2126, 1, (-7517));
   (0x212A, 0x212A, 1, (-8383)); (0x212B, 0x212B, 1, (-8262)); (0x2132, 0x2132, 1, 28);
   (0x2160, 0x216F, 1, 16); (0x2183, 0x2183, 1, 1); (0x24B6, 0x24CF, 1, 26);
   (0x2C00, 0x2C2F, 1, 48); (0x2C60, 0x2C60, 1, 1); (0x2C62, 0x2C62, 1, (-10743));
   (0x2C63, 0x2C63, 1, (-3814)); (0x2C64, 0x2C64, 1, (-10727)); (0x2C67, 0x2C6B, 2, 1);
   (0x2C6D, 0x2C6D, 1, (-10780)); (0x2C6E, 0x2C6E, 1, (-10749)); (0x2C6F, 0x2C6F, 1, (-10783));
   (0x2C70, 0x2C70, 1, (-10782)); (0x2C72, 0x2C72, 1, 1); (0x2C75, 0x2C75, 1, 1);
   (0x2C7E, 0x2C7F, 1, (-10815)); (0x2C80, 0x2CE2, 2, 1); (0x2CEB, 0x2CED, 2, 1);
   (0x2CF2, 0x2CF2, 1, 1); (0xA640, 0xA66C, 2, 1); (0xA680, 0xA69A, 2, 1);
   (0xA722, 0xA72E, 2, 1); (0xA732, 0xA76E, 2, 1); (0xA779, 0xA77B, 2, 1);
   (0xA77D, 0xA77D, 1, (-35332)); (0xA77E, 0xA786, 2, 1); (0xA78B, 0xA78B, 1, 1);
   (0xA78D, 0xA78D, 1, (-42280)); (0xA790, 0xA792, 2, 1); (0xA796, 0xA7A8, 2, 1);
   (0xA7AA, 0xA7AA, 1, (-42308)); (0xA7AB, 0xA7AB, 1, (-42319)); (0xA7AC, 0xA7AC, 1, (-42315));
   (0xA7AD, 0xA7AD, 1, (-42305)); (0xA7AE, 0xA7AE, 1, (-42308)); (0xA7B0, 0xA7B0, 1, (-42258));
   (0xA7B1, 0xA7B1, 1, (-42282)); (0xA7B2, 0xA7B2, 1, (-42261)); (0xA7B3, 0xA7B3, 1, 928);
   (0xA7B4, 0xA7C2, 2, 1); (0xA7C4, 0xA7C4, 1, (-48)); (0xA7C5, 0xA7C5, 1, (-42307));
   (0xA7C6, 0xA7C6, 1, (-35384)); (0xA7C7, 0xA7C9, 2, 1); (0xA7D0, 0xA7D0, 1, 1);
   (0xA7D6, 0xA7D8, 2, 1); (0xA7F5, 0xA7F5, 1, 1); (0xFF21, 0xFF3A, 1, 32);
   (0x10400, 0x10427, 1, 40); (0x104B0, 0x104D3, 1, 40); (0x10570, 0x10594, 2, 39);
   (0x10571, 0x1057A, 1, 39); (0x1057C, 0x1058A, 1, 39); (0x1058C, 0x10592, 1, 39);
   (0x10594, 0x10595, 1, 39); (0x10C80, 0x10CB2, 1, 64); (0x118A0, 0x118BF, 1, 32);
   (0x16E40, 0x16E5F, 1, 32); (0x1E900, 0x1E921, 1, 34)
  ].

Definition case_ignorable_ranges : list (Z * Z) :=
  [
   (0x27, 0x27); (0x2E, 0x2E); (0x3A, 0x3A); (0x5E, 0x5E);
   (0x60, 0x60); (0xA8, 0xA8); (0xAD, 0xAD); (0xAF, 0xAF);
   (0xB4, 0xB4); (0xB7, 0xB8); (0x2B0, 0x36F); (0x374, 0x375);
   (0x37A, 0x37A); (0x384, 0x385); (0x387, 0x387); (0x483, 0x489);
   (0x559, 0x559); (0x55F, 0x55F); (0x591, 0x5BD); (0x5BF, 0x5BF);
   (0x5C1, 0x5C2); (0x5C4, 0x5C5); (0x5C7, 0x5C7); (0x5F4, 0x5F4);
   (0x600, 0x605); (0x610, 0x61A); (0x61C, 0x61C); (0x640, 0x640);
   (0x64B, 0x65F); (0x670, 0x670); (0x6D6, 0x6DD); (0x6DF, 0x6E8);
   (0x6EA, 0x6ED); (0x70F, 0x70F); (0x711, 0x711); (0x730, 0x74A);
   (0x7A6, 0x7B0); (0x7EB, 0x7F5); (0x7FA, 0x7FA); (0x7FD, 0x7FD);
   (0x816, 0x82D); (0x859, 0x85B); (0x888, 0x888); (0x890, 0x891);
   (0x898, 0x89F); (0x8C9, 0x902); (0x93A, 0x93A); (0x93C, 0x93C);
   (0x941, 0x948); (0x94D, 0x94D); (0x951, 0x957); (0x962, 0x963);
   (0x971, 0x971); (0x981, 0x981); (0x9BC, 0x9BC); (0x9C1, 0x9C4);
   (0x9CD, 0x9CD); (0x9E2, 0x9E3); (0x9FE, 0x9FE); (0xA01, 0xA02);
   (0xA3C, 0xA3C); (0xA41, 0xA42); (0xA47, 0xA48); (0xA4B, 0xA4D);
   (0xA51, 0xA51); (0xA70, 0xA71); (0xA75, 0xA75); (0xA81, 0xA82);
   (0xABC, 0xABC); (0xAC1, 0xAC5); (0xAC7, 0xAC8); (0xACD, 0xACD);
   (0xAE2, 0xAE3); (0xAFA, 0xAFF); (0xB01, 0xB01); (0xB3C, 0xB3C);
   (0xB3F, 0xB3F); (0xB41, 0xB44); (0xB4D, 0xB4D); (0xB55, 0xB56);
   (0xB62, 0xB63); (0xB82, 0xB82); (0xBC0, 0xBC0); (0xBCD, 0xBCD);
   (0xC00, 0xC00); (0xC04, 0xC04); (0xC3C, 0xC3C); (0xC3E, 0xC40);
   (0xC46, 0xC48); (0xC4A, 0xC4D); (0xC55, 0xC56); (0xC62, 0xC63);
   (0xC81, 0xC81); (0xCBC, 0xCBC); (0xCBF, 0xCBF); (0xCC6, 0xCC6);
   (0xCCC, 0xCCD); (0xCE2, 0xCE3); (0xD00, 0xD01); (0xD3B, 0xD3C);
   (0xD41, 0xD44); (0xD4D, 0xD4D); (0xD62, 0xD63); (0xD81, 0xD81);
   (0xDCA, 0xDCA); (0xDD2, 0xDD4); (0xDD6, 0xDD6); (0xE31, 0xE31);
   (0xE34, 0xE3A); (0xE46, 0xE4E); (0xEB1, 0xEB1); (0xEB4, 0xEBC);
   (0xEC6, 0xEC6); (0xEC8, 0xECD); (0xF18, 0xF19); (0xF35, 0xF35);
   (0xF37, 0xF37); (0xF39, 0xF39); (0xF71, 0xF7E); (0xF80, 0xF84);
   (0xF86, 0xF87); (0xF8D, 0xF97); (0xF99, 0xFBC); (0xFC6, 0xFC6);
   (0x102D, 0x1030); (0x1032, 0x1037); (0x1039, 0x103A); (0x103D, 0x103E);
   (0x1058, 0x1059); (0x105E, 0x1060); (0x1071, 0x1074); (0x1082, 0x1082);
   (0x1085, 0x1086); (0x108D, 0x108D); (0x109D, 0x109D); (0x10FC, 0x10FC);
   (0x135D, 0x135F); (0x1712, 0x1714); (0x1732, 0x1733); (0x1752, 0x1753);
   (0x1772, 0x1773); (0x17B4, 0x17B5); (0x17B7, 0x17BD); (0x17C6, 0x17C6);
   (0x17C9, 0x17D3); (0x17D7, 0x17D7); (0x17DD, 0x17DD); (0x180B, 0x180F);
   (0x1843, 0x1843); (0x1885, 0x1886); (0x18A9, 0x18A9); (0x1920, 0x1922);
   (0x1927, 0x1928); (0x1932, 0x1932); (0x1939, 0x193B); (0x1A17, 0x1A18);
   (0x1A1B, 0x1A1B); (0x1A56, 0x1A56); (0x1A58, 0x1A5E); (0x1A60, 0x1A60);
   (0x1A62, 0x1A62); (0x1A65, 0x1A6C); (0x1A73, 0x1A7C); (0x1A7F, 0x1A7F);
   (0x1AA7, 0x1AA7); (0x1AB0, 0x1ACE); (0x1B00, 0x1B03); (0x1B34, 0x1B34);
   (0x1B36, 0x1B3A); (0x1B3C, 0x1B3C); (0x1B42, 0x1B42); (0x1B6B, 0x1B73);
   (0x1B80, 0x1B81); (0x1BA2, 0x1BA5); (0x1BA8, 0x1BA9); (0x1BAB, 0x1BAD);
   (0x1BE6, 0x1BE6); (0x1BE8, 0x1BE9); (0x1BED, 0x1BED); (0x1BEF, 0x1BF1);
   (0x1C2C, 0x1C33); (0x1C36, 0x1C37); (0x1C78, 0x1C7D); (0x1CD0, 0x1CD2);
   (0x1CD4, 0x1CE0); (0x1CE2, 0x1CE8); (0x1CED, 0x1CED); (0x1CF4, 0x1CF4);
   (0x1CF8, 0x1CF9); (0x1D2C, 0x1D6A); (0x1D78, 0x1D78); (0x1D9B, 0x1DFF);
   (0x1FBD, 0x1FBD); (0x1FBF, 0x1FC1); (0x1FCD, 0x1FCF); (0x1FDD, 0x1FDF);
   (0x1FED, 0x1FEF); (0x1FFD, 0x1FFE); (0x200B, 0x200F); (0x2018, 0x2019);
   (0x2024, 0x2024); (0x2027, 0x2027); (0x202A, 0x202E); (0x2060, 0x2064);
   (0x2066, 0x206F); (0x2071, 0x2071); (0x207F, 0x207F); (0x2090, 0x209C);
   (0x20D0, 0x20F0); (0x2C7C, 0x2C7D); (0x2CEF, 0x2CF1); (0x2D6F, 0x2D6F);
   (0x2D7F, 0x2D7F); (0x2DE0, 0x2DFF); (0x2E2F, 0x2E2F); (0x3005, 0x3005);
   (0x302A, 0x302D); (0x3031, 0x3035); (0x303B, 0x303B); (0x3099, 0x309E);
   (0x30FC, 0x30FE); (0xA015, 0xA015); (0xA4F8, 0xA4FD); (0xA60C, 0xA60C);
   (0xA66F, 0xA672); (0xA674, 0xA67D); (0xA67F, 0xA67F); (0xA69C, 0xA69F);
   (0xA6F0, 0xA6F1); (0xA700, 0xA721); (0xA770, 0xA770); (0xA788, 0xA78A);
   (0xA7F2, 0xA7F4); (0xA7F8, 0xA7F9); (0xA802, 0xA802); (0xA806, 0xA806);
   (0xA80B, 0xA80B); (0xA825, 0xA826); (0xA82C, 0xA82C); (0xA8C4, 0xA8C5);
   (0xA8E0, 0xA8F1); (0xA8FF, 0xA8FF); (0xA926, 0xA92D); (0xA947, 0xA951);
   (0xA980, 0xA982); (0xA9B3, 0xA9B3); (0xA9B6, 0xA9B9); (0xA9BC, 0xA9BD);
   (0xA9CF, 0xA9CF); (0xA9E5, 0xA9E6); (0xAA29, 0xAA2E); (0xAA31, 0xAA32);
   (0xAA35, 0xAA36); (0xAA43, 0xAA43); (0xAA4C, 0xAA4C); (0xAA70, 0xAA70);
   (0xAA7C, 0xAA7C); (0xAAB0, 0xAAB0); (0xAAB2, 0xAAB4); (0xAAB7, 0xAAB8);
   (0xAABE, 0xAABF); (0xAAC1, 0xAAC1); (0xAADD, 0xAADD); (0xAAEC, 0xAAED);
   (0xAAF3, 0xAAF4); (0xAAF6, 0xAAF6); (0xAB5B, 0xAB5F); (0xAB69, 0xAB6B);
   (0xABE5, 0xABE5); (0xABE8, 0xABE8); (0xABED, 0xABED); (0xFB1E, 0xFB1E);
   (0xFBB2, 0xFBC2); (0xFE00, 0xFE0F); (0xFE13, 0xFE13); (0xFE20, 0xFE2F);
   (0xFE52, 0xFE52); (0xFE55, 0xFE55); (0xFEFF, 0xFEFF); (0xFF07, 0xFF07);
   (0xFF0E, 0xFF0E); (0xFF1A, 0xFF1A); (0xFF3E, 0xFF3E); (0xFF40, 0xFF40);
   (0xFF70, 0xFF70); (0xFF9E, 0xFF9F); (0xFFE3, 0xFFE3); (0xFFF9, 0xFFFB);
   (0x101FD, 0x101FD); (0x102E0, 0x102E0); (0x10376, 0x1037A); (0x10780, 0x10785);
   (0x10787, 0x107B0); (0x107B2, 0x107BA); (0x10A01, 0x10A03); (0x10A05, 0x10A06);
   (0x10A0C, 0x10A0F); (0x10A38, 0x10A3A); (0x10A3F, 0x10A3F); (0x10AE5, 0x10AE6);
   (0x10D24, 0x10D27); (0x10EAB, 0x10EAC); (0x10F46, 0x10F50); (0x10F82, 0x10F85);
   (0x11001, 0x11001); (0x11038, 0x11046); (0x11070, 0x11070); (0x11073, 0x11074);
   (0x1107F, 0x11081); (0x110B3, 0x110B6); (0x110B9, 0x110BA); (0x110BD, 0x110BD);
   (0x110C2, 0x110C2); (0x110CD, 0x110CD); (0x11100, 0x11102); (0x11127, 0x1112B);
   (0x1112D, 0x11134); (0x11173, 0x11173); (0x11180, 0x11181); (0x111B6, 0x111BE);
   (0x111C9, 0x111CC); (0x111CF, 0x111CF); (0x1122F, 0x11231); (0x11234, 0x11234);
   (0x11236, 0x11237); (0x1123E, 0x1123E); (0x112DF, 0x112DF); (0x112E3, 0x112EA);
   (0x11300, 0x11301); (0x1133B, 0x1133C); (0x11340, 0x11340); (0x11366, 0x1136C);
   (0x11370, 0x11374); (0x11438, 0x1143F); (0x11442, 0x11444); (0x11446, 0x11446);
   (0x1145E, 0x1145E); (0x114B3, 0x114B8); (0x114BA, 0x114BA); (0x114BF, 0x114C0);
   (0x114C2, 0x114C3); (0x115B2, 0x115B5); (0x115BC, 0x115BD); (0x115BF, 0x115C0);
   (0x115DC, 0x115DD); (0x11633, 0x1163A); (0x1163D, 0x1163D); (0x1163F, 0x11640);
   (0x116AB, 0x116AB); (0x116AD, 0x116AD); (0x116B0, 0x116B5); (0x116B7, 0x116B7);
   (0x1171D, 0x1171F); (0x11722, 0x11725); (0x11727, 0x1172B); (0x1182F, 0x11837);
   (0x11839, 0x1183A); (0x1193B, 0x1193C); (0x1193E, 0x1193E); (0x11943, 0x11943);
   (0x119D4, 0x119D7); (0x119DA, 0x119DB); (0x119E0, 0x119E0); (0x11A01, 0x11A0A);
   (0x11A33, 0x11A38); (0x11A3B, 0x11A3E); (0x11A47, 0x11A47); (0x11A51, 0x11A56);
   (0x11A59, 0x11A5B); (0x11A8A, 0x11A96); (0x11A98, 0x11A99); (0x11C30, 0x11C36);
   (0x11C38, 0x11C3D); (0x11C3F, 0x11C3F); (0x11C92, 0x11CA7); (0x11CAA, 0x11CB0);
   (0x11CB2, 0x11CB3); (0x11CB5, 0x11CB6); (0x11D31, 0x11D36); (0x11D3A, 0x11D3A);
   (0x11D3C, 0x11D3D); (0x11D3F, 0x11D45); (0x11D47, 0x11D47); (0x11D90, 0x11D91);
   (0x11D95, 0x11D95); (0x11D97, 0x11D97); (0x11EF3, 0x11EF4); (0x13430, 0x13438);
   (0x16AF0, 0x16AF4); (0x16B30, 0x16B36); (0x16B40, 0x16B43); (0x16F4F, 0x16F4F);
   (0x16F8F, 0x16F9F); (0x16FE0, 0x16FE1); (0x16FE3, 0x16FE4); (0x1AFF0, 0x1AFF3);
   (0x1AFF5, 0x1AFFB); (0x1AFFD, 0x1AFFE); (0x1BC9D, 0x1BC9E); (0x1BCA0, 0x1BCA3);
   (0x1CF00, 0x1CF2D); (0x1CF30, 0x1CF46); (0x1D167, 0x1D169); (0x1D173, 0x1D182);
   (0x1D185, 0x1D18B); (0x1D1AA, 0x1D1AD); (0x1D242, 0x1D244); (0x1DA00, 0x1DA36);
   (0x1DA3B, 0x1DA6C); (0x1DA75, 0x1DA75); (0x1DA84, 0x1DA84); (0x1DA9B, 0x1DA9F);
   (0x1DAA1, 0x1DAAF); (0x1E000, 0x1E006); (0x1E008, 0x1E018); (0x1E01B, 0x1E021);
   (0x1E023, 0x1E024); (0x1E026, 0x1E02A); (0x1E130, 0x1E13D); (0x1E2AE, 0x1E2AE);
   (0x1E2EC, 0x1E2EF); (0x1E8D0, 0x1E8D6); (0x1E944, 0x1E94B); (0x1F3FB, 0x1F3FF);
   (0xE0001, 0xE0001); (0xE0020, 0xE007F); (0xE0100, 0xE01EF)
  ].

Definition cased_ranges : list (Z * Z) :=
  [
   (0x41, 0x5A); (0x61, 0x7A); (0xAA, 0xAA); (0xB5, 0xB5);
   (0xBA, 0xBA); (0xC0, 0xD6); (0xD8, 0xF6); (0xF8, 0x1BA);
   (0x1BC, 0x1BF); (0x1C4, 0x293); (0x295, 0x2AF); (0x370, 0x373);
   (0x376, 0x377); (0x37B, 0x37D); (0x37F, 0x37F); (0x386, 0x386);
   (0x388, 0x38A); (0x38C, 0x38C); (0x38E, 0x3A1); (0x3A3, 0x3F5);
   (0x3F7, 0x481); (0x48A, 0x52F); (0x531, 0x556); (0x560, 0x588);
   (0x10A0, 0x10C5); (0x10C7, 0x10C7); (0x10CD, 0x10CD); (0x10D0, 0x10FA);
   (0x10FD, 0x10FF); (0x13A0, 0x13F5); (0x13F8, 0x13FD); (0x1C80, 0x1C88);
   (0x1C90, 0x1CBA); (0x1CBD, 0x1CBF); (0x1D00, 0x1D2B); (0x1D6B, 0x1D77);
   (0x1D79, 0x1D9A); (0x1E00, 0x1F15); (0x1F18, 0x1F1D); (0x1F20, 0x1F45);
   (0x1F48, 0x1F4D); (0x1F50, 0x1F57); (0x1F59, 0x1F59); (0x1F5B, 0x1F5B);
   (0x1F5D, 0x1F5D); (0x1F5F, 0x1F7D); (0x1F80, 0x1FB4); (0x1FB6, 0x1FBC);
   (0x1FBE, 0x1FBE); (0x1FC2, 0x1FC4); (0x1FC6, 0x1FCC); (0x1FD0, 0x1FD3);
   (0x1FD6, 0x1FDB); (0x1FE0, 0x1FEC); (0x1FF2, 0x1FF4); (0x1FF6, 0x1FFC);
   (0x2102, 0x2102); (0x2107, 0x2107); (0x210A, 0x2113); (0x2115, 0x2115);
   (0x2119, 0x211D); (0x2124, 0x2124); (0x2126, 0x2126); (0x2128, 0x2128);
   (0x212A, 0x212D); (0x212F, 0x2134); (0x2139, 0x2139); (0x213C, 0x213F);
   (0x2145, 0x2149); (0x214E, 0x214E); (0x2160, 0x217F); (0x2183, 0x2184);
   (0x24B6, 0x24E9); (0x2C00, 0x2C7B); (0x2C7E, 0x2CE4); (0x2CEB, 0x2CEE);
   (0x2CF2, 0x2CF3); (0x2D00, 0x2D25); (0x2D27, 0x2D27); (0x2D2D, 0x2D2D);
   (0xA640, 0xA66D); (0xA680, 0xA69B); (0xA722, 0xA76F); (0xA771, 0xA787);
   (0xA78B, 0xA78E); (0xA790, 0xA7CA); (0xA7D0, 0xA7D1); (0xA7D3, 0xA7D3);
   (0xA7D5, 0xA7D9); (0xA7F5, 0xA7F6); (0xA7FA, 0xA7FA); (0xAB30, 0xAB5A);
   (0xAB60, 0xAB68); (0xAB70, 0xABBF); (0xFB00, 0xFB06); (0xFB13, 0xFB17);
   (0xFF21, 0xFF3A); (0xFF41, 0xFF5A); (0x10400, 0x1044F); (0x104B0, 0x104D3);
   (0x104D8, 0x104FB); (0x10570, 0x1057A); (0x1057C, 0x1058A); (0x1058C, 0x10592);
   (0x10594, 0x10595); (0x10597, 0x105A1); (0x105A3, 0x105B1); (0x105B3, 0x105B9);
   (0x105BB, 0x105BC); (0x10C80, 0x10CB2); (0x10CC0, 0x10CF2); (0x118A0, 0x118DF);
   (0x16E40, 0x16E7F); (0x1D400, 0x1D454); (0x1D456, 0x1D49C); (0x1D49E, 0x1D49F);
   (0x1D4A2, 0x1D4A2); (0x1D4A5, 0x1D4A6); (0x1D4A9, 0x1D4AC); (0x1D4AE, 0x1D4B9);
   (0x1D4BB, 0x1D4BB); (0x1D4BD, 0x1D4C3); (0x1D4C5, 0x1D505); (0x1D507, 0x1D50A);
   (0x1D50D, 0x1D514); (0x1D516, 0x1D51C); (0x1D51E, 0x1D539); (0x1D53B, 0x1D53E);
   (0x1D540, 0x1D544); (0x1D546, 0x1D546); (0x1D54A, 0x1D550); (0x1D552, 0x1D6A5);
   (0x1D6A8, 0x1D6C0); (0x1D6C2, 0x1D6DA); (0x1D6DC, 0x1D6FA); (0x1D6FC, 0x1D714);
   (0x1D716, 0x1D734); (0x1D736, 0x1D74E); (0x1D750, 0x1D76E); (0x1D770, 0x1D788);
   (0x1D78A, 0x1D7A8); (0x1D7AA, 0x1D7C2); (0x1D7C4, 0x1D7CB); (0x1DF00, 0x1DF09);
   (0x1DF0B, 0x1DF1E); (0x1E900, 0x1E943); (0x1F130, 0x1F149); (0x1F150, 0x1F169);
   (0x1F170, 0x1F189)
  ].

Definition in_ranges (c : Z) (ranges : list (Z * Z)) : bool :=
  existsb (fun r => (fst r <=? c) && (c <=? snd r)) ranges.

Definition is_case_ignorable (c : Z) : bool :=
  in_ranges c case_ignorable_ranges.

Definition is_cased (c : Z) : bool := in_ranges c cased_ranges.

Fixpoint lower_run (c : Z) (runs : list (Z * Z * Z * Z)) : option Z :=
  match runs with
  | [] => None
  | (first, last, step, delta) :: rest =>
      if (first <=? c) && (c <=? last) && ((c - first) mod step =? 0)
      then Some (c + delta)
      else lower_run c rest
  end.

(** The full lowercase mapping of one code point; U+0130 is the one code
    point whose image has two code points. *)
Definition lower_cp (c : Z) : text :=
  if c =? 0x130 then [0x69; 0x307]
  else match lower_run c lower_runs with
       | Some l => [l]
       | None => [c]
       end.

Fixpoint skip_ignorable (s : text) : text :=
  match s with
  | [] => []
  | c :: rest => if is_case_ignorable c then skip_ignorable rest else s
  end.

(** The sigma rule: [before] holds the code points in front of the sigma,
    nearest first, [after] those behind it.  The sigma is final when the
    nearest code point in front that is not case-ignorable is cased, and the
    nearest one behind that is not case-ignorable, if any, is not cased. *)
Definition final_sigma (before after : text) : bool :=
  match skip_ignorable before with
  | [] => false
  | c :: _ =>
      is_cased c &&
      match skip_ignorable after with
      | [] => true
      | d :: _ => negb (is_cased d)
      end
  end.

Fixpoint lower_from (before : text) (s : text) : text :=
  match s with
  | [] => []
  | c :: rest =>
      (if c =? 0x3A3
       then [if final_sigma before rest then 0x3C2 else 0x3C3]
       else lower_cp c)
      ++ lower_from (c :: before) rest
  end.

Definition lower (s : text) : text := lower_from [] s.

(** *** [str.encode()]: UTF-8 *)

Definition utf8_cp (c : Z) : result bytes :=
  if (0 <=? c) && (c <? 0x80) then Ok [byte_of_Z c]
  else if (0x80 <=? c) && (c <? 0x800)
  then Ok [byte_of_Z (0xC0 + c / 64); byte_of_Z (0x80 + c mod 64)]
  else if (0x800 <=? c) && (c <? 0xD800) || (0xE000 <=? c) && (c <? 0x10000)
  then Ok [byte_of_Z (0xE0 + c / 4096); byte_of_Z (0x80 + (c / 64) mod 64);
           byte_of_Z (0x80 + c mod 64)]
  else if (0x10000 <=? c) && (c <=? 0x10FFFF)
  then Ok [byte_of_Z (0xF0 + c / 262144);
           byte_of_Z (0x80 + (c / 4096) mod 64);
           byte_of_Z (0x80 + (c / 64) mod 64); byte_of_Z (0x80 + c mod 64)]
  else Raise UnicodeEncodeError.

Fixpoint encode_utf8 (s : text) : result bytes :=
  match s with
  | [] => Ok []
  | c :: rest =>
      b <- utf8_cp c ;;
      bs <- encode_utf8 rest ;;
      Ok (b ++ bs)
  end.

(** *** [str.encode("utf-16le")] *)

(** The UTF-16 code units of one code point; a surrogate cannot be encoded. *)
Definition utf16_units (c : Z) : result (list Z) :=
  if (0 <=? c) && (c <? 0xD800) || (0xE000 <=? c) && (c <? 0x10000)
  then Ok [c]
  else if (0x10000 <=? c) && (c <=? 0x10FFFF)
  then Ok [0xD800 + (c - 0x10000) / 1024; 0xDC00 + (c - 0x10000) mod 1024]
  else Raise UnicodeEncodeError.

Fixpoint utf16_code_units (t : text) : result (list Z) :=
  match t with
  | [] => Ok []
  | c :: rest =>
      us <- utf16_units c ;;
      vs <- utf16_code_units rest ;;
      Ok (us ++ vs)
  end.

Definition encode_utf16le (t : text) : result bytes :=
  us <- utf16_code_units t ;;
  Ok (flat_map (le_bytes 2) us).

(** ** Python dicts keyed by [int] *)

Definition dict (V : Type) := list (Z * V).

Fixpoint dict_get {V : Type} (d : dict V) (k : Z) : option V :=
  match d with
  | [] => None
  | (k', v) :: rest => if k' =? k then Some v else dict_get rest k
  end.

Fixpoint dict_set {V : Type} (d : dict V) (k : Z) (v : V) : dict V :=
  match d with
  | [] => [(k, v)]
  | (k', v') :: rest =>
      if k' =? k then (k', v) :: rest else (k', v') :: dict_set rest k v
  end.

Definition dict_del {V : Type} (d : dict V) (k : Z) : dict V :=
  filter (fun kv => negb (fst kv =? k)) d.

Definition dict_keys {V : Type} (d : dict V) : list Z := map fst d.

(** ** Constants *)

Definition MAGIC_KEYWORD : bytes := [x56; x43; x43; x44].   (* b"VCCD" *)
Definition VERSION : Z := 1.
Definition BLOCK_SIZE : Z := 8192.

(** ** [GetLineSized] (compiler.py, lines 19-31) *)

(** Truth value of an [int | None]: [None] and [0] are false. *)
Definition truthy (o : option Z) : bool :=
  match o with
  | Some h => negb (h =? 0)
  | None => false
  end.

(** One turn of [for crchash in crc_len.keys()].  [crc_len[crchash]] is
    always bound, since [crchash] is a key of [crc_len]. *)
Definition GetLineSized_step (crc_len : dict Z) (acc : option Z * Z)
    (crchash : Z) : option Z * Z :=
  let '(chash, max_size) := acc in
  match dict_get crc_len crchash with
  | Some l => if l >? max_size then (Some crchash, l) else (chash, max_size)
  | None => (chash, max_size)
  end.

(** Returns the pair [(chash, max_size)] and [crc_len] as the call leaves
    it.  The parameter [size] is not read. *)
Definition GetLineSized (crc_len : dict Z) (size : Z)
    : (option Z * Z) * dict Z :=
  let '(chash, max_size) :=
    fold_left (GetLineSized_step crc_len) (dict_keys crc_len) (None, 0) in
  let crc_len' :=
    match chash with
    | Some h => if truthy chash then dict_del crc_len h else crc_len
    | None => crc_len
    end in
  ((chash, max_size), crc_len').

(** ** [LineData] and [BlockData] (lines 34-51) *)

(** The attribute [len] of [LineData] is the field [len_] here; [len] is the
    length function. *)
Record LineData : Type := mkLineData {
  hash : Z;
  offset : Z;
  len_ : Z
}.

Record BlockData : Type := mkBlockData {
  line_data : list LineData;
  block : bytes
}.

Definition BlockData_init : BlockData := mkBlockData [] [].

Definition AddLine (self : BlockData) (linehash : Z) (bytedata : bytes)
    : BlockData :=
  let ldata := mkLineData linehash (len (block self)) (len bytedata) in
  mkBlockData (line_data self ++ [ldata]) (block self ++ bytedata).

Definition Fill (self : BlockData) : result BlockData :=
  z <- bytes_zero (BLOCK_SIZE - len (block self)) ;;
  Ok (mkBlockData (line_data self) (block self ++ z)).

(** ** [Subtitles._createblocks] (lines 66-99) *)

(** [self.lines]: the items of the name -> text dict, in insertion order. *)
Definition lines_t := list (text * text).

(** The hash of a caption name, [crc32(name.lower().encode())] (line 72);
    the encoding raises on a name with a lone surrogate. *)
Definition name_hash (name : text) : result Z :=
  b <- encode_utf8 (lower name) ;;
  Ok (crc32 b).

(** The payload of a caption text (line 73). *)
Definition encode_line (line : text) : result bytes :=
  enc <- encode_utf16le line ;;
  term <- pack fmt_h 0 ;;
  Ok (enc ++ term).

(** The [for name, line in self.lines.items()] loop (lines 71-76). *)
Fixpoint encode_lines (lines : lines_t) (crc_line : dict bytes)
    (crc_strlen : dict Z) : result (dict bytes * dict Z) :=
  match lines with
  | [] => Ok (crc_line, crc_strlen)
  | (name, line) :: rest =>
      name <- name_hash name ;;
      line <- encode_line line ;;
      encode_lines rest (dict_set crc_line name line)
                   (dict_set crc_strlen name (len line))
  end.

(** [crc_line[linehash]]. *)
Definition getitem {V : Type} (d : dict V) (k : Z) : result V :=
  match dict_get d k with
  | Some v => Ok v
  | None => Raise KeyError
  end.

(** The inner loop [while remaining_size:] (lines 87-95); it hands back the
    dict as it left it and the block. *)
Fixpoint block_loop (fuel : nat) (crc_line : dict bytes) (crc_strlen : dict Z)
    (block : BlockData) (remaining_size : Z) : result (dict Z * BlockData) :=
  match fuel with
  | O => OutOfFuel
  | S fuel' =>
      if remaining_size =? 0 then Ok (crc_strlen, block)
      else
        let '((linehash, size), crc_strlen) :=
          GetLineSized crc_strlen remaining_size in
        match linehash with
        | Some h =>
            if truthy linehash then
              line <- getitem crc_line h ;;
              block_loop fuel' crc_line crc_strlen (AddLine block h line)
                         (remaining_size - size)
            else
              block <- Fill block ;;
              Ok (crc_strlen, block)
        | None =>
            block <- Fill block ;;
            Ok (crc_strlen, block)
        end
  end.

(** The outer loop [while len(crc_strlen):] (lines 82-97). *)
Fixpoint blocks_loop (fuel : nat) (crc_line : dict bytes) (crc_strlen : dict Z)
    (blocks : list BlockData) : result (list BlockData) :=
  match fuel with
  | O => OutOfFuel
  | S fuel' =>
      if len crc_strlen =? 0 then Ok blocks
      else
        '(crc_strlen, block) <-
          block_loop fuel crc_line crc_strlen BlockData_init 8192 ;;
        blocks_loop fuel' crc_line crc_strlen (blocks ++ [block])
  end.

Definition _createblocks (fuel : nat) (lines : lines_t)
    : result (list BlockData) :=
  '(crc_line, crc_strlen) <- encode_lines lines [] [] ;;
  blocks_loop fuel crc_line crc_strlen [].

(** ** [Subtitles._createdirectory] (lines 102-127) *)

(** The loop over [block.line_data] (lines 121-125). *)
Fixpoint directory_lines (i : Z) (lds : list LineData) (directory : bytes)
    : result bytes :=
  match lds with
  | [] => Ok directory
  | linedata :: rest =>
      h <- pack fmt_I (hash linedata) ;;
      let directory := directory ++ h in
      n <- pack fmt_I i ;;
      let directory := directory ++ n in
      o <- pack fmt_H (offset linedata) ;;
      let directory := directory ++ o in
      l <- pack fmt_H (len_ linedata) ;;
      let directory := directory ++ l in
      directory_lines i rest directory
  end.

(** The loop [for i in range(len(blocks))] (lines 119-125), from index [i]. *)
Fixpoint directory_blocks (i : Z) (blocks : list BlockData)
    (directory : bytes) : result bytes :=
  match blocks with
  | [] => Ok directory
  | block :: rest =>
      directory <- directory_lines i (line_data block) directory ;;
      directory_blocks (i + 1) rest directory
  end.

Definition _createdirectory (blocks : list BlockData) : result bytes :=
  directory_blocks 0 blocks [].

(** ** [Subtitles.serialize] (lines 130-173) *)

(** The first-block offset computed on lines 154-158 from the 20 bytes
    written so far and the directory. *)
Definition block0_offset (cur_len : Z) : Z := (cur_len / 512 + 1) * 512.

Definition serialize (fuel : nat) (lines : lines_t) : result bytes :=
  let file : bytes := [] in
  blocks <- _createblocks fuel lines ;;
  directory <- _createdirectory blocks ;;
  let file := file ++ MAGIC_KEYWORD in
  v <- pack fmt_i VERSION ;;
  let file := file ++ v in
  nb <- pack fmt_i (len blocks) ;;
  let file := file ++ nb in
  bs <- pack fmt_i BLOCK_SIZE ;;
  let file := file ++ bs in
  ne <- pack fmt_i (len lines) ;;
  let file := file ++ ne in
  let cur_len := len file in
  let cur_len := cur_len + (len directory + 4) in
  let offset := cur_len / 512 in
  let offset := (offset + 1) * 512 in
  po <- pack fmt_i offset ;;
  let file := file ++ po in
  let file := file ++ directory in
  pad <- bytes_zero (offset - cur_len) ;;
  let file := file ++ pad in
  let file := fold_left (fun file b => file ++ block b) blocks file in
  Ok file.

(** * Specification vocabulary

    Predicates and layouts the statements below are written with, and the
    inputs they are evaluated on. *)

(** What the scan holds after the keys [seen]: [max_size] bounds every length
    seen, and [chash], when set, is a key whose length is [max_size]. *)
Definition scan_inv (d : dict Z) (seen : list Z) (acc : option Z * Z) : Prop :=
  (forall k l, In k seen -> dict_get d k = Some l -> l <= snd acc) /\
  match fst acc with
  | None => snd acc = 0
  | Some h => dict_get d h = Some (snd acc) /\ 0 < snd acc
  end.

(** [placed crc_line lds bs]: the placement records [lds] describe the bytes
    [bs], written by successive calls of [AddLine] with payloads of
    [crc_line]. *)
Inductive placed (crc_line : dict bytes) : list LineData -> bytes -> Prop :=
| placed_nil : placed crc_line [] []
| placed_add (lds : list LineData) (bs : bytes) (h : Z) (line : bytes) :
    placed crc_line lds bs ->
    dict_get crc_line h = Some line ->
    placed crc_line (lds ++ [mkLineData h (len bs) (len line)]) (bs ++ line).

(** The slice of [bs] that a placement record points at. *)
Definition slice (bs : bytes) (ld : LineData) : bytes :=
  firstn (Z.to_nat (len_ ld)) (skipn (Z.to_nat (offset ld)) bs).

(** The (hash, length) pair a placement record stands for. *)
Definition entry_of (ld : LineData) : Z * Z := (hash ld, len_ ld).

(** A finished block: placed payloads, then zeros up to [BLOCK_SIZE]. *)
Definition block_ok (crc_line : dict bytes) (b : BlockData) : Prop :=
  exists bs,
    placed crc_line (line_data b) bs /\ len bs <= BLOCK_SIZE /\
    block b = bs ++ repeat x00 (Z.to_nat (BLOCK_SIZE - len bs)).

(** The two dicts of [_createblocks] agree: every length is the length of the
    payload under the same hash. *)
Definition dicts_agree (crc_line : dict bytes) (crc_strlen : dict Z) : Prop :=
  forall h n, dict_get crc_strlen h = Some n ->
    exists line, dict_get crc_line h = Some line /\ len line = n.

(** The records of a list of blocks, as (hash, length) pairs in block order
    and placement order. *)
Definition entries_of (blocks : list BlockData) : list (Z * Z) :=
  flat_map (fun b => map entry_of (line_data b)) blocks.

(** The state of the two dicts after any number of turns of the encoder
    loop: keys are unique, the dicts agree, every key is a 32-bit value and
    every length counts at least the terminator. *)
Definition encoded (cl : dict bytes) (cs : dict Z) : Prop :=
  NoDup (dict_keys cs) /\ dicts_agree cl cs /\
  forall h n, dict_get cs h = Some n -> 0 <= h < 2 ^ 32 /\ 2 <= n.

(** The lengths of the dict are positive and no key is 0. *)
Definition positive_nonzero (cs : dict Z) : Prop :=
  forall h n, dict_get cs h = Some n -> 0 < n /\ h <> 0.

(** The sum of the lengths of a dict. *)
Definition total (cs : dict Z) : Z := fold_right Z.add 0 (map snd cs).

(** The payload length of a text (0 when it cannot be encoded), and the sum
    of the payload lengths of an input. *)
Definition payload_len (t : text) : Z :=
  match encode_line t with
  | Ok payload => len payload
  | _ => 0
  end.

Definition input_bytes (lines : lines_t) : Z :=
  fold_right Z.add 0 (map (fun p => payload_len (snd p)) lines).

(** The 12-byte record of the placement [ld] in block number [i]. *)
Definition directory_record (i : Z) (ld : LineData) : bytes :=
  le_bytes 4 (hash ld) ++ le_bytes 4 i ++
  le_bytes 2 (offset ld) ++ le_bytes 2 (len_ ld).

(** The placement records of [blocks], each with the index of its block
    (counted from [i]), in block order and then placement order. *)
Fixpoint indexed_records (i : Z) (blocks : list BlockData)
    : list (Z * LineData) :=
  match blocks with
  | [] => []
  | b :: rest => map (pair i) (line_data b) ++ indexed_records (i + 1) rest
  end.

Definition record_bytes (p : Z * LineData) : bytes :=
  directory_record (fst p) (snd p).

(** The bytes [pos .. pos + size) of a record. *)
Definition field (r : bytes) (pos size : nat) : bytes :=
  firstn size (skipn pos r).

(** The values [_createdirectory] can pack. *)
Definition packable (p : Z * LineData) : Prop :=
  0 <= hash (snd p) < 2 ^ 32 /\ 0 <= fst p < 2 ^ 32 /\
  0 <= offset (snd p) < 2 ^ 16 /\ 0 <= len_ (snd p) < 2 ^ 16.

(** The 24 header bytes. *)
Definition header (nblocks nentries block0 : Z) : bytes :=
  MAGIC_KEYWORD ++ le_bytes 4 VERSION ++ le_bytes 4 nblocks ++
  le_bytes 4 BLOCK_SIZE ++ le_bytes 4 nentries ++ le_bytes 4 block0.

(** A Unicode scalar value: a code point that is not a surrogate. *)
Definition scalarb (c : Z) : bool :=
  (0 <=? c) && (c <? 0xD800) || (0xE000 <=? c) && (c <=? 0x10FFFF).

Definition encodable (t : text) : bool := forallb scalarb t.

(** A range of code points on one side of the surrogates, and a run of the
    lowercase table that lies, with its images, in such ranges. *)
Definition scalar_range (first last : Z) : bool :=
  (0 <=? first) && (last <? 0xD800) ||
  (0xE000 <=? first) && (last <=? 0x10FFFF).

Definition run_scalar (r : Z * Z * Z * Z) : bool :=
  let '(first, last, step, delta) := r in
  scalar_range first last && scalar_range (first + delta) (last + delta).

(** Every name and every text of the input can be encoded. *)
Definition all_encodable (lines : lines_t) : bool :=
  forallb (fun p => encodable (fst p) && encodable (snd p)) lines.

(** Whether a run returned a value. *)
Definition returned {A : Type} (r : result A) : bool :=
  match r with
  | Ok _ => true
  | _ => false
  end.

(** ** Sample inputs and the values they evaluate to *)

(** Scenario B of the specification: one caption, "Hi". *)
Definition scenario_B : lines_t := [(txt "Caption.hello", txt "Hi")].

Definition scenario_B_blocks : list BlockData :=
  [mkBlockData [mkLineData 0xe12c20e9 0 6]
     ([x48; x00; x69; x00; x00; x00] ++ repeat x00 (Z.to_nat 8186))].

Definition scenario_B_directory : bytes :=
  [xe9; x20; x2c; xe1; x00; x00; x00; x00; x00; x00; x06; x00].

Definition scenario_B_file : bytes :=
  header 1 1 512 ++ scenario_B_directory ++ repeat x00 (Z.to_nat 476) ++
  [x48; x00; x69; x00; x00; x00] ++ repeat x00 (Z.to_nat 8186).

(** The block the packer appends on every turn when its only entry has the
    hash 0: 8192 zero bytes and no record. *)
Definition zero_block : BlockData :=
  mkBlockData [] (repeat x00 (Z.to_nat 8192)).

Definition collision_lines : lines_t :=
  [(txt "A", txt "x"); (txt "a", txt "y")].

Definition collision_blocks : list BlockData :=
  [mkBlockData [mkLineData 0xe8b7be43 0 4]
     ([x79; x00; x00; x00] ++ repeat x00 (Z.to_nat 8188))].

Definition collision_directory : bytes :=
  [x43; xbe; xb7; xe8; x00; x00; x00; x00; x00; x00; x04; x00].

Definition collision_file : bytes :=
  header 1 2 512 ++ collision_directory ++ repeat x00 (Z.to_nat 476) ++
  [x79; x00; x00; x00] ++ repeat x00 (Z.to_nat 8188).

(** The text "x" * n. *)
Definition long_text (n : nat) : text := repeat 120 n.

(** Two captions of 3000 characters: each payload is 6002 bytes. *)
Definition two_long : lines_t :=
  [(txt "a", long_text 3000); (txt "b", long_text 3000)].

(** A caption of 4096 characters: its payload is 8194 bytes. *)
Definition oversize_payload : bytes :=
  flat_map (le_bytes 2) (long_text 4096) ++ [x00; x00].

(** An oversize caption that a later caption of the same hash replaces. *)
Definition shadowed_oversize : lines_t :=
  [(txt "A", long_text 4096); (txt "a", txt "x")].

(** Records laid end to end from the offset [off], each of positive length. *)
Fixpoint contiguous (off : Z) (lds : list LineData) : Prop :=
  match lds with
  | [] => True
  | ld :: rest =>
      offset ld = off /\ 0 < len_ ld /\ contiguous (off + len_ ld) rest
  end.

(** A list of numbers that starts at most at [bound] and never goes up. *)
Fixpoint descending_from (bound : Z) (l : list Z) : Prop :=
  match l with
  | [] => True
  | x :: rest => x <= bound /\ descending_from x rest
  end.

(** The payload bytes a block holds, by its records. *)
Definition used_bytes (b : BlockData) : Z :=
  fold_right Z.add 0 (map len_ (line_data b)).

(** A caption whose payload is exactly one block, and a short one. *)
Definition full_then_short : lines_t :=
  [(txt "a", long_text 4095); (txt "b", txt "x")].

Definition full_block : BlockData :=
  mkBlockData [mkLineData 0xe8b7be43 0 8192]
    (flat_map (le_bytes 2) (long_text 4095) ++ [x00; x00]).

Definition short_block : BlockData :=
  mkBlockData [mkLineData 0x71beeff9 0 4]
    ([x78; x00; x00; x00] ++ repeat x00 (Z.to_nat 8188)).

(** Reading UTF-16LE back: the 16-bit units of a byte string, and the code
    points of a list of units (a high surrogate takes the unit after it). *)
Fixpoint units_of_bytes (bs : bytes) : list Z :=
  match bs with
  | b0 :: b1 :: rest => (Z_of_byte b0 + 256 * Z_of_byte b1) :: units_of_bytes rest
  | _ => []
  end.

Fixpoint utf16_decode (us : list Z) : text :=
  match us with
  | [] => []
  | u :: rest =>
      if (0xD800 <=? u) && (u <? 0xDC00) then
        match rest with
        | v :: rest' =>
            (0x10000 + (u - 0xD800) * 1024 + (v - 0xDC00)) :: utf16_decode rest'
        | [] => [u]
        end
      else u :: utf16_decode rest
  end.

(** The text of a payload: its units without the terminator, decoded. *)
Definition decode_line (payload : bytes) : text :=
  utf16_decode (removelast (units_of_bytes payload)).

(** * Properties *)

(** ** Tactics *)

(** [lia] with the block size written out. *)
Ltac blia := unfold BLOCK_SIZE in *; lia.

(** Inversion of a [bind] that returned. *)
Ltac inv_bind H :=
  match type of H with
  | bind ?m _ = Ok _ =>
      let E := fresh "E" in
      destruct m eqn:E; cbn [bind] in H; [|discriminate H|discriminate H]
  end.

(** ** Sample values of the library functions *)

Example crc32_empty : crc32 [] = 0.
Proof. reflexivity. Qed.

Example crc32_a : name_hash (txt "A") = Ok 0xe8b7be43.
Proof. vm_compute. reflexivity. Qed.

Example crc32_caption_hello : name_hash (txt "Caption.Hello") = Ok 0xe12c20e9.
Proof. vm_compute. reflexivity. Qed.

Example crc32_xohetvi : name_hash (txt "Xohetvi") = Ok 0.
Proof. vm_compute. reflexivity. Qed.

(** Names outside Latin-1: the Greek word with a final sigma, the dotted
    capital I, a Cyrillic word, a Deseret letter. *)
Example lower_sigma :
  lower [0x39F; 0x394; 0x39F; 0x3A3] = [0x3BF; 0x3B4; 0x3BF; 0x3C2] /\
  lower [0x3A3; 0x391] = [0x3C3; 0x3B1] /\
  lower [0x41; 0x27; 0x3A3; 0x2E] = [0x61; 0x27; 0x3C2; 0x2E].
Proof. vm_compute. repeat split. Qed.

Example lower_wide :
  lower [0x130; 0x416; 0x10400; 0x1E9E] = [0x69; 0x307; 0x436; 0x10428; 0xDF].
Proof. vm_compute. reflexivity. Qed.

Example name_hash_wide :
  name_hash [0x39F; 0x394; 0x39F; 0x3A3] = Ok 97676704 /\
  name_hash [0x130; 0x416; 0x10400; 0x20AC] = Ok 967346564.
Proof. vm_compute. split; reflexivity. Qed.

Example name_hash_latin1 :
  name_hash (map Z.of_nat (seq 0 256)) = Ok 323352546.
Proof. vm_compute. reflexivity. Qed.

Example name_hash_surrogate :
  name_hash [0xD800] = Raise UnicodeEncodeError /\
  name_hash [0x41; 0xDFFF] = Raise UnicodeEncodeError.
Proof. vm_compute. split; reflexivity. Qed.

Lemma Ok_inj {A : Type} (a b : A) : Ok a = Ok b -> a = b.
Proof. congruence. Qed.

(** ** Bytes and little-endian images *)

Lemma Z_of_byte_range (b : byte) : 0 <= Z_of_byte b < 256.
Proof.
  unfold Z_of_byte. pose proof (Byte.to_N_bounded b). lia.
Qed.

Lemma Z_of_byte_of_Z (z : Z) : Z_of_byte (byte_of_Z z) = z mod 256.
Proof.
  unfold Z_of_byte, byte_of_Z.
  pose proof (Z.mod_pos_bound z 256 ltac:(lia)) as Hm.
  destruct (Byte.of_N (Z.to_N (z mod 256))) as [b|] eqn:E.
  - apply Byte.to_of_N in E. rewrite E. lia.
  - apply Byte.of_N_None_iff in E. lia.
Qed.

Lemma length_le_bytes (n : nat) (z : Z) : List.length (le_bytes n z) = n.
Proof.
  revert z. induction n as [|n IH]; intros z; simpl; [reflexivity|].
  now rewrite IH.
Qed.

Lemma le_decode_le_bytes (n : nat) (z : Z) :
  le_decode (le_bytes n z) = z mod 256 ^ Z.of_nat n.
Proof.
  revert z. induction n as [|n IH]; intros z.
  - simpl. now rewrite Z.mod_1_r.
  - cbn [le_bytes le_decode]. rewrite IH, Z_of_byte_of_Z.
    rewrite Nat2Z.inj_succ, Z.pow_succ_r by lia.
    rewrite Z.rem_mul_r; [reflexivity|lia|apply Z.pow_pos_nonneg; lia].
Qed.

Lemma le_decode_le_bytes_small (n : nat) (z : Z) :
  0 <= z < 256 ^ Z.of_nat n -> le_decode (le_bytes n z) = z.
Proof.
  intros H. rewrite le_decode_le_bytes. now apply Z.mod_small.
Qed.

Lemma pack_Ok (f : fmt) (v : Z) (bs : bytes) :
  pack f v = Ok bs ->
  fmt_min f <= v <= fmt_max f /\ bs = le_bytes (fmt_size f) v.
Proof.
  unfold pack. destruct (_ && _) eqn:E; [|discriminate].
  intros [= <-]. apply andb_true_iff in E as [E1 E2].
  apply Z.leb_le in E1, E2. split; [lia|reflexivity].
Qed.

Lemma pack_in_range (f : fmt) (v : Z) :
  fmt_min f <= v <= fmt_max f -> pack f v = Ok (le_bytes (fmt_size f) v).
Proof.
  intros H. unfold pack.
  replace (_ && _) with true; [reflexivity|].
  symmetry. apply andb_true_iff. split; apply Z.leb_le; lia.
Qed.

Lemma pack_length (f : fmt) (v : Z) (bs : bytes) :
  pack f v = Ok bs -> List.length bs = fmt_size f.
Proof.
  intros H. apply pack_Ok in H as [_ ->]. apply length_le_bytes.
Qed.

Lemma len_app {A : Type} (l1 l2 : list A) : len (l1 ++ l2) = len l1 + len l2.
Proof. unfold len. rewrite length_app. lia. Qed.

Lemma len_nonneg {A : Type} (l : list A) : 0 <= len l.
Proof. unfold len. lia. Qed.

Lemma bytes_zero_Ok (n : Z) (z : bytes) :
  bytes_zero n = Ok z -> 0 <= n /\ z = repeat x00 (Z.to_nat n) /\ len z = n.
Proof.
  unfold bytes_zero. destruct (n <? 0) eqn:E; [discriminate|].
  intros [= <-]. apply Z.ltb_ge in E. repeat split; [lia|].
  unfold len. rewrite repeat_length. lia.
Qed.

(** ** The range of [crc32] *)

Lemma lxor_below (n a b : Z) :
  0 <= n -> 0 <= a < 2 ^ n -> 0 <= b < 2 ^ n -> 0 <= Z.lxor a b < 2 ^ n.
Proof.
  intros Hn Ha Hb.
  assert (H0 : 0 <= Z.lxor a b) by (apply Z.lxor_nonneg; lia).
  split; [exact H0|].
  destruct (Z.eq_dec (Z.lxor a b) 0) as [->|Hne]; [lia|].
  assert (Hpos : 0 < n).
  { destruct (Z.eq_dec n 0) as [->|]; [|lia].
    assert (a = 0) by (simpl in Ha; lia). assert (b = 0) by (simpl in Hb; lia).
    subst. now elim Hne. }
  apply Z.log2_lt_pow2; [lia|].
  eapply Z.le_lt_trans; [apply Z.log2_lxor; lia|].
  apply Z.max_lub_lt.
  - destruct (Z.eq_dec a 0) as [->|]; [simpl; lia|].
    apply Z.log2_lt_pow2; lia.
  - destruct (Z.eq_dec b 0) as [->|]; [simpl; lia|].
    apply Z.log2_lt_pow2; lia.
Qed.

Lemma crc32_shift_range (c : Z) :
  0 <= c < 2 ^ 32 -> 0 <= crc32_shift c < 2 ^ 32.
Proof.
  intros Hc. unfold crc32_shift.
  assert (Hs : 0 <= Z.shiftr c 1 < 2 ^ 32).
  { rewrite Z.shiftr_div_pow2 by lia. change (2 ^ 1) with 2.
    split; [apply Z.div_pos; lia|].
    apply Z.div_lt_upper_bound; lia. }
  destruct (Z.testbit c 0); [|exact Hs].
  apply lxor_below; lia.
Qed.

Lemma crc32_update_range (c : Z) (b : byte) :
  0 <= c < 2 ^ 32 -> 0 <= crc32_update c b < 2 ^ 32.
Proof.
  intros Hc. unfold crc32_update.
  assert (Hx : 0 <= Z.lxor c (Z_of_byte b) < 2 ^ 32).
  { apply lxor_below; [lia|exact Hc|]. pose proof (Z_of_byte_range b). lia. }
  generalize dependent (Z.lxor c (Z_of_byte b)). intros x Hx.
  do 8 (apply crc32_shift_range in Hx). exact Hx.
Qed.

Lemma crc32_range (data : bytes) : 0 <= crc32 data < 2 ^ 32.
Proof.
  unfold crc32.
  assert (H : forall c, 0 <= c < 2 ^ 32 ->
                        0 <= fold_left crc32_update data c < 2 ^ 32).
  { induction data as [|b data IH]; intros c Hc; simpl; [exact Hc|].
    apply IH, crc32_update_range, Hc. }
  apply lxor_below; [lia|apply H; lia|lia].
Qed.

(** ** Names: lowering and UTF-8 *)

Lemma lower_runs_scalar : forallb run_scalar lower_runs = true.
Proof. vm_compute. reflexivity. Qed.

Lemma scalar_range_in (first last c : Z) :
  scalar_range first last = true -> first <= c <= last -> scalarb c = true.
Proof.
  unfold scalar_range, scalarb. intros H Hc.
  apply orb_true_iff in H as [H|H]; apply andb_true_iff in H as [H1 H2];
    apply orb_true_iff; [left|right]; apply andb_true_iff; split; lia.
Qed.

Lemma lower_run_scalar (c : Z) (runs : list (Z * Z * Z * Z)) (l : Z) :
  forallb run_scalar runs = true -> lower_run c runs = Some l ->
  scalarb c = true /\ scalarb l = true.
Proof.
  induction runs as [|[[[first last] step] delta] runs IH]; intros Hr Hl;
    [discriminate Hl|].
  cbn [forallb] in Hr. apply andb_true_iff in Hr as [Hr Hrs].
  cbn [lower_run] in Hl.
  destruct ((first <=? c) && (c <=? last) && ((c - first) mod step =? 0))
    eqn:E; [|exact (IH Hrs Hl)].
  apply andb_true_iff in E as [E _]. apply andb_true_iff in E as [E1 E2].
  assert (l = c + delta) by congruence. subst l.
  unfold run_scalar in Hr. apply andb_true_iff in Hr as [Ha Hb].
  split; [apply (scalar_range_in first last)
         |apply (scalar_range_in (first + delta) (last + delta))];
    try assumption; lia.
Qed.

Lemma lower_cp_scalar (c : Z) : forallb scalarb (lower_cp c) = scalarb c.
Proof.
  unfold lower_cp. destruct (c =? 0x130) eqn:E.
  - apply Z.eqb_eq in E. subst c. reflexivity.
  - destruct (lower_run c lower_runs) as [l|] eqn:El.
    + destruct (lower_run_scalar c lower_runs l lower_runs_scalar El)
        as [Hc Hl].
      cbn [forallb]. now rewrite Hc, Hl.
    + cbn [forallb]. apply andb_true_r.
Qed.

Lemma lower_from_encodable (before s : text) :
  encodable (lower_from before s) = encodable s.
Proof.
  unfold encodable. revert before.
  induction s as [|c s IH]; intros before; [reflexivity|].
  cbn [lower_from forallb]. rewrite forallb_app, IH. f_equal.
  destruct (c =? 0x3A3) eqn:E; [|apply lower_cp_scalar].
  apply Z.eqb_eq in E. subst c.
  now destruct (final_sigma before s).
Qed.

Lemma lower_encodable (s : text) : encodable (lower s) = encodable s.
Proof. apply lower_from_encodable. Qed.

Lemma utf8_cp_scalar (c : Z) :
  scalarb c = true -> exists b, utf8_cp c = Ok b.
Proof.
  unfold scalarb, utf8_cp. intros H.
  destruct ((0 <=? c) && (c <? 0x80)) eqn:E1; [eexists; reflexivity|].
  destruct ((0x80 <=? c) && (c <? 0x800)) eqn:E2; [eexists; reflexivity|].
  destruct ((0x800 <=? c) && (c <? 0xD800) || (0xE000 <=? c) && (c <? 0x10000))
    eqn:E3; [eexists; reflexivity|].
  destruct ((0x10000 <=? c) && (c <=? 0x10FFFF)) eqn:E4;
    [eexists; reflexivity|].
  exfalso.
  apply orb_false_iff in E3 as [Ea Eb].
  apply andb_false_iff in E1, E2, Ea, Eb, E4.
  apply orb_true_iff in H. rewrite !andb_true_iff in H.
  rewrite ?Z.leb_le, ?Z.ltb_lt in H. rewrite ?Z.leb_gt, ?Z.ltb_ge in *. lia.
Qed.

Lemma utf8_cp_surrogate (c : Z) :
  scalarb c = false -> utf8_cp c = Raise UnicodeEncodeError.
Proof.
  unfold scalarb, utf8_cp. intros H.
  apply orb_false_iff in H as [Ha Hb]. apply andb_false_iff in Ha, Hb.
  rewrite ?Z.leb_gt, ?Z.ltb_ge in Ha, Hb.
  destruct ((0 <=? c) && (c <? 0x80)) eqn:E1.
  { apply andb_true_iff in E1. lia. }
  destruct ((0x80 <=? c) && (c <? 0x800)) eqn:E2.
  { apply andb_true_iff in E2. lia. }
  destruct ((0x800 <=? c) && (c <? 0xD800) || (0xE000 <=? c) && (c <? 0x10000))
    eqn:E3.
  { apply orb_true_iff in E3. rewrite !andb_true_iff in E3. lia. }
  destruct ((0x10000 <=? c) && (c <=? 0x10FFFF)) eqn:E4; [|reflexivity].
  apply andb_true_iff in E4. lia.
Qed.

Lemma encode_utf8_encodable (s : text) :
  encodable s = true -> exists b, encode_utf8 s = Ok b.
Proof.
  unfold encodable. induction s as [|c s IH]; intros H.
  - now exists [].
  - cbn [forallb] in H. apply andb_true_iff in H as [Hc Hs].
    destruct (utf8_cp_scalar c Hc) as [b Hb]. destruct (IH Hs) as [bs Hbs].
    exists (b ++ bs). cbn [encode_utf8]. rewrite Hb. cbn [bind].
    rewrite Hbs. reflexivity.
Qed.

Lemma encode_utf8_unencodable (s : text) :
  encodable s = false -> encode_utf8 s = Raise UnicodeEncodeError.
Proof.
  unfold encodable. induction s as [|c s IH]; intros H; [discriminate H|].
  cbn [forallb] in H. cbn [encode_utf8].
  destruct (scalarb c) eqn:Hc.
  - destruct (utf8_cp_scalar c Hc) as [b ->]. cbn [bind].
    now rewrite (IH H).
  - now rewrite (utf8_cp_surrogate c Hc).
Qed.

(** A name is hashed exactly when it has no lone surrogate; the hash is an
    unsigned 32-bit number. *)
Lemma name_hash_encodable (name : text) :
  encodable name = true -> exists h, name_hash name = Ok h.
Proof.
  intros H. rewrite <- lower_encodable in H.
  destruct (encode_utf8_encodable _ H) as [b Hb].
  exists (crc32 b). unfold name_hash. now rewrite Hb.
Qed.

Lemma name_hash_unencodable (name : text) :
  encodable name = false -> name_hash name = Raise UnicodeEncodeError.
Proof.
  intros H. rewrite <- lower_encodable in H.
  unfold name_hash. now rewrite (encode_utf8_unencodable _ H).
Qed.

Lemma name_hash_Ok (name : text) (h : Z) :
  name_hash name = Ok h -> encodable name = true.
Proof.
  intros H. destruct (encodable name) eqn:E; [reflexivity|].
  rewrite (name_hash_unencodable name E) in H. discriminate H.
Qed.

Lemma name_hash_range (name : text) (h : Z) :
  name_hash name = Ok h -> 0 <= h < 2 ^ 32.
Proof.
  unfold name_hash. intros H.
  destruct (encode_utf8 (lower name)) as [b| |]; cbn [bind] in H;
    try discriminate H.
  apply Ok_inj in H. subst h. apply crc32_range.
Qed.

(** ** Dicts *)

Section Dicts.
Context {V : Type}.
Implicit Types (d : dict V) (k : Z) (v : V).

Lemma dict_get_set_eq d k v : dict_get (dict_set d k v) k = Some v.
Proof.
  induction d as [|[k' v'] d IH]; simpl.
  - now rewrite Z.eqb_refl.
  - destruct (k' =? k) eqn:E; simpl; rewrite E; [reflexivity|exact IH].
Qed.

Lemma dict_get_set_neq d k v k' :
  k <> k' -> dict_get (dict_set d k v) k' = dict_get d k'.
Proof.
  intros Hne. induction d as [|[k0 v0] d IH]; simpl.
  - destruct (k =? k') eqn:E; [apply Z.eqb_eq in E; contradiction|reflexivity].
  - destruct (k0 =? k) eqn:E; simpl.
    + apply Z.eqb_eq in E. subst k0.
      destruct (k =? k') eqn:E'; [apply Z.eqb_eq in E'; contradiction|].
      reflexivity.
    + destruct (k0 =? k'); [reflexivity|exact IH].
Qed.

Lemma dict_get_del_eq d k : dict_get (dict_del d k) k = None.
Proof.
  induction d as [|[k0 v0] d IH]; simpl; [reflexivity|].
  destruct (k0 =? k) eqn:E; simpl; [exact IH|]. now rewrite E.
Qed.

Lemma dict_get_del_neq d k k' :
  k <> k' -> dict_get (dict_del d k) k' = dict_get d k'.
Proof.
  intros Hne. induction d as [|[k0 v0] d IH]; simpl; [reflexivity|].
  destruct (k0 =? k) eqn:E; simpl.
  - apply Z.eqb_eq in E. subst k0.
    destruct (k =? k') eqn:E'; [apply Z.eqb_eq in E'; contradiction|].
    exact IH.
  - destruct (k0 =? k'); [reflexivity|exact IH].
Qed.

Lemma dict_get_In d k v : dict_get d k = Some v -> In (k, v) d.
Proof.
  induction d as [|[k0 v0] d IH]; simpl; [discriminate|].
  destruct (k0 =? k) eqn:E.
  - apply Z.eqb_eq in E. intros [= ->]. subst. now left.
  - intros H. right. now apply IH.
Qed.

Lemma dict_get_key d k v : dict_get d k = Some v -> In k (dict_keys d).
Proof.
  intros H. apply dict_get_In in H.
  apply (in_map fst) in H. exact H.
Qed.

Lemma dict_key_get d k : In k (dict_keys d) -> exists v, dict_get d k = Some v.
Proof.
  induction d as [|[k0 v0] d IH]; simpl; [contradiction|].
  intros [->|H].
  - rewrite Z.eqb_refl. now exists v0.
  - destruct (k0 =? k); [now exists v0|now apply IH].
Qed.

Lemma In_dict_get d k v :
  NoDup (dict_keys d) -> In (k, v) d -> dict_get d k = Some v.
Proof.
  induction d as [|[k0 v0] d IH]; simpl; [contradiction|].
  intros Hnd [[= -> ->]|H].
  - now rewrite Z.eqb_refl.
  - inversion Hnd as [|? ? Hnotin Hnd']; subst.
    destruct (k0 =? k) eqn:E; [|now apply IH].
    apply Z.eqb_eq in E. subst k0. exfalso. apply Hnotin.
    apply (in_map fst) in H. exact H.
Qed.

Lemma dict_keys_del d k :
  dict_keys (dict_del d k) = filter (fun k' => negb (k' =? k)) (dict_keys d).
Proof.
  induction d as [|[k0 v0] d IH]; simpl; [reflexivity|].
  destruct (k0 =? k); simpl; now rewrite IH.
Qed.

Lemma NoDup_dict_del d k : NoDup (dict_keys d) -> NoDup (dict_keys (dict_del d k)).
Proof.
  intros H. rewrite dict_keys_del. now apply NoDup_filter.
Qed.

Lemma dict_del_absent d k : ~ In k (dict_keys d) -> dict_del d k = d.
Proof.
  induction d as [|[k0 v0] d IH]; simpl; [reflexivity|].
  intros H. destruct (k0 =? k) eqn:E; simpl.
  - apply Z.eqb_eq in E. subst. exfalso. apply H. now left.
  - f_equal. apply IH. intros Hin. apply H. now right.
Qed.

(** Deleting a bound key of a dict takes out exactly that binding. *)
Lemma dict_del_Permutation d k v :
  NoDup (dict_keys d) -> dict_get d k = Some v ->
  Permutation d ((k, v) :: dict_del d k).
Proof.
  induction d as [|[k0 v0] d IH]; simpl; [discriminate|].
  intros Hnd Hget. inversion Hnd as [|? ? Hnotin Hnd']; subst.
  destruct (k0 =? k) eqn:E; simpl.
  - apply Z.eqb_eq in E. subst k0. injection Hget as ->.
    fold (dict_del d k). rewrite dict_del_absent by exact Hnotin.
    reflexivity.
  - fold (dict_del d k). rewrite perm_swap. constructor. now apply IH.
Qed.

Lemma dict_keys_set d k v :
  dict_keys (dict_set d k v) =
  if existsb (Z.eqb k) (dict_keys d) then dict_keys d else dict_keys d ++ [k].
Proof.
  induction d as [|[k0 v0] d IH]; simpl; [reflexivity|].
  rewrite (Z.eqb_sym k k0).
  destruct (k0 =? k) eqn:E; simpl; [reflexivity|].
  rewrite IH. now destruct (existsb _ _).
Qed.

Lemma NoDup_dict_set d k v :
  NoDup (dict_keys d) -> NoDup (dict_keys (dict_set d k v)).
Proof.
  intros H. rewrite dict_keys_set.
  destruct (existsb (Z.eqb k) (dict_keys d)) eqn:E; [exact H|].
  apply NoDup_app; [exact H|repeat constructor; simpl; tauto|].
  intros x Hx [Hk|[]]. subst x.
  assert (existsb (Z.eqb k) (dict_keys d) = true); [|congruence].
  apply existsb_exists. exists k. split; [exact Hx|apply Z.eqb_refl].
Qed.

End Dicts.

(** ** [GetLineSized] *)

Lemma GetLineSized_step_inv (d : dict Z) (seen : list Z) (acc : option Z * Z)
    (k : Z) :
  scan_inv d seen acc -> scan_inv d (seen ++ [k]) (GetLineSized_step d acc k).
Proof.
  destruct acc as [c m]. intros [Hmax Hc]. simpl in Hmax, Hc.
  assert (Hm : 0 <= m) by (destruct c; lia).
  unfold GetLineSized_step.
  destruct (dict_get d k) as [l|] eqn:Hk.
  - destruct (l >? m) eqn:E.
    + apply Z.gtb_lt in E. split; simpl.
      * intros k' l' Hin Hget. apply in_app_or in Hin as [Hin|[<-|[]]].
        -- specialize (Hmax _ _ Hin Hget). lia.
        -- rewrite Hk in Hget. injection Hget as <-. lia.
      * split; [exact Hk|lia].
    + assert (l <= m) by (rewrite Z.gtb_ltb in E; apply Z.ltb_ge in E; lia).
      split; simpl; [|exact Hc].
      intros k' l' Hin Hget. apply in_app_or in Hin as [Hin|[<-|[]]].
      * exact (Hmax _ _ Hin Hget).
      * rewrite Hk in Hget. injection Hget as <-. lia.
  - split; simpl; [|exact Hc].
    intros k' l' Hin Hget. apply in_app_or in Hin as [Hin|[<-|[]]].
    + exact (Hmax _ _ Hin Hget).
    + congruence.
Qed.

Lemma GetLineSized_scan_inv (d : dict Z) (ks seen : list Z)
    (acc : option Z * Z) :
  scan_inv d seen acc ->
  scan_inv d (seen ++ ks) (fold_left (GetLineSized_step d) ks acc).
Proof.
  revert seen acc. induction ks as [|k ks IH]; intros seen acc H; simpl.
  - now rewrite app_nil_r.
  - replace (seen ++ k :: ks) with ((seen ++ [k]) ++ ks)
      by (rewrite <- app_assoc; reflexivity).
    apply IH, GetLineSized_step_inv, H.
Qed.

(** The result of a call: [max_size] is the greatest length in the dict,
    [chash] a key of that length (none when no length is positive), and the
    binding of [chash] is deleted unless [chash] is 0. *)
Lemma GetLineSized_spec (d : dict Z) (size : Z) (chash : option Z) (m : Z)
    (d' : dict Z) :
  GetLineSized d size = ((chash, m), d') ->
  (forall k l, dict_get d k = Some l -> l <= m) /\
  match chash with
  | None => m = 0 /\ d' = d
  | Some h => dict_get d h = Some m /\ 0 < m /\
              d' = if h =? 0 then d else dict_del d h
  end.
Proof.
  unfold GetLineSized.
  pose proof (GetLineSized_scan_inv d (dict_keys d) [] (None, 0)) as Hinv.
  destruct (fold_left _ _ _) as [c mx]. intros [= -> -> <-].
  destruct Hinv as [Hmax Hc].
  { split; simpl; [intros ? ? []|reflexivity]. }
  simpl in Hmax, Hc. split.
  - intros k l Hget. apply (Hmax k l); [|exact Hget].
    eapply dict_get_key, Hget.
  - destruct chash as [h|]; [|now split].
    destruct Hc as [Hget Hpos]. repeat split; try assumption.
    simpl. now destruct (h =? 0).
Qed.

(** The capacity argument has no effect on the result. *)
Lemma GetLineSized_size_irrelevant (d : dict Z) (size1 size2 : Z) :
  GetLineSized d size1 = GetLineSized d size2.
Proof. reflexivity. Qed.

(** ** The layout of a block *)

Lemma placed_AddLine (cl : dict bytes) (b : BlockData) (h : Z) (line : bytes) :
  placed cl (line_data b) (block b) -> dict_get cl h = Some line ->
  placed cl (line_data (AddLine b h line)) (block (AddLine b h line)).
Proof. intros Hp Hg. simpl. now constructor. Qed.

Lemma slice_app (bs extra : bytes) (ld : LineData) :
  0 <= offset ld -> 0 <= len_ ld -> offset ld + len_ ld <= len bs ->
  slice (bs ++ extra) ld = slice bs ld.
Proof.
  unfold slice, len. intros Ho Hl Hb.
  rewrite skipn_app, firstn_app.
  rewrite length_skipn.
  replace (Z.to_nat (len_ ld) - (List.length bs - Z.to_nat (offset ld)))%nat
    with 0%nat by lia.
  rewrite firstn_O. apply app_nil_r.
Qed.

(** Every record of a laid-out buffer lies inside the buffer and points at
    the payload stored under its hash. *)
Lemma placed_record (cl : dict bytes) (lds : list LineData) (bs : bytes) :
  placed cl lds bs ->
  forall ld, In ld lds ->
    0 <= offset ld /\ 0 <= len_ ld /\ offset ld + len_ ld <= len bs /\
    exists line, dict_get cl (hash ld) = Some line /\ len line = len_ ld /\
                 slice bs ld = line.
Proof.
  induction 1 as [|lds bs h line Hp IH Hg]; intros ld Hin; [contradiction|].
  apply in_app_or in Hin as [Hin|[<-|[]]].
  - destruct (IH ld Hin) as (Ho & Hl & Hb & line' & Hg' & Hlen & Hs).
    rewrite len_app. pose proof (len_nonneg line).
    repeat split; try lia. exists line'. repeat split; try assumption.
    rewrite slice_app by lia. exact Hs.
  - simpl. rewrite len_app. pose proof (len_nonneg line).
    pose proof (len_nonneg bs). repeat split; try lia.
    exists line. repeat split; [exact Hg|].
    unfold slice, len; simpl.
    rewrite !Nat2Z.id, skipn_app, skipn_all, Nat.sub_diag. simpl.
    apply firstn_all.
Qed.

(** The buffer is as long as its records say. *)
Lemma placed_len (cl : dict bytes) (lds : list LineData) (bs : bytes) :
  placed cl lds bs -> len bs = fold_right Z.add 0 (map len_ lds).
Proof.
  induction 1 as [|lds bs h line Hp IH Hg]; [reflexivity|].
  rewrite len_app, map_app, fold_right_app. simpl.
  rewrite IH. generalize (map len_ lds) as l. intros l.
  induction l as [|x l IHl]; simpl; lia.
Qed.

Lemma block_ok_len (cl : dict bytes) (b : BlockData) :
  block_ok cl b -> len (block b) = BLOCK_SIZE.
Proof.
  intros (bs & _ & Hle & ->). rewrite len_app.
  unfold len at 2. rewrite repeat_length.
  pose proof (len_nonneg bs). unfold BLOCK_SIZE in *. lia.
Qed.

Lemma dicts_agree_del (cl : dict bytes) (cs : dict Z) (h : Z) :
  dicts_agree cl cs -> dicts_agree cl (dict_del cs h).
Proof.
  intros H k n Hget. destruct (Z.eq_dec h k) as [->|Hne].
  - now rewrite dict_get_del_eq in Hget.
  - rewrite dict_get_del_neq in Hget by exact Hne. now apply H.
Qed.

(** ** The packing loops *)

Lemma Fill_Ok (cl : dict bytes) (b b' : BlockData) :
  Fill b = Ok b' -> placed cl (line_data b) (block b) ->
  line_data b' = line_data b /\ block_ok cl b'.
Proof.
  unfold Fill. intros H Hp. inv_bind H. injection H as <-.
  apply bytes_zero_Ok in E as (Hn & -> & _). cbn [line_data block].
  split; [reflexivity|]. exists (block b).
  split; [exact Hp|]. split; [blia|reflexivity].
Qed.

Lemma getitem_Ok {V : Type} (d : dict V) (k : Z) (v : V) :
  getitem d k = Ok v -> dict_get d k = Some v.
Proof. unfold getitem. destruct (dict_get d k); congruence. Qed.

(** One run of the inner loop that returns: the block gains the records
    [new], is a finished block, and exactly the entries of [new] have left
    the dict. *)
Lemma block_loop_spec (cl : dict bytes) (fuel : nat) :
  forall (cs : dict Z) (b : BlockData) (rem : Z) (cs' : dict Z)
         (b' : BlockData),
    block_loop fuel cl cs b rem = Ok (cs', b') ->
    NoDup (dict_keys cs) -> dicts_agree cl cs ->
    placed cl (line_data b) (block b) -> rem = BLOCK_SIZE - len (block b) ->
    exists new,
      line_data b' = line_data b ++ new /\
      block_ok cl b' /\
      Permutation cs (map entry_of new ++ cs') /\
      NoDup (dict_keys cs') /\ dicts_agree cl cs'.
Proof.
  induction fuel as [|fuel IH]; intros cs b rem cs' b' Hrun Hnd Hag Hp Hrem;
    [discriminate|].
  cbn [block_loop] in Hrun.
  destruct (rem =? 0) eqn:Erem.
  - apply Z.eqb_eq in Erem. injection Hrun as <- <-.
    exists []. rewrite app_nil_r. repeat split; try assumption; [|reflexivity].
    exists (block b). repeat split; [exact Hp|blia|].
    replace (BLOCK_SIZE - len (block b)) with 0 by blia.
    simpl. now rewrite app_nil_r.
  - destruct (GetLineSized cs rem) as [[linehash size] cs1] eqn:EG.
    apply GetLineSized_spec in EG as [Hmax Hsel].
    destruct linehash as [h|].
    + destruct Hsel as (Hget & Hpos & ->). simpl in Hrun.
      destruct (h =? 0) eqn:Eh; simpl in Hrun.
      * inv_bind Hrun. injection Hrun as <- <-.
        destruct (Fill_Ok cl b a E Hp) as [Hld Hok].
        exists []. rewrite app_nil_r. repeat split; assumption || reflexivity.
      * apply Z.eqb_neq in Eh. inv_bind Hrun. rename a into line.
        apply getitem_Ok in E.
        destruct (Hag h size Hget) as (line' & Hline' & Hlen).
        assert (line' = line) by congruence. subst line'.
        apply IH in Hrun as (new & Hld & Hok & Hperm & Hnd' & Hag').
        -- exists (mkLineData h (len (block b)) (len line) :: new).
           repeat split; try assumption.
           ++ rewrite Hld. simpl. now rewrite <- app_assoc.
           ++ simpl. unfold entry_of at 1. simpl. rewrite Hlen.
              rewrite (dict_del_Permutation cs h size Hnd Hget) at 1.
              now constructor.
        -- now apply NoDup_dict_del.
        -- now apply dicts_agree_del.
        -- now apply placed_AddLine.
        -- cbn [AddLine block]. rewrite len_app. blia.
    + destruct Hsel as [-> ->]. inv_bind Hrun. injection Hrun as <- <-.
      destruct (Fill_Ok cl b a E Hp) as [Hld Hok].
      exists []. rewrite app_nil_r. repeat split; assumption || reflexivity.
Qed.

(** A run of the outer loop that returns: every block it added is a finished
    block, and the entries of the dict are exactly the records of the added
    blocks. *)
Lemma blocks_loop_spec (cl : dict bytes) (fuel : nat) :
  forall (cs : dict Z) (blocks out : list BlockData),
    blocks_loop fuel cl cs blocks = Ok out ->
    NoDup (dict_keys cs) -> dicts_agree cl cs ->
    exists added,
      out = blocks ++ added /\
      Forall (block_ok cl) added /\
      Permutation cs (entries_of added).
Proof.
  induction fuel as [|fuel IH]; intros cs blocks out Hrun Hnd Hag;
    [discriminate|].
  cbn [blocks_loop] in Hrun.
  destruct (len cs =? 0) eqn:Elen.
  - injection Hrun as <-. exists []. rewrite app_nil_r.
    repeat split; [constructor|].
    destruct cs; [constructor|]. unfold len in Elen. simpl in Elen. lia.
  - inv_bind Hrun. destruct a as [cs1 b].
    apply block_loop_spec in E as (new & Hld & Hok & Hperm & Hnd' & Hag');
      try assumption; [|constructor|reflexivity].
    apply IH in Hrun as (added & -> & Hall & Hperm'); try assumption.
    exists (b :: added). repeat split.
    + now rewrite <- app_assoc.
    + now constructor.
    + unfold entries_of. simpl. rewrite Hld. simpl.
      rewrite Hperm. now apply Permutation_app_head.
Qed.

(** ** The encoder loop *)

Lemma utf16_units_Ok (c : Z) (us : list Z) :
  utf16_units c = Ok us ->
  (1 <= len us <= 2) /\ Forall (fun u => 0 <= u < 65536) us.
Proof.
  unfold utf16_units.
  destruct (_ || _) eqn:E1.
  - intros [= <-]. split; [unfold len; simpl; lia|].
    constructor; [|constructor].
    apply orb_true_iff in E1 as [E|E]; apply andb_true_iff in E as [Ea Eb];
      apply Z.leb_le in Ea; apply Z.ltb_lt in Eb; lia.
  - clear E1. destruct (_ && _) eqn:E2; [|discriminate].
    intros H. apply Ok_inj in H. subst us. split; [unfold len; simpl; lia|].
    apply andb_true_iff in E2 as [Ea Eb].
    apply Z.leb_le in Ea, Eb.
    assert (0 <= (c - 65536) / 1024 < 1024).
    { split; [apply Z.div_pos; lia|apply Z.div_lt_upper_bound; lia]. }
    pose proof (Z.mod_pos_bound (c - 65536) 1024 ltac:(lia)).
    constructor; [lia|]. constructor; [lia|]. constructor.
Qed.

Lemma len_flat_map_le_bytes (n : nat) (us : list Z) :
  len (flat_map (le_bytes n) us) = Z.of_nat n * len us.
Proof.
  induction us as [|u us IH]; simpl; [unfold len; simpl; lia|].
  rewrite len_app, IH. unfold len. rewrite length_le_bytes. simpl. lia.
Qed.

(** The payload of a text: its UTF-16 code units, each on two little-endian
    bytes, and one 16-bit zero. *)
Lemma encode_line_Ok (line : text) (payload : bytes) :
  encode_line line = Ok payload ->
  exists us,
    utf16_code_units line = Ok us /\
    payload = flat_map (le_bytes 2) us ++ [x00; x00] /\
    len payload = 2 * len us + 2.
Proof.
  unfold encode_line, encode_utf16le. intros H.
  inv_bind H. inv_bind E. apply Ok_inj in E. subst a.
  change (pack fmt_h 0) with (Ok [x00; x00]) in H. cbn [bind] in H.
  apply Ok_inj in H. subst payload. exists a0.
  split; [reflexivity|]. split; [reflexivity|].
  rewrite len_app, len_flat_map_le_bytes. unfold len. simpl. lia.
Qed.

Lemma encoded_nil : encoded [] [].
Proof.
  split; [constructor|]. split; intros h n H; discriminate H.
Qed.

Lemma encoded_set (cl : dict bytes) (cs : dict Z) (name : text) (k : Z)
    (line : text) (payload : bytes) :
  encoded cl cs -> name_hash name = Ok k -> encode_line line = Ok payload ->
  encoded (dict_set cl k payload) (dict_set cs k (len payload)).
Proof.
  intros (Hnd & Hag & Hrange) Hk Henc.
  apply encode_line_Ok in Henc as (us & _ & _ & Hlen).
  split; [now apply NoDup_dict_set|]. split.
  - intros h n Hget. destruct (Z.eq_dec k h) as [<-|Hne].
    + rewrite dict_get_set_eq in Hget. injection Hget as <-.
      exists payload. now rewrite dict_get_set_eq.
    + rewrite dict_get_set_neq in Hget by exact Hne.
      rewrite dict_get_set_neq by exact Hne. now apply Hag.
  - intros h n Hget. destruct (Z.eq_dec k h) as [<-|Hne].
    + rewrite dict_get_set_eq in Hget. injection Hget as <-.
      split; [apply (name_hash_range name), Hk|].
      pose proof (len_nonneg us). lia.
    + rewrite dict_get_set_neq in Hget by exact Hne. now apply Hrange.
Qed.

Lemma encode_lines_encoded (lines : lines_t) :
  forall cl0 cs0 cl cs,
    encode_lines lines cl0 cs0 = Ok (cl, cs) ->
    encoded cl0 cs0 -> encoded cl cs.
Proof.
  induction lines as [|[name line] lines IH]; intros cl0 cs0 cl cs Hrun Hwf.
  - injection Hrun as <- <-. exact Hwf.
  - cbn [encode_lines] in Hrun. inv_bind Hrun. inv_bind Hrun.
    eapply IH; [exact Hrun|].
    now apply encoded_set with (name := name) (line := line).
Qed.

(** Turns of the loop on names of other hashes leave the entry of [h] alone. *)
Lemma encode_lines_other (lines : lines_t) (h : Z) :
  forall cl0 cs0 cl cs,
    encode_lines lines cl0 cs0 = Ok (cl, cs) ->
    (forall name line, In (name, line) lines -> name_hash name <> Ok h) ->
    dict_get cl h = dict_get cl0 h /\ dict_get cs h = dict_get cs0 h.
Proof.
  induction lines as [|[name line] lines IH]; intros cl0 cs0 cl cs Hrun Hoth.
  - injection Hrun as <- <-. now split.
  - cbn [encode_lines] in Hrun. inv_bind Hrun. inv_bind Hrun.
    apply IH in Hrun as [-> ->].
    + assert (a <> h).
      { intros ->. apply (Hoth name line); [now left|exact E]. }
      now rewrite !dict_get_set_neq.
    + intros n l Hin. apply (Hoth n l). now right.
Qed.

Lemma encode_lines_app (pre post : lines_t) :
  forall cl0 cs0 r,
    encode_lines (pre ++ post) cl0 cs0 = Ok r ->
    exists cl1 cs1,
      encode_lines pre cl0 cs0 = Ok (cl1, cs1) /\
      encode_lines post cl1 cs1 = Ok r.
Proof.
  induction pre as [|[name line] pre IH]; intros cl0 cs0 r Hrun.
  - now exists cl0, cs0.
  - cbn [app encode_lines] in *. inv_bind Hrun. inv_bind Hrun.
    cbn [bind]. now apply IH.
Qed.

(** When the hashes of the names are pairwise distinct, the dict of lengths
    gets one key per input pair, in input order. *)
Lemma encode_lines_keys (lines : lines_t) :
  forall cl0 cs0 cl cs,
    encode_lines lines cl0 cs0 = Ok (cl, cs) ->
    NoDup (map Ok (dict_keys cs0) ++
           map (fun p => name_hash (fst p)) lines) ->
    map Ok (dict_keys cs)
    = map Ok (dict_keys cs0) ++ map (fun p => name_hash (fst p)) lines.
Proof.
  induction lines as [|[name line] lines IH]; intros cl0 cs0 cl cs Hrun Hnd.
  - injection Hrun as <- <-. simpl. now rewrite app_nil_r.
  - cbn [encode_lines] in Hrun. inv_bind Hrun. inv_bind Hrun.
    cbn [map fst] in *. rewrite E in *.
    assert (Hk : dict_keys (dict_set cs0 a (len a0)) = dict_keys cs0 ++ [a]).
    { rewrite dict_keys_set.
      destruct (existsb _ _) eqn:Ex; [|reflexivity].
      apply existsb_exists in Ex as (x & Hx & Heq).
      apply Z.eqb_eq in Heq. subst x.
      apply NoDup_remove_2 in Hnd. exfalso. apply Hnd.
      apply in_or_app. left. now apply in_map. }
    apply IH in Hrun.
    + rewrite Hrun, Hk, map_app, <- app_assoc. reflexivity.
    + rewrite Hk, map_app, <- app_assoc. exact Hnd.
Qed.

(** In general the dict of lengths has at most one key per input pair. *)
Lemma encode_lines_len_le (lines : lines_t) :
  forall cl0 cs0 cl cs,
    encode_lines lines cl0 cs0 = Ok (cl, cs) ->
    len cs <= len cs0 + len lines.
Proof.
  induction lines as [|[name line] lines IH]; intros cl0 cs0 cl cs Hrun.
  - injection Hrun as <- <-. unfold len. simpl. lia.
  - cbn [encode_lines] in Hrun. inv_bind Hrun. inv_bind Hrun.
    apply IH in Hrun.
    assert (len (dict_set cs0 a (len a0)) <= len cs0 + 1).
    { unfold len at 1 3. rewrite <- (length_map fst), <- (length_map fst cs0).
      fold (dict_keys (dict_set cs0 a (len a0))).
      fold (dict_keys cs0). rewrite dict_keys_set.
      destruct (existsb _ _); [lia|]. rewrite length_app. simpl. lia. }
    unfold len in *. simpl. lia.
Qed.

(** ** What a returning [_createblocks] has built *)

Lemma createblocks_spec (fuel : nat) (lines : lines_t)
    (blocks : list BlockData) :
  _createblocks fuel lines = Ok blocks ->
  exists cl cs,
    encode_lines lines [] [] = Ok (cl, cs) /\ encoded cl cs /\
    Forall (block_ok cl) blocks /\ Permutation cs (entries_of blocks).
Proof.
  unfold _createblocks. intros H. inv_bind H. destruct a as [cl cs].
  pose proof (encode_lines_encoded _ _ _ _ _ E encoded_nil) as Hwf.
  pose proof Hwf as (Hnd & Hag & Hr).
  apply blocks_loop_spec in H as (added & -> & Hall & Hperm); try assumption.
  exists cl, cs. cbn [app].
  split; [reflexivity|]. split; [exact Hwf|]. split; assumption.
Qed.

(** ** Fuel

  A run that ends with some fuel ends the same way with more. *)

Lemma block_loop_more_fuel (cl : dict bytes) (fuel : nat) :
  forall cs b rem k,
    block_loop fuel cl cs b rem <> OutOfFuel ->
    block_loop (fuel + k) cl cs b rem = block_loop fuel cl cs b rem.
Proof.
  induction fuel as [|fuel IH]; intros cs b rem k Hfin;
    [now elim Hfin|].
  cbn [block_loop Nat.add] in *.
  destruct (rem =? 0); [reflexivity|].
  destruct (GetLineSized cs rem) as [[linehash size] cs1].
  destruct linehash as [h|]; [|reflexivity].
  destruct (truthy (Some h)); [|reflexivity].
  destruct (getitem cl h) as [line| |]; cbn [bind] in *; try reflexivity.
  now apply IH.
Qed.

Lemma blocks_loop_more_fuel (cl : dict bytes) (fuel : nat) :
  forall cs blocks k,
    blocks_loop fuel cl cs blocks <> OutOfFuel ->
    blocks_loop (fuel + k) cl cs blocks = blocks_loop fuel cl cs blocks.
Proof.
  induction fuel as [|fuel IH]; intros cs blocks k Hfin;
    [now elim Hfin|].
  cbn [blocks_loop Nat.add] in *.
  destruct (len cs =? 0); [reflexivity|].
  change (S (fuel + k)) with (S fuel + k)%nat.
  destruct (block_loop (S fuel) cl cs BlockData_init 8192)
    as [[cs1 b]| |] eqn:E.
  - rewrite block_loop_more_fuel, E by (rewrite E; discriminate).
    cbn [bind] in *. now apply IH.
  - rewrite block_loop_more_fuel, E by (rewrite E; discriminate).
    reflexivity.
  - now elim Hfin.
Qed.

Lemma createblocks_more_fuel (fuel k : nat) (lines : lines_t) :
  _createblocks fuel lines <> OutOfFuel ->
  _createblocks (fuel + k) lines = _createblocks fuel lines.
Proof.
  unfold _createblocks.
  destruct (encode_lines lines [] []) as [[cl cs]| |]; cbn [bind];
    try reflexivity.
  apply blocks_loop_more_fuel.
Qed.

Lemma serialize_more_fuel (fuel k : nat) (lines : lines_t) :
  serialize fuel lines <> OutOfFuel ->
  serialize (fuel + k) lines = serialize fuel lines.
Proof.
  unfold serialize. intros Hfin.
  rewrite createblocks_more_fuel; [reflexivity|].
  intros E. rewrite E in Hfin. now apply Hfin.
Qed.

(** ** The directory *)

Lemma directory_lines_Ok (i : Z) (lds : list LineData) :
  forall directory out,
    directory_lines i lds directory = Ok out ->
    out = directory ++ flat_map (directory_record i) lds /\
    Forall (fun ld => packable (i, ld)) lds.
Proof.
  induction lds as [|ld lds IH]; intros directory out H.
  - apply Ok_inj in H. subst out. cbn [flat_map]. rewrite app_nil_r.
    split; [reflexivity|constructor].
  - cbn [directory_lines] in H.
    inv_bind H. inv_bind H. inv_bind H. inv_bind H.
    apply pack_Ok in E as [R1 ->], E0 as [R2 ->], E1 as [R3 ->],
      E2 as [R4 ->].
    apply IH in H as [-> Hall]. split.
    + cbn [flat_map]. unfold directory_record.
      cbn [fmt_size]. now rewrite <- !app_assoc.
    + constructor; [|exact Hall].
      unfold packable. cbn [fst snd fmt_min fmt_max] in *. lia.
Qed.

Lemma directory_blocks_Ok (blocks : list BlockData) :
  forall i directory out,
    directory_blocks i blocks directory = Ok out ->
    out = directory ++ flat_map record_bytes (indexed_records i blocks) /\
    Forall packable (indexed_records i blocks).
Proof.
  induction blocks as [|b blocks IH]; intros i directory out H.
  - apply Ok_inj in H. subst out. cbn. rewrite app_nil_r.
    split; [reflexivity|constructor].
  - cbn [directory_blocks] in H. inv_bind H.
    apply directory_lines_Ok in E as [-> Hlds].
    apply IH in H as [-> Hrest]. cbn [indexed_records]. split.
    + rewrite flat_map_app, <- app_assoc. do 2 f_equal.
      clear. induction (line_data b) as [|ld lds IHl]; [reflexivity|].
      cbn [map flat_map]. now rewrite IHl.
    + apply Forall_app. split; [|exact Hrest].
      clear -Hlds. induction Hlds; cbn [map]; constructor; assumption.
Qed.

(** A record of [indexed_records] belongs to the block whose index it
    carries. *)
Lemma indexed_records_In (blocks : list BlockData) :
  forall i j ld,
    In (j, ld) (indexed_records i blocks) ->
    i <= j /\
    exists b, nth_error blocks (Z.to_nat (j - i)) = Some b /\
              In ld (line_data b).
Proof.
  induction blocks as [|b blocks IH]; intros i j ld Hin; [contradiction|].
  cbn [indexed_records] in Hin. apply in_app_or in Hin as [Hin|Hin].
  - apply in_map_iff in Hin as (ld' & [= <- <-] & Hin).
    split; [lia|]. exists b. rewrite Z.sub_diag. now split.
  - apply IH in Hin as (Hle & b' & Hnth & Hin). split; [lia|].
    exists b'. split; [|exact Hin].
    replace (Z.to_nat (j - i)) with (S (Z.to_nat (j - (i + 1)))) by lia.
    exact Hnth.
Qed.

Lemma field_le_bytes (n : nat) (z : Z) (pre post : bytes) :
  field (pre ++ le_bytes n z ++ post) (List.length pre) n = le_bytes n z.
Proof.
  unfold field. rewrite skipn_app, skipn_all, Nat.sub_diag. cbn [skipn app].
  rewrite firstn_app, length_le_bytes, Nat.sub_diag, firstn_O, app_nil_r.
  rewrite <- (length_le_bytes n z) at 1. apply firstn_all.
Qed.

(** The four fields of a record are the little-endian images of the four
    values. *)
Lemma directory_record_fields (i : Z) (ld : LineData) :
  packable (i, ld) ->
  let r := directory_record i ld in
  len r = 12 /\
  le_decode (field r 0 4) = hash ld /\
  le_decode (field r 4 4) = i /\
  le_decode (field r 8 2) = offset ld /\
  le_decode (field r 10 2) = len_ ld.
Proof.
  intros (Hh & Hi & Ho & Hl). cbn [fst snd] in *. cbv zeta.
  unfold directory_record. split.
  { unfold len. rewrite !length_app, !length_le_bytes. reflexivity. }
  set (H4 := le_bytes 4 (hash ld)). set (I4 := le_bytes 4 i).
  set (O2 := le_bytes 2 (offset ld)). set (L2 := le_bytes 2 (len_ ld)).
  assert (E4 : List.length H4 = 4%nat) by apply length_le_bytes.
  assert (E8 : List.length (H4 ++ I4) = 8%nat)
    by (rewrite length_app; unfold H4, I4; now rewrite !length_le_bytes).
  assert (E10 : List.length (H4 ++ I4 ++ O2) = 10%nat)
    by (rewrite !length_app; unfold H4, I4, O2; now rewrite !length_le_bytes).
  pose proof (field_le_bytes 4 (hash ld) [] (I4 ++ O2 ++ L2)) as F1.
  pose proof (field_le_bytes 4 i H4 (O2 ++ L2)) as F2.
  pose proof (field_le_bytes 2 (offset ld) (H4 ++ I4) L2) as F3.
  pose proof (field_le_bytes 2 (len_ ld) (H4 ++ I4 ++ O2) []) as F4.
  rewrite E4 in F2. rewrite E8, <- app_assoc in F3.
  rewrite E10, app_nil_r, <- !app_assoc in F4.
  cbn [app List.length] in F1. fold H4 I4 O2 L2 in F1, F2, F3, F4.
  rewrite F1, F2, F3, F4. unfold H4, I4, O2, L2.
  repeat split; apply le_decode_le_bytes_small; assumption.
Qed.

Lemma directory_lines_packable (i : Z) (lds : list LineData) :
  forall directory,
    Forall (fun ld => packable (i, ld)) lds ->
    directory_lines i lds directory =
    Ok (directory ++ flat_map (directory_record i) lds).
Proof.
  induction lds as [|ld lds IH]; intros directory Hall.
  - cbn. now rewrite app_nil_r.
  - inversion Hall as [|? ? (Hh & Hi & Ho & Hl) Hall']; subst.
    cbn [fst snd] in *. cbn [directory_lines].
    rewrite (pack_in_range fmt_I (hash ld)) by (cbn; lia).
    rewrite (pack_in_range fmt_I i) by (cbn; lia).
    rewrite (pack_in_range fmt_H (offset ld)) by (cbn; lia).
    rewrite (pack_in_range fmt_H (len_ ld)) by (cbn; lia).
    cbn [bind fmt_size]. rewrite IH by exact Hall'.
    cbn [flat_map]. unfold directory_record. now rewrite <- !app_assoc.
Qed.

Lemma directory_blocks_packable (blocks : list BlockData) :
  forall i directory,
    Forall packable (indexed_records i blocks) ->
    directory_blocks i blocks directory =
    Ok (directory ++ flat_map record_bytes (indexed_records i blocks)).
Proof.
  induction blocks as [|b blocks IH]; intros i directory Hall.
  - cbn. now rewrite app_nil_r.
  - cbn [indexed_records] in Hall. apply Forall_app in Hall as [Hb Hrest].
    cbn [directory_blocks]. rewrite directory_lines_packable.
    + cbn [bind]. rewrite IH by exact Hrest.
      cbn [indexed_records]. rewrite flat_map_app, <- app_assoc.
      do 3 f_equal. clear.
      induction (line_data b) as [|ld lds IHl]; [reflexivity|].
      cbn [map flat_map]. now rewrite IHl.
    + clear -Hb. induction (line_data b) as [|ld lds IHl]; [constructor|].
      cbn [map] in Hb. inversion Hb; subst. constructor; auto.
Qed.

(** [_createdirectory] returns whenever every value fits its field. *)
Lemma createdirectory_packable (blocks : list BlockData) :
  Forall packable (indexed_records 0 blocks) ->
  _createdirectory blocks = Ok (flat_map record_bytes (indexed_records 0 blocks)).
Proof.
  intros H. unfold _createdirectory.
  now rewrite directory_blocks_packable.
Qed.

Lemma len_flat_map_record_bytes (recs : list (Z * LineData)) :
  len (flat_map record_bytes recs) = 12 * len recs.
Proof.
  induction recs as [|[i ld] recs IH]; [reflexivity|].
  cbn [flat_map]. rewrite len_app, IH.
  unfold record_bytes, directory_record, len. cbn [fst snd].
  rewrite !length_app, !length_le_bytes. cbn [List.length]. lia.
Qed.

Lemma len_indexed_records (blocks : list BlockData) (i : Z) :
  len (indexed_records i blocks) = len (entries_of blocks).
Proof.
  revert i. induction blocks as [|b blocks IH]; intros i; [reflexivity|].
  cbn [indexed_records entries_of flat_map]. rewrite !len_app.
  fold (entries_of blocks). rewrite IH. unfold len.
  now rewrite !length_map.
Qed.

(** The records of a list of blocks built by [_createblocks] all fit their
    fields, as long as the block indices do. *)
Lemma createblocks_packable (fuel : nat) (lines : lines_t)
    (blocks : list BlockData) :
  _createblocks fuel lines = Ok blocks -> len blocks <= 2 ^ 32 ->
  Forall packable (indexed_records 0 blocks).
Proof.
  intros Hrun Hlen.
  apply createblocks_spec in Hrun as (cl & cs & _ & Hwf & Hall & Hperm).
  destruct Hwf as (Hnd & _ & Hrange).
  apply Forall_forall. intros [j ld] Hin.
  apply indexed_records_In in Hin as (Hj & b & Hnth & Hld).
  rewrite Z.sub_0_r in Hnth.
  assert (Hjlt : j < len blocks).
  { assert (Z.to_nat j < List.length blocks)%nat
      by (apply nth_error_Some; congruence).
    unfold len. lia. }
  assert (Hb : In b blocks) by (eapply nth_error_In, Hnth).
  assert (Hent : In (entry_of ld) cs).
  { eapply Permutation_in; [symmetry; exact Hperm|].
    unfold entries_of. apply in_flat_map. exists b. split; [exact Hb|].
    now apply in_map. }
  apply In_dict_get in Hent; [|exact Hnd].
  apply Hrange in Hent as [Hh _].
  rewrite Forall_forall in Hall.
  destruct (Hall b Hb) as (bs & Hp & Hle & _).
  destruct (placed_record cl _ _ Hp ld Hld) as (Ho & Hl & Hsum & _).
  unfold packable. cbn [fst snd]. repeat split; try blia; lia.
Qed.

(** ** The assembled file *)

Lemma len_header (nblocks nentries block0 : Z) :
  len (header nblocks nentries block0) = 24.
Proof.
  unfold header, len. rewrite !length_app, !length_le_bytes. reflexivity.
Qed.

Lemma fold_left_blocks (blocks : list BlockData) (file : bytes) :
  fold_left (fun file b => file ++ block b) blocks file =
  file ++ List.concat (map block blocks).
Proof.
  revert file. induction blocks as [|b blocks IH]; intros file; cbn.
  - now rewrite app_nil_r.
  - now rewrite IH, <- app_assoc.
Qed.

Lemma block0_offset_spec (raw : Z) :
  0 <= raw ->
  let off := block0_offset raw in
  0 < off /\ off mod 512 = 0 /\ raw < off /\ off <= raw + 512.
Proof.
  intros Hraw. cbv zeta. unfold block0_offset.
  pose proof (Z.div_mod raw 512 ltac:(lia)) as Hdm.
  pose proof (Z.mod_pos_bound raw 512 ltac:(lia)) as Hm.
  assert (0 <= raw / 512) by (apply Z.div_pos; lia).
  repeat split; try lia. apply Z.mod_mul. lia.
Qed.

(** On an aligned [raw] the offset is the next multiple, 512 further. *)
Lemma block0_offset_aligned (raw : Z) :
  raw mod 512 = 0 -> block0_offset raw = raw + 512.
Proof.
  intros H. unfold block0_offset.
  pose proof (Z.div_mod raw 512 ltac:(lia)). lia.
Qed.

(** A run of [serialize] that returns, taken apart. *)
Lemma serialize_Ok (fuel : nat) (lines : lines_t) (file : bytes) :
  serialize fuel lines = Ok file ->
  exists blocks directory,
    _createblocks fuel lines = Ok blocks /\
    _createdirectory blocks = Ok directory /\
    len blocks <= 2147483647 /\ len lines <= 2147483647 /\
    block0_offset (24 + len directory) <= 2147483647 /\
    file =
      header (len blocks) (len lines) (block0_offset (24 + len directory)) ++
      directory ++
      repeat x00 (Z.to_nat (block0_offset (24 + len directory)
                            - (24 + len directory))) ++
      List.concat (map block blocks).
Proof.
  unfold serialize. intros H.
  inv_bind H. rename a into blocks. inv_bind H. rename a into directory.
  inv_bind H. inv_bind H. inv_bind H. inv_bind H.
  apply pack_Ok in E1 as [_ ->], E2 as [Rb ->], E3 as [_ ->], E4 as [Rl ->].
  cbn [fmt_size fmt_min fmt_max] in *.
  match type of H with
  | context [len ?hd + (len directory + 4)] =>
      assert (Hcur : len hd + (len directory + 4) = 24 + len directory)
        by (unfold len; rewrite !length_app, !length_le_bytes;
            cbn [List.length MAGIC_KEYWORD]; lia);
      rewrite Hcur in H
  end.
  fold (block0_offset (24 + len directory)) in H.
  inv_bind H. inv_bind H.
  apply pack_Ok in E1 as [Ro ->]. apply bytes_zero_Ok in E2 as (_ & -> & _).
  apply Ok_inj in H. subst file.
  exists blocks, directory. cbn [fmt_size fmt_min fmt_max] in *.
  split; [reflexivity|]. split; [exact E0|].
  repeat split; try lia.
  rewrite fold_left_blocks. unfold header. cbn [app].
  now rewrite <- !app_assoc.
Qed.

(** * The output file *)

(** C10.  For the empty input, [serialize] returns exactly 512 bytes: the
    magic "VCCD", version 1, block count 0, block size 8192, directory entry
    count 0 and first-block offset 512 (24 header bytes in all), then
    512 - 24 = 488 zero bytes, and no block payload.  ([S fuel]: the model
    needs one unit of fuel to test the loop condition once.) *)
Theorem serialize_empty (fuel : nat) :
  serialize (S fuel) [] =
    Ok ([x56; x43; x43; x44] ++ [x01; x00; x00; x00] ++ [x00; x00; x00; x00] ++
        [x00; x20; x00; x00] ++ [x00; x00; x00; x00] ++ [x00; x02; x00; x00] ++
        repeat x00 488)
  /\ [x56; x43; x43; x44] ++ [x01; x00; x00; x00] ++ [x00; x00; x00; x00] ++
     [x00; x20; x00; x00] ++ [x00; x00; x00; x00] ++ [x00; x02; x00; x00]
     = header 0 0 512
  /\ le_decode [x01; x00; x00; x00] = 1
  /\ le_decode [x00; x20; x00; x00] = 8192
  /\ le_decode [x00; x02; x00; x00] = 512
  /\ len (header 0 0 512 ++ repeat x00 488) = 512.
Proof.
  repeat split; reflexivity.
Qed.

Lemma field_header_block0 (nb ne off : Z) (rest : bytes) :
  field (header nb ne off ++ rest) 20 4 = le_bytes 4 off.
Proof.
  unfold header.
  pose proof (field_le_bytes 4 off
                (MAGIC_KEYWORD ++ le_bytes 4 VERSION ++ le_bytes 4 nb ++
                 le_bytes 4 BLOCK_SIZE ++ le_bytes 4 ne) rest) as F.
  rewrite !length_app, !length_le_bytes in F. cbn [List.length Nat.add] in F.
  rewrite <- F; f_equal; now rewrite <- !app_assoc.
Qed.

Lemma field_header_entries (nb ne off : Z) (rest : bytes) :
  field (header nb ne off ++ rest) 16 4 = le_bytes 4 ne.
Proof.
  unfold header.
  pose proof (field_le_bytes 4 ne
                (MAGIC_KEYWORD ++ le_bytes 4 VERSION ++ le_bytes 4 nb ++
                 le_bytes 4 BLOCK_SIZE) (le_bytes 4 off ++ rest)) as F.
  rewrite !length_app, !length_le_bytes in F. cbn [List.length Nat.add] in F.
  rewrite <- F; f_equal; now rewrite <- !app_assoc.
Qed.

Lemma len_concat_blocks (cl : dict bytes) (blocks : list BlockData) :
  Forall (block_ok cl) blocks ->
  len (List.concat (map block blocks)) = BLOCK_SIZE * len blocks.
Proof.
  induction 1 as [|b blocks Hb Hall IH]; [reflexivity|].
  cbn [map List.concat]. rewrite len_app, IH, (block_ok_len cl b Hb).
  unfold len. cbn [List.length]. lia.
Qed.

(** C6.  Whenever [serialize] returns a file, the first-block offset written
    at bytes 20..23 of the header is [(raw / 512 + 1) * 512] for
    [raw = 24 + len directory]: a positive multiple of 512, strictly greater
    than [raw] (a whole 512 more when [raw] is a multiple of 512), and the
    header, the directory and the zero padding in front of the block
    payloads are exactly that many bytes. *)
Theorem serialize_block0_offset (fuel : nat) (lines : lines_t) (file : bytes) :
  serialize fuel lines = Ok file ->
  exists blocks directory,
    _createblocks fuel lines = Ok blocks /\
    _createdirectory blocks = Ok directory /\
    let raw := 24 + len directory in
    let off := (raw / 512 + 1) * 512 in
    field file 20 4 = le_bytes 4 off /\
    le_decode (field file 20 4) = off /\
    0 < off /\ off mod 512 = 0 /\ raw < off /\
    (raw mod 512 = 0 -> off = raw + 512) /\
    exists pad,
      file = (header (len blocks) (len lines) off ++ directory ++ pad) ++
             List.concat (map block blocks) /\
      pad = repeat x00 (Z.to_nat (off - raw)) /\
      len (header (len blocks) (len lines) off ++ directory ++ pad) = off.
Proof.
  intros H.
  apply serialize_Ok in H
    as (blocks & directory & Hb & Hd & Hnb & Hnl & Hoff & ->).
  exists blocks, directory. split; [exact Hb|]. split; [exact Hd|].
  cbv zeta. fold (block0_offset (24 + len directory)).
  pose proof (len_nonneg directory) as Hdir.
  destruct (block0_offset_spec (24 + len directory) ltac:(lia))
    as (Hpos & Hmod & Hlt & _).
  set (off := block0_offset (24 + len directory)) in *.
  split; [apply field_header_block0|].
  split; [rewrite field_header_block0; apply le_decode_le_bytes_small;
          change (256 ^ Z.of_nat 4) with 4294967296; lia|].
  do 3 (split; [assumption|]).
  split; [apply block0_offset_aligned|].
  exists (repeat x00 (Z.to_nat (off - (24 + len directory)))).
  split; [now rewrite <- !app_assoc|]. split; [reflexivity|].
  rewrite !len_app, len_header. unfold len at 2. rewrite repeat_length. lia.
Qed.

(** C7.  Whenever [serialize] returns a file, every block buffer in it is
    exactly 8192 bytes long, the payloads written into it followed by zeros
    only, and the file is as long as the first-block offset plus 8192 times
    the number of blocks. *)
Theorem serialize_blocks_shape (fuel : nat) (lines : lines_t) (file : bytes) :
  serialize fuel lines = Ok file ->
  exists blocks directory cl cs,
    _createblocks fuel lines = Ok blocks /\
    _createdirectory blocks = Ok directory /\
    encode_lines lines [] [] = Ok (cl, cs) /\
    let off := block0_offset (24 + len directory) in
    skipn (Z.to_nat off) file = List.concat (map block blocks) /\
    Forall (fun b =>
              len (block b) = 8192 /\
              exists used,
                placed cl (line_data b) used /\
                len used = fold_right Z.add 0 (map len_ (line_data b)) /\
                len used <= 8192 /\
                block b = used ++ repeat x00 (Z.to_nat (8192 - len used)))
           blocks /\
    len file = off + 8192 * len blocks.
Proof.
  intros H.
  apply serialize_Ok in H
    as (blocks & directory & Hb & Hd & Hnb & Hnl & Hoff & ->).
  destruct (createblocks_spec _ _ _ Hb) as (cl & cs & Henc & _ & Hall & _).
  exists blocks, directory, cl, cs.
  split; [exact Hb|]. split; [exact Hd|]. split; [exact Henc|]. cbv zeta.
  pose proof (len_nonneg directory) as Hdir.
  destruct (block0_offset_spec (24 + len directory) ltac:(lia))
    as (Hpos & Hmod & Hlt & _).
  set (off := block0_offset (24 + len directory)) in *.
  set (pad := repeat x00 (Z.to_nat (off - (24 + len directory)))).
  assert (Hpre : len (header (len blocks) (len lines) off ++ directory ++ pad)
                 = off).
  { rewrite !len_app, len_header. unfold pad, len at 2.
    rewrite repeat_length. lia. }
  assert (Hfile : header (len blocks) (len lines) off ++ directory ++ pad ++
                  List.concat (map block blocks)
                  = (header (len blocks) (len lines) off ++ directory ++ pad)
                    ++ List.concat (map block blocks))
    by now rewrite <- !app_assoc.
  rewrite Hfile. clear Hfile.
  split; [|split].
  - unfold len at 1 in Hpre.
    rewrite skipn_app, skipn_all2 by lia.
    replace (Z.to_nat off - _)%nat with 0%nat by lia.
    reflexivity.
  - eapply Forall_impl; [|exact Hall].
    intros b Hok. split; [exact (block_ok_len cl b Hok)|].
    destruct Hok as (used & Hp & Hle & Hblk). exists used.
    split; [exact Hp|]. split; [exact (placed_len _ _ _ Hp)|].
    split; [exact Hle|exact Hblk].
  - rewrite len_app, Hpre, (len_concat_blocks cl blocks Hall). reflexivity.
Qed.

(** Every payload of the working set is the payload of an input pair, stored
    under the hash of its name. *)
Lemma encode_lines_payloads (lines : lines_t) :
  forall cl0 cs0 cl cs h payload,
    encode_lines lines cl0 cs0 = Ok (cl, cs) ->
    dict_get cl h = Some payload ->
    dict_get cl0 h = Some payload \/
    exists name line,
      In (name, line) lines /\ name_hash name = Ok h /\
      encode_line line = Ok payload.
Proof.
  induction lines as [|[name line] lines IH];
    intros cl0 cs0 cl cs h payload Hrun Hget.
  - injection Hrun as <- <-. now left.
  - cbn [encode_lines] in Hrun. inv_bind Hrun. inv_bind Hrun.
    destruct (IH _ _ _ _ _ _ Hrun Hget) as [Hold|(n & l & Hin & Hh & He)].
    + destruct (Z.eq_dec a h) as [<-|Hne].
      * rewrite dict_get_set_eq in Hold. injection Hold as <-.
        right. exists name, line. repeat split; [now left|exact E|exact E0].
      * rewrite dict_get_set_neq in Hold by exact Hne. now left.
    + right. exists n, l. repeat split; [now right|exact Hh|exact He].
Qed.

(** A record of a finished block lies inside the 8192 bytes and points at the
    payload stored under its hash. *)
Lemma block_ok_record (cl : dict bytes) (b : BlockData) (ld : LineData) :
  block_ok cl b -> In ld (line_data b) ->
  0 <= offset ld /\ 0 <= len_ ld /\ offset ld + len_ ld <= BLOCK_SIZE /\
  exists payload,
    dict_get cl (hash ld) = Some payload /\ len payload = len_ ld /\
    slice (block b) ld = payload.
Proof.
  intros (used & Hp & Hle & Hblk) Hin.
  destruct (placed_record cl _ _ Hp ld Hin)
    as (Ho & Hl & Hsum & payload & Hget & Hlen & Hslice).
  repeat split; try lia. exists payload. repeat split; try assumption.
  rewrite Hblk, slice_app by assumption. exact Hslice.
Qed.

(** C8.  The directory built for the blocks of [_createblocks] is the
    concatenation of one 12-byte record per placement record, in block order
    and then placement order.  A record holds the hash on 4 bytes, the index
    of the owning block on 4 bytes, the offset of the payload in the block on
    2 bytes and the length of the payload (terminator included) on 2 bytes,
    each little-endian. *)
Theorem createdirectory_records (fuel : nat) (lines : lines_t)
    (blocks : list BlockData) (directory : bytes) :
  _createblocks fuel lines = Ok blocks ->
  _createdirectory blocks = Ok directory ->
  directory = flat_map record_bytes (indexed_records 0 blocks) /\
  len directory = 12 * len (indexed_records 0 blocks) /\
  forall i ld, In (i, ld) (indexed_records 0 blocks) ->
    let r := record_bytes (i, ld) in
    r = le_bytes 4 (hash ld) ++ le_bytes 4 i ++
        le_bytes 2 (offset ld) ++ le_bytes 2 (len_ ld) /\
    len r = 12 /\
    le_decode (field r 0 4) = hash ld /\
    le_decode (field r 4 4) = i /\
    le_decode (field r 8 2) = offset ld /\
    le_decode (field r 10 2) = len_ ld /\
    exists b name line us,
      nth_error blocks (Z.to_nat i) = Some b /\ In ld (line_data b) /\
      In (name, line) lines /\ name_hash name = Ok (hash ld) /\
      utf16_code_units line = Ok us /\
      slice (block b) ld = flat_map (le_bytes 2) us ++ [x00; x00] /\
      len_ ld = 2 * len us + 2.
Proof.
  intros Hb Hd. unfold _createdirectory in Hd.
  apply directory_blocks_Ok in Hd as [-> Hpack]. cbn [app].
  split; [reflexivity|]. split; [apply len_flat_map_record_bytes|].
  intros i ld Hin. cbv zeta.
  rewrite Forall_forall in Hpack. specialize (Hpack _ Hin).
  destruct (directory_record_fields i ld Hpack) as (L & F1 & F2 & F3 & F4).
  split; [reflexivity|]. unfold record_bytes. cbn [fst snd].
  do 5 (split; [assumption|]).
  apply indexed_records_In in Hin as (Hi & b & Hnth & Hld).
  rewrite Z.sub_0_r in Hnth.
  apply createblocks_spec in Hb as (cl & cs & Henc & _ & Hall & _).
  rewrite Forall_forall in Hall.
  assert (Hok : block_ok cl b) by (apply Hall; eapply nth_error_In, Hnth).
  destruct (block_ok_record cl b ld Hok Hld)
    as (_ & _ & _ & payload & Hget & Hlen & Hslice).
  destruct (encode_lines_payloads _ _ _ _ _ _ _ Henc Hget)
    as [Hnil|(name & line & Hinl & Hh & He)]; [discriminate Hnil|].
  apply encode_line_Ok in He as (us & Hus & Hpay & Hplen).
  exists b, name, line, us. repeat split; try assumption; congruence.
Qed.

Lemma scenario_B_createblocks : _createblocks 5 scenario_B = Ok scenario_B_blocks.
Proof. vm_compute. reflexivity. Qed.

Lemma scenario_B_createdirectory :
  _createdirectory scenario_B_blocks = Ok scenario_B_directory.
Proof. vm_compute. reflexivity. Qed.

Lemma scenario_B_serialize : serialize 5 scenario_B = Ok scenario_B_file.
Proof. vm_compute. reflexivity. Qed.

Lemma serialize_block0_offset_witness :
  serialize 5 scenario_B = Ok scenario_B_file /\
  exists blocks directory,
    _createblocks 5 scenario_B = Ok blocks /\
    _createdirectory blocks = Ok directory /\
    let raw := 24 + len directory in
    let off := (raw / 512 + 1) * 512 in
    field scenario_B_file 20 4 = le_bytes 4 off /\
    le_decode (field scenario_B_file 20 4) = off /\
    0 < off /\ off mod 512 = 0 /\ raw < off /\
    (raw mod 512 = 0 -> off = raw + 512) /\
    exists pad,
      scenario_B_file =
        (header (len blocks) (len scenario_B) off ++ directory ++ pad) ++
        List.concat (map block blocks) /\
      pad = repeat x00 (Z.to_nat (off - raw)) /\
      len (header (len blocks) (len scenario_B) off ++ directory ++ pad) = off.
Proof.
  split; [vm_compute; reflexivity|].
  apply (serialize_block0_offset 5 scenario_B scenario_B_file).
  vm_compute; reflexivity.
Defined.

Lemma serialize_blocks_shape_witness :
  serialize 5 scenario_B = Ok scenario_B_file /\
  exists blocks directory cl cs,
    _createblocks 5 scenario_B = Ok blocks /\
    _createdirectory blocks = Ok directory /\
    encode_lines scenario_B [] [] = Ok (cl, cs) /\
    let off := block0_offset (24 + len directory) in
    skipn (Z.to_nat off) scenario_B_file = List.concat (map block blocks) /\
    Forall (fun b =>
              len (block b) = 8192 /\
              exists used,
                placed cl (line_data b) used /\
                len used = fold_right Z.add 0 (map len_ (line_data b)) /\
                len used <= 8192 /\
                block b = used ++ repeat x00 (Z.to_nat (8192 - len used)))
           blocks /\
    len scenario_B_file = off + 8192 * len blocks.
Proof.
  split; [vm_compute; reflexivity|].
  apply (serialize_blocks_shape 5 scenario_B scenario_B_file).
  vm_compute; reflexivity.
Defined.

Lemma createdirectory_records_witness :
  _createblocks 5 scenario_B = Ok scenario_B_blocks /\
  _createdirectory scenario_B_blocks = Ok scenario_B_directory /\
  scenario_B_directory =
    flat_map record_bytes (indexed_records 0 scenario_B_blocks) /\
  len scenario_B_directory = 12 * len (indexed_records 0 scenario_B_blocks).
Proof.
  assert (H1 : _createblocks 5 scenario_B = Ok scenario_B_blocks)
    by (vm_compute; reflexivity).
  assert (H2 : _createdirectory scenario_B_blocks = Ok scenario_B_directory)
    by (vm_compute; reflexivity).
  split; [exact H1|]. split; [exact H2|].
  destruct (createdirectory_records 5 scenario_B scenario_B_blocks
              scenario_B_directory H1 H2) as (Hd & Hl & _).
  split; [exact Hd|exact Hl].
Defined.

(** ** Names and texts the encoder accepts *)

Lemma utf16_units_scalar (c : Z) :
  scalarb c = true -> exists us, utf16_units c = Ok us.
Proof.
  unfold scalarb, utf16_units. intros H.
  destruct ((0 <=? c) && (c <? 55296) || (57344 <=? c) && (c <? 65536)) eqn:E1;
    [eexists; reflexivity|].
  replace ((65536 <=? c) && (c <=? 1114111)) with true;
    [eexists; reflexivity|].
  symmetry. apply orb_true_iff in H. apply orb_false_iff in E1 as [Ea Eb].
  apply andb_true_iff.
  destruct H as [H|H]; [congruence|].
  apply andb_true_iff in H as [H1 H2]. rewrite H1 in Eb. cbn in Eb.
  apply Z.ltb_ge in Eb. apply Z.leb_le in H1, H2.
  split; apply Z.leb_le; lia.
Qed.

Lemma utf16_code_units_encodable (t : text) :
  encodable t = true -> exists us, utf16_code_units t = Ok us.
Proof.
  induction t as [|c t IH]; intros H; [now exists []|].
  cbn [encodable forallb] in H. apply andb_true_iff in H as [Hc Ht].
  destruct (utf16_units_scalar c Hc) as [us Hus].
  destruct (IH Ht) as [vs Hvs].
  exists (us ++ vs). cbn [utf16_code_units]. now rewrite Hus, Hvs.
Qed.

Lemma encode_line_encodable (t : text) :
  encodable t = true -> exists payload, encode_line t = Ok payload.
Proof.
  intros H. destruct (utf16_code_units_encodable t H) as [us Hus].
  unfold encode_line, encode_utf16le. rewrite Hus. cbn [bind].
  eexists. reflexivity.
Qed.

Lemma encode_lines_encodable (lines : lines_t) :
  forall cl0 cs0,
    all_encodable lines = true ->
    exists cl cs, encode_lines lines cl0 cs0 = Ok (cl, cs).
Proof.
  induction lines as [|[name line] lines IH]; intros cl0 cs0 H.
  - now exists cl0, cs0.
  - cbn [all_encodable forallb fst snd] in H.
    apply andb_true_iff in H as [Hl Hr]. apply andb_true_iff in Hl as [Hn Hl].
    destruct (name_hash_encodable name Hn) as [h Hh].
    destruct (encode_line_encodable line Hl) as [payload Hp].
    cbn [encode_lines]. rewrite Hh. cbn [bind]. rewrite Hp. cbn [bind].
    now apply IH.
Qed.

Lemma scalarb_false_raises (c : Z) :
  scalarb c = false -> utf16_units c = Raise UnicodeEncodeError.
Proof.
  unfold scalarb, utf16_units. intros H.
  apply orb_false_iff in H as [H1 H2].
  assert (E1 : (0 <=? c) && (c <? 55296) || (57344 <=? c) && (c <? 65536)
               = false).
  { apply orb_false_iff. split; [exact H1|].
    apply andb_false_iff. apply andb_false_iff in H2 as [H2|H2];
      [now left|right].
    apply Z.leb_gt in H2. apply Z.ltb_ge. lia. }
  rewrite E1.
  assert (E2 : (65536 <=? c) && (c <=? 1114111) = false).
  { apply andb_false_iff. apply andb_false_iff in H2 as [H2|H2].
    - left. apply Z.leb_gt in H2. apply Z.leb_gt. lia.
    - now right. }
  now rewrite E2.
Qed.

Lemma encode_line_unencodable (t : text) :
  encodable t = false -> encode_line t = Raise UnicodeEncodeError.
Proof.
  intros H. unfold encode_line, encode_utf16le.
  assert (Hu : utf16_code_units t = Raise UnicodeEncodeError).
  { induction t as [|c t IH]; [discriminate H|].
    cbn [encodable forallb] in H. cbn [utf16_code_units].
    destruct (scalarb c) eqn:Ec.
    - destruct (utf16_units_scalar c Ec) as [us ->]. cbn [bind].
      cbn [andb] in H. now rewrite (IH H).
    - now rewrite (scalarb_false_raises c Ec). }
  now rewrite Hu.
Qed.

Lemma encode_lines_unencodable (lines : lines_t) :
  forall cl0 cs0,
    all_encodable lines = false ->
    encode_lines lines cl0 cs0 = Raise UnicodeEncodeError.
Proof.
  induction lines as [|[name line] lines IH]; intros cl0 cs0 H;
    [discriminate H|].
  cbn [all_encodable forallb fst snd] in H. cbn [encode_lines].
  destruct (encodable name) eqn:En.
  - destruct (name_hash_encodable name En) as [h ->]. cbn [bind].
    destruct (encodable line) eqn:El.
    + destruct (encode_line_encodable line El) as [payload ->]. cbn [bind].
      apply IH. exact H.
    + now rewrite (encode_line_unencodable line El).
  - now rewrite (name_hash_unencodable name En).
Qed.

(** The encoder returns exactly on the inputs without a lone surrogate, and
    raises on the others. *)
Lemma encode_lines_outcome (lines : lines_t) (cl0 : dict bytes)
    (cs0 : dict Z) :
  (all_encodable lines = true /\
   exists cl cs, encode_lines lines cl0 cs0 = Ok (cl, cs)) \/
  (all_encodable lines = false /\
   encode_lines lines cl0 cs0 = Raise UnicodeEncodeError).
Proof.
  destruct (all_encodable lines) eqn:H.
  - left. split; [reflexivity|]. now apply encode_lines_encodable.
  - right. split; [reflexivity|]. now apply encode_lines_unencodable.
Qed.

(** When the encoder returns, every name of the input has a hash. *)
Lemma encode_lines_hashed (lines : lines_t) (cl0 : dict bytes) (cs0 : dict Z)
    (r : dict bytes * dict Z) (name line : text) :
  encode_lines lines cl0 cs0 = Ok r -> In (name, line) lines ->
  exists h, name_hash name = Ok h.
Proof.
  intros Hrun Hin.
  destruct (encode_lines_outcome lines cl0 cs0) as [[Henc _]|[_ Hr]];
    [|congruence].
  unfold all_encodable in Henc. rewrite forallb_forall in Henc.
  specialize (Henc _ Hin). cbn [fst snd] in Henc.
  apply andb_true_iff in Henc as [Hn _]. now apply name_hash_encodable.
Qed.

(** The entry of a pair that no later pair overwrites. *)
Lemma encode_lines_last (pre post : lines_t) (name : text) (line : text) :
  forall cl0 cs0 cl cs,
    encode_lines (pre ++ (name, line) :: post) cl0 cs0 = Ok (cl, cs) ->
    (forall n l, In (n, l) post -> name_hash n <> name_hash name) ->
    exists h payload,
      name_hash name = Ok h /\
      encode_line line = Ok payload /\
      dict_get cl h = Some payload /\
      dict_get cs h = Some (len payload).
Proof.
  intros cl0 cs0 cl cs Hrun Hpost.
  apply encode_lines_app in Hrun as (cl1 & cs1 & _ & Hrun).
  cbn [encode_lines] in Hrun. inv_bind Hrun. inv_bind Hrun.
  rename a into h, a0 into payload.
  apply (encode_lines_other post h) in Hrun as [Hc Hs].
  - exists h, payload. now rewrite Hc, Hs, !dict_get_set_eq.
  - intros n l Hin Hn. apply (Hpost n l Hin). congruence.
Qed.

(** C9, as the code has it.  For every (name, text) pair of an input whose
    names and texts are all free of lone surrogates, if no later pair has a
    name of the same hash, then the encoder returns, the lowercased name has
    a UTF-8 image, and the entry under the full 32-bit CRC-32 of that image
    is the UTF-16LE image of the text followed by one 16-bit zero:
    2 * (number of UTF-16 code units) + 2 bytes. *)
Theorem encoder_entry (pre post : lines_t) (name : text) (line : text) :
  all_encodable (pre ++ (name, line) :: post) = true ->
  (forall n l, In (n, l) post -> name_hash n <> name_hash name) ->
  exists cl cs us nb,
    encode_lines (pre ++ (name, line) :: post) [] [] = Ok (cl, cs) /\
    utf16_code_units line = Ok us /\
    encode_utf8 (lower name) = Ok nb /\
    0 <= crc32 nb < 2 ^ 32 /\
    dict_get cl (crc32 nb) = Some (flat_map (le_bytes 2) us ++ [x00; x00]) /\
    dict_get cs (crc32 nb) = Some (2 * len us + 2).
Proof.
  intros Henc Hpost.
  destruct (encode_lines_encodable _ [] [] Henc) as (cl & cs & Hrun).
  destruct (encode_lines_last _ _ _ _ _ _ _ _ Hrun Hpost)
    as (h & payload & Hh & Hp & Hcl & Hcs).
  apply encode_line_Ok in Hp as (us & Hus & -> & Hlen).
  unfold name_hash in Hh.
  destruct (encode_utf8 (lower name)) as [nb| |] eqn:Hnb; cbn [bind] in Hh;
    try discriminate Hh.
  apply Ok_inj in Hh. subst h.
  exists cl, cs, us, nb.
  split; [exact Hrun|]. split; [exact Hus|]. split; [reflexivity|].
  split; [apply crc32_range|]. split; [exact Hcl|].
  rewrite Hcs, Hlen. reflexivity.
Qed.

Lemma encoder_entry_witness :
  all_encodable ([] ++ (txt "Caption.hello", txt "Hi")
                    :: [(txt "b", txt "x")]) = true /\
  exists cl cs us nb,
    encode_lines ([] ++ (txt "Caption.hello", txt "Hi")
                     :: [(txt "b", txt "x")]) [] [] = Ok (cl, cs) /\
    utf16_code_units (txt "Hi") = Ok us /\
    encode_utf8 (lower (txt "Caption.hello")) = Ok nb /\
    0 <= crc32 nb < 2 ^ 32 /\
    dict_get cl (crc32 nb) = Some (flat_map (le_bytes 2) us ++ [x00; x00]) /\
    dict_get cs (crc32 nb) = Some (2 * len us + 2).
Proof.
  split; [reflexivity|].
  apply (encoder_entry [] [(txt "b", txt "x")] (txt "Caption.hello")
           (txt "Hi")).
  - reflexivity.
  - intros n l [[= <- <-]|[]]. vm_compute. discriminate.
Defined.

(** C9 as stated fails.  With the names "A" and "a", which lowercase to the
    same bytes, the only entry holds the payload of the later pair, so the
    pair ("A", "x") has no entry with its payload; a text with a lone
    surrogate makes the encoder raise, so that no entry is produced at all;
    and so does a name with a lone surrogate, whose lowercased form has no
    UTF-8 image. *)
Lemma encoder_entry_counterexample :
  ~ (forall name line,
       In (name, line) [(txt "A", txt "x"); (txt "a", txt "yy")] ->
       exists cl cs us nb,
         encode_lines [(txt "A", txt "x"); (txt "a", txt "yy")] [] []
           = Ok (cl, cs) /\
         utf16_code_units line = Ok us /\
         encode_utf8 (lower name) = Ok nb /\
         dict_get cl (crc32 nb) =
           Some (flat_map (le_bytes 2) us ++ [x00; x00])) /\
  ~ (forall name line,
       In (name, line) [(txt "a", [0xD800])] ->
       exists cl cs us nb,
         encode_lines [(txt "a", [0xD800])] [] [] = Ok (cl, cs) /\
         utf16_code_units line = Ok us /\
         encode_utf8 (lower name) = Ok nb /\
         dict_get cl (crc32 nb) =
           Some (flat_map (le_bytes 2) us ++ [x00; x00])) /\
  ~ (forall name line,
       In (name, line) [([0xD800], txt "x")] ->
       exists cl cs us nb,
         encode_lines [([0xD800], txt "x")] [] [] = Ok (cl, cs) /\
         utf16_code_units line = Ok us /\
         encode_utf8 (lower name) = Ok nb /\
         dict_get cl (crc32 nb) =
           Some (flat_map (le_bytes 2) us ++ [x00; x00])).
Proof.
  split; [|split]; intros H.
  - destruct (H (txt "A") (txt "x") (or_introl eq_refl))
      as (cl & cs & us & nb & Hrun & Hus & Hnb & Hget).
    vm_compute in Hrun. apply Ok_inj in Hrun. injection Hrun as <- <-.
    vm_compute in Hus. apply Ok_inj in Hus. subst us.
    vm_compute in Hnb. apply Ok_inj in Hnb. subst nb.
    vm_compute in Hget. discriminate Hget.
  - destruct (H (txt "a") [0xD800] (or_introl eq_refl))
      as (cl & cs & us & nb & Hrun & _).
    vm_compute in Hrun. discriminate Hrun.
  - destruct (H [0xD800] (txt "x") (or_introl eq_refl))
      as (cl & cs & us & nb & Hrun & _).
    vm_compute in Hrun. discriminate Hrun.
Qed.

(** ** The key 0 *)

(** [GetLineSized] never deletes the key 0, so the inner loop hands it back. *)
Lemma block_loop_keeps_zero (cl : dict bytes) (fuel : nat) :
  forall cs b rem cs' b',
    block_loop fuel cl cs b rem = Ok (cs', b') ->
    In 0 (dict_keys cs) -> In 0 (dict_keys cs').
Proof.
  induction fuel as [|fuel IH]; intros cs b rem cs' b' Hrun Hin;
    [discriminate|].
  cbn [block_loop] in Hrun.
  destruct (rem =? 0); [now injection Hrun as <- <-|].
  destruct (GetLineSized cs rem) as [[linehash size] cs1] eqn:EG.
  apply GetLineSized_spec in EG as [_ Hsel].
  destruct linehash as [h|].
  - destruct Hsel as (_ & _ & ->). cbn [truthy] in Hrun.
    destruct (h =? 0) eqn:Eh; cbn [negb] in Hrun.
    + inv_bind Hrun. now injection Hrun as <- <-.
    + inv_bind Hrun. apply IH in Hrun; [exact Hrun|].
      rewrite dict_keys_del. apply filter_In. split; [exact Hin|].
      now rewrite Z.eqb_sym, Eh.
  - destruct Hsel as [_ ->]. inv_bind Hrun. now injection Hrun as <- <-.
Qed.

(** With the key 0 in the dict, the outer loop never returns. *)
Lemma blocks_loop_zero_key (cl : dict bytes) (fuel : nat) :
  forall cs blocks out,
    In 0 (dict_keys cs) -> blocks_loop fuel cl cs blocks <> Ok out.
Proof.
  induction fuel as [|fuel IH]; intros cs blocks out Hin Hrun;
    [discriminate|].
  cbn [blocks_loop] in Hrun.
  destruct (len cs =? 0) eqn:E0.
  - destruct cs; [contradiction|]. unfold len in E0. cbn in E0. lia.
  - inv_bind Hrun. destruct a as [cs1 b].
    apply block_loop_keeps_zero in E; [|exact Hin].
    exact (IH _ _ _ E Hrun).
Qed.

Lemma encode_lines_key (lines : lines_t) :
  forall cl0 cs0 cl cs h,
    encode_lines lines cl0 cs0 = Ok (cl, cs) ->
    (exists name line, In (name, line) lines /\ name_hash name = Ok h) \/
    In h (dict_keys cs0) ->
    In h (dict_keys cs).
Proof.
  induction lines as [|[n l] lines IH]; intros cl0 cs0 cl cs h Hrun Hin.
  - injection Hrun as <- <-. destruct Hin as [(? & ? & [] & _)|Hin].
    exact Hin.
  - cbn [encode_lines] in Hrun. inv_bind Hrun. inv_bind Hrun.
    apply (IH _ _ _ _ h Hrun).
    destruct Hin as [(name & line & [[= -> ->]|Hin] & Hh)|Hin].
    + right. assert (a = h) by congruence. subst a.
      eapply dict_get_key. apply dict_get_set_eq.
    + left. now exists name, line.
    + right. apply dict_key_get in Hin as [v Hv].
      destruct (Z.eq_dec a h) as [Heq|Hne].
      * rewrite <- Heq. eapply dict_get_key. apply dict_get_set_eq.
      * eapply dict_get_key. rewrite dict_get_set_neq by exact Hne. exact Hv.
Qed.

(** An input with a name whose hash is 0 never makes [_createblocks] return,
    whatever the fuel. *)
Lemma createblocks_zero_hash (fuel : nat) (lines : lines_t) (name : text)
    (line : text) (blocks : list BlockData) :
  In (name, line) lines -> name_hash name = Ok 0 ->
  _createblocks fuel lines <> Ok blocks.
Proof.
  intros Hin Hz Hrun. unfold _createblocks in Hrun.
  inv_bind Hrun. destruct a as [cl cs].
  apply (blocks_loop_zero_key cl fuel cs [] blocks); [|exact Hrun].
  eapply encode_lines_key; [exact E|]. left. now exists name, line.
Qed.

Lemma block_loop_zero_only (fuel : nat) (cl : dict bytes) (n : Z) :
  0 < n ->
  block_loop (S fuel) cl [(0, n)] BlockData_init 8192 =
  Ok ([(0, n)], zero_block).
Proof.
  intros Hn. cbn [block_loop]. change (8192 =? 0) with false. cbv iota.
  unfold GetLineSized. cbn [dict_keys map fst fold_left].
  unfold GetLineSized_step. cbn [dict_get]. rewrite Z.eqb_refl.
  replace (n >? 0) with true by (symmetry; apply Z.gtb_lt; lia).
  reflexivity.
Qed.

Lemma blocks_loop_zero_only (cl : dict bytes) (n : Z) (fuel : nat) :
  0 < n ->
  forall blocks, blocks_loop fuel cl [(0, n)] blocks = OutOfFuel.
Proof.
  intros Hn. induction fuel as [|fuel IH]; intros blocks; [reflexivity|].
  cbn [blocks_loop]. change (len [(0, n)] =? 0) with false. cbv iota.
  rewrite block_loop_zero_only by exact Hn. cbn [bind]. apply IH.
Qed.

(** C4 fails on the code.  The name "xohetvi" has CRC-32 0 (so has the empty
    name).  [GetLineSized] returns the hash 0 but leaves the entry in the
    dict, because [if chash:] is false for 0; the caller takes the 0 for "no
    candidate", closes an empty block and starts over: with any fuel the
    packer is still running. *)
Theorem zero_hash_never_halts :
  name_hash (txt "xohetvi") = Ok 0 /\ name_hash [] = Ok 0 /\
  GetLineSized [(0, 6)] 8192 = ((Some 0, 6), [(0, 6)]) /\
  (forall fuel, _createblocks fuel [(txt "xohetvi", txt "Hi")] = OutOfFuel) /\
  (forall fuel, serialize fuel [(txt "xohetvi", txt "Hi")] = OutOfFuel).
Proof.
  assert (H : forall fuel,
             _createblocks fuel [(txt "xohetvi", txt "Hi")] = OutOfFuel).
  { intros fuel. unfold _createblocks.
    replace (encode_lines [(txt "xohetvi", txt "Hi")] [] [])
      with (Ok ([(0, [x48; x00; x69; x00; x00; x00])], [(0, 6)]))
      by (vm_compute; reflexivity).
    cbn [bind]. apply blocks_loop_zero_only. lia. }
  split; [vm_compute; reflexivity|]. split; [vm_compute; reflexivity|].
  split; [vm_compute; reflexivity|]. split; [exact H|].
  intros fuel. unfold serialize. now rewrite H.
Qed.

(** ** The entry count of the header *)

(** The count field at bytes 16..19 is the number of input pairs. *)
Lemma serialize_entry_count (fuel : nat) (lines : lines_t) (file : bytes) :
  serialize fuel lines = Ok file ->
  le_decode (field file 16 4) = len lines.
Proof.
  intros H.
  apply serialize_Ok in H as (blocks & directory & _ & _ & _ & Hnl & _ & ->).
  rewrite field_header_entries. apply le_decode_le_bytes_small.
  pose proof (len_nonneg lines). change (256 ^ Z.of_nat 4) with 4294967296.
  lia.
Qed.

(** The directory has one record per key of the working set, and so one per
    input pair when the hashes of the names are pairwise distinct. *)
Lemma directory_record_count (fuel : nat) (lines : lines_t)
    (blocks : list BlockData) (directory : bytes) :
  _createblocks fuel lines = Ok blocks ->
  _createdirectory blocks = Ok directory ->
  exists cl cs,
    encode_lines lines [] [] = Ok (cl, cs) /\
    len directory = 12 * len cs /\
    len cs <= len lines /\
    (NoDup (map (fun p => name_hash (fst p)) lines) -> len cs = len lines).
Proof.
  intros Hb Hd. unfold _createdirectory in Hd.
  apply directory_blocks_Ok in Hd as [-> _]. cbn [app].
  apply createblocks_spec in Hb as (cl & cs & Henc & _ & _ & Hperm).
  exists cl, cs. split; [exact Henc|].
  assert (Hrec : len (entries_of blocks) = len cs)
    by (unfold len; now rewrite (Permutation_length Hperm)).
  rewrite len_flat_map_record_bytes, len_indexed_records, Hrec.
  split; [reflexivity|]. split.
  - apply encode_lines_len_le in Henc.
    change (len (@nil (Z * Z))) with 0 in Henc. lia.
  - intros Hnd. apply encode_lines_keys in Henc; [|exact Hnd].
    cbn [dict_keys map app] in Henc. unfold len.
    rewrite <- (length_map fst cs). fold (dict_keys cs).
    now rewrite <- (length_map Ok (dict_keys cs)), Henc, length_map.
Qed.

(** C5 fails on the code.  The names "A" and "a" share a hash, so the
    directory has one record (12 bytes); the count field of the header is
    [len(self.lines)], which is 2. *)
Theorem entry_count_collision :
  _createblocks 5 collision_lines = Ok collision_blocks /\
  _createdirectory collision_blocks = Ok collision_directory /\
  serialize 5 collision_lines = Ok collision_file /\
  len (indexed_records 0 collision_blocks) = 1 /\
  len collision_directory = 12 /\
  le_decode (field collision_file 16 4) = 2.
Proof.
  repeat split; vm_compute; reflexivity.
Qed.

(** ** Payloads that do not fit *)

(** C2 fails on the code.  [GetLineSized] does not read its capacity
    argument: after the first 6002-byte payload of [two_long] is placed, 2190
    bytes remain, and the call returns the other 6002-byte entry as the
    candidate and deletes it from the dict. *)
Theorem GetLineSized_ignores_capacity :
  (exists cl,
     encode_lines two_long [] [] =
     Ok (cl, [(0xe8b7be43, 6002); (0x71beeff9, 6002)])) /\
  GetLineSized [(0xe8b7be43, 6002); (0x71beeff9, 6002)] 8192 =
    ((Some 0xe8b7be43, 6002), [(0x71beeff9, 6002)]) /\
  GetLineSized [(0x71beeff9, 6002)] (8192 - 6002) =
    ((Some 0x71beeff9, 6002), []) /\
  8192 - 6002 < 6002 /\
  (forall d size1 size2, GetLineSized d size1 = GetLineSized d size2).
Proof.
  split; [eexists; vm_compute; reflexivity|].
  split; [vm_compute; reflexivity|]. split; [vm_compute; reflexivity|].
  split; [reflexivity|]. intros d size1 size2. reflexivity.
Qed.

(** C1 fails on the code.  Both payloads of [two_long] are 6002 bytes, at most
    a block; the packer writes both into the first block, 12004 bytes, and
    the zero fill of that block raises [ValueError]: no sequence of blocks is
    produced. *)
Theorem packer_overfills_block :
  let payload := flat_map (le_bytes 2) (long_text 3000) ++ [x00; x00] in
  let b := AddLine (AddLine BlockData_init 0xe8b7be43 payload)
                   0x71beeff9 payload in
  encode_line (long_text 3000) = Ok payload /\
  len payload = 6002 /\
  len (block b) = 12004 /\
  Fill b = Raise ValueError /\
  forall k, _createblocks (3 + k) two_long = Raise ValueError.
Proof.
  cbv zeta.
  split; [vm_compute; reflexivity|]. split; [vm_compute; reflexivity|].
  split; [vm_compute; reflexivity|]. split; [vm_compute; reflexivity|].
  assert (E : _createblocks 3 two_long = Raise ValueError)
    by (vm_compute; reflexivity).
  intros k. rewrite createblocks_more_fuel; [exact E|].
  rewrite E. discriminate.
Qed.

(** An entry of the working set that is longer than a block keeps
    [_createblocks] from returning. *)
Lemma createblocks_oversize (fuel : nat) (lines : lines_t)
    (cl : dict bytes) (cs : dict Z) (h n : Z) :
  encode_lines lines [] [] = Ok (cl, cs) ->
  dict_get cs h = Some n -> BLOCK_SIZE < n ->
  returned (_createblocks fuel lines) = false.
Proof.
  intros Henc Hget Hbig.
  destruct (_createblocks fuel lines) as [blocks| |] eqn:Hrun;
    [|reflexivity|reflexivity].
  exfalso.
  apply createblocks_spec in Hrun as (cl' & cs' & Henc' & _ & Hall & Hperm).
  rewrite Henc in Henc'. apply Ok_inj in Henc'. injection Henc' as <- <-.
  apply dict_get_In in Hget.
  apply (Permutation_in _ Hperm) in Hget.
  unfold entries_of in Hget. apply in_flat_map in Hget as (b & Hb & Hin).
  apply in_map_iff in Hin as (ld & Hld & Hin).
  rewrite Forall_forall in Hall.
  destruct (block_ok_record cl b ld (Hall b Hb) Hin) as (Ho & _ & Hsum & _).
  unfold entry_of in Hld. injection Hld as _ Hn. lia.
Qed.

(** C3, as the code has it.  When the input has a caption whose payload (the
    UTF-16LE text and the 2-byte terminator) is longer than 8192 bytes and
    no later caption has a name of the same hash, neither [_createblocks]
    nor [serialize] returns a value, whatever the fuel: no output holds the
    payload truncated or split. *)
Theorem oversize_never_returns (fuel : nat) (pre post : lines_t)
    (name : text) (line : text) (payload : bytes) :
  encode_line line = Ok payload ->
  BLOCK_SIZE < len payload ->
  (forall n l, In (n, l) post -> name_hash n <> name_hash name) ->
  returned (_createblocks fuel (pre ++ (name, line) :: post)) = false /\
  returned (serialize fuel (pre ++ (name, line) :: post)) = false.
Proof.
  intros Hp Hbig Hpost.
  assert (H : returned (_createblocks fuel (pre ++ (name, line) :: post))
              = false).
  { destruct (encode_lines (pre ++ (name, line) :: post) [] [])
      as [[cl cs]|e|] eqn:Henc.
    - destruct (encode_lines_last _ _ _ _ _ _ _ _ Henc Hpost)
        as (h & payload' & _ & Hp' & _ & Hcs).
      assert (payload' = payload) by congruence. subst payload'.
      exact (createblocks_oversize fuel _ cl cs _ _ Henc Hcs Hbig).
    - unfold _createblocks. now rewrite Henc.
    - unfold _createblocks. now rewrite Henc. }
  split; [exact H|].
  unfold serialize.
  destruct (_createblocks fuel (pre ++ (name, line) :: post));
    [discriminate H|reflexivity|reflexivity].
Qed.

Lemma oversize_never_returns_witness :
  encode_line (long_text 4096) = Ok oversize_payload /\
  BLOCK_SIZE < len oversize_payload /\
  returned (_createblocks 5 ([] ++ (txt "a", long_text 4096) :: [])) = false /\
  returned (serialize 5 ([] ++ (txt "a", long_text 4096) :: [])) = false.
Proof.
  assert (H1 : encode_line (long_text 4096) = Ok oversize_payload)
    by (vm_compute; reflexivity).
  assert (H2 : BLOCK_SIZE < len oversize_payload)
    by (vm_compute; reflexivity).
  split; [exact H1|]. split; [exact H2|].
  apply (oversize_never_returns 5 [] [] (txt "a") (long_text 4096)
           oversize_payload H1 H2).
  intros n l [].
Defined.

(** C3 as stated fails, in both directions.  [shadowed_oversize] has a
    caption with an 8194-byte payload and converts without any error: the
    payload is dropped when the name "a" takes its key.  [two_long] has no
    payload over 8192 bytes, and its conversion raises the only error the
    packer has, the [ValueError] of the zero fill. *)
Lemma oversize_error_counterexample :
  ~ (forall lines : lines_t,
       (exists name line payload,
          In (name, line) lines /\ encode_line line = Ok payload /\
          BLOCK_SIZE < len payload) ->
       exists fuel e, serialize fuel lines = Raise e) /\
  ~ (forall lines : lines_t,
       (forall name line payload,
          In (name, line) lines -> encode_line line = Ok payload ->
          len payload <= BLOCK_SIZE) ->
       forall fuel, serialize fuel lines <> Raise ValueError).
Proof.
  split; intros H.
  - destruct (H shadowed_oversize) as (fuel & e & Hrun).
    + exists (txt "A"), (long_text 4096), oversize_payload.
      split; [now left|]. split; vm_compute; reflexivity.
    + destruct fuel as [|[|k]];
        [vm_compute in Hrun; discriminate Hrun
        |vm_compute in Hrun; discriminate Hrun|].
      change (S (S k)) with (2 + k)%nat in Hrun.
      assert (E : returned (serialize 2 shadowed_oversize) = true)
        by (vm_compute; reflexivity).
      rewrite serialize_more_fuel in Hrun.
      * rewrite Hrun in E. discriminate E.
      * intros E'. rewrite E' in E. discriminate E.
  - apply (H two_long) with (fuel := 5%nat); [|vm_compute; reflexivity].
    intros name line payload [[= <- <-]|[[= <- <-]|[]]] Hp;
      vm_compute in Hp; apply Ok_inj in Hp; subst payload;
      vm_compute; discriminate.
Qed.

(** ** Termination

    The inner loop always ends; the outer loop ends when no key is 0. *)

Lemma length_dict_del_lt {V : Type} (d : dict V) (k : Z) :
  In k (dict_keys d) -> (List.length (dict_del d k) < List.length d)%nat.
Proof.
  induction d as [|[k0 v0] d IH]; cbn [dict_keys map fst In]; [contradiction|].
  intros Hin. unfold dict_del. cbn [filter fst].
  destruct (k0 =? k) eqn:E; cbn [negb List.length].
  - pose proof (filter_length_le (fun kv : Z * V => negb (fst kv =? k)) d).
    lia.
  - apply Z.eqb_neq in E. destruct Hin as [Hin|Hin]; [contradiction|].
    apply IH in Hin. unfold dict_del in Hin. lia.
Qed.

Lemma Fill_halts (b : BlockData) : Fill b <> OutOfFuel.
Proof.
  unfold Fill, bytes_zero.
  destruct (BLOCK_SIZE - len (block b) <? 0); discriminate.
Qed.

(** With more fuel than entries, the inner loop returns or raises. *)
Lemma block_loop_halts (cl : dict bytes) (fuel : nat) :
  forall cs b rem,
    (List.length cs < fuel)%nat -> block_loop fuel cl cs b rem <> OutOfFuel.
Proof.
  induction fuel as [|fuel IH]; intros cs b rem Hlen; [lia|].
  cbn [block_loop]. destruct (rem =? 0); [discriminate|].
  destruct (GetLineSized cs rem) as [[linehash size] cs1] eqn:EG.
  apply GetLineSized_spec in EG as [_ Hsel].
  destruct linehash as [h|].
  - destruct Hsel as (Hget & _ & ->). cbn [truthy].
    destruct (h =? 0); cbn [negb].
    + pose proof (Fill_halts b). destruct (Fill b); cbn [bind]; congruence.
    + unfold getitem. destruct (dict_get cl h); cbn [bind]; [|discriminate].
      apply IH. apply dict_get_key in Hget.
      pose proof (length_dict_del_lt cs h Hget). lia.
  - pose proof (Fill_halts b). destruct (Fill b); cbn [bind]; congruence.
Qed.

(** A run of the inner loop that starts with capacity left and a non-empty
    dict of positive lengths and non-zero keys takes at least one entry. *)
Lemma block_loop_progress (cl : dict bytes) (fuel : nat) (cs : dict Z)
    (b : BlockData) (rem : Z) (cs' : dict Z) (b' : BlockData) :
  block_loop fuel cl cs b rem = Ok (cs', b') ->
  rem <> 0 -> cs <> [] ->
  NoDup (dict_keys cs) -> dicts_agree cl cs -> positive_nonzero cs ->
  placed cl (line_data b) (block b) -> rem = BLOCK_SIZE - len (block b) ->
  (List.length cs' < List.length cs)%nat.
Proof.
  intros Hrun Hrem Hne Hnd Hag Hpn Hp Hcap.
  destruct fuel as [|fuel]; [discriminate|]. cbn [block_loop] in Hrun.
  destruct (rem =? 0) eqn:E0; [apply Z.eqb_eq in E0; contradiction|].
  destruct (GetLineSized cs rem) as [[linehash size] cs1] eqn:EG.
  apply GetLineSized_spec in EG as [Hmax Hsel].
  destruct cs as [|[k0 n0] cs0] eqn:Ecs; [contradiction|]. rewrite <- Ecs in *.
  assert (Hk0 : dict_get cs k0 = Some n0)
    by (rewrite Ecs; cbn [dict_get]; now rewrite Z.eqb_refl).
  destruct linehash as [h|].
  - destruct Hsel as (Hget & Hpos & ->).
    destruct (Hpn h size Hget) as [_ Hh].
    cbn [truthy] in Hrun. apply Z.eqb_neq in Hh. rewrite Hh in *.
    cbn [negb] in Hrun. inv_bind Hrun. rename a into line.
    apply getitem_Ok in E.
    destruct (Hag h size Hget) as (line' & Hline' & Hlen).
    assert (line' = line) by congruence. subst line'.
    apply block_loop_spec in Hrun as (new & _ & _ & Hperm & _ & _).
    + apply Permutation_length in Hperm. rewrite length_app in Hperm.
      pose proof (length_dict_del_lt cs h (dict_get_key _ _ _ Hget)). lia.
    + now apply NoDup_dict_del.
    + now apply dicts_agree_del.
    + now apply placed_AddLine.
    + cbn [AddLine block]. rewrite len_app. blia.
  - destruct Hsel as [-> _]. specialize (Hmax k0 n0 Hk0).
    destruct (Hpn k0 n0 Hk0) as [Hpos _]. lia.
Qed.

(** With more fuel than entries, positive lengths and no key 0, the outer
    loop returns or raises. *)
Lemma blocks_loop_halts (cl : dict bytes) (fuel : nat) :
  forall cs blocks,
    (List.length cs < fuel)%nat ->
    NoDup (dict_keys cs) -> dicts_agree cl cs -> positive_nonzero cs ->
    blocks_loop fuel cl cs blocks <> OutOfFuel.
Proof.
  induction fuel as [|fuel IH]; intros cs blocks Hlen Hnd Hag Hpn; [lia|].
  cbn [blocks_loop]. destruct (len cs =? 0) eqn:E0; [discriminate|].
  assert (Hne : cs <> []) by (intros ->; discriminate E0).
  destruct (block_loop (S fuel) cl cs BlockData_init 8192)
    as [[cs1 b]|e|] eqn:E; cbn [bind].
  - pose proof (block_loop_progress _ _ _ _ _ _ _ E ltac:(lia) Hne Hnd Hag Hpn
                  (placed_nil cl) eq_refl) as Hlt.
    apply block_loop_spec in E as (new & _ & _ & Hperm & Hnd1 & Hag1);
      try assumption; [|constructor|reflexivity].
    apply IH; try assumption; [lia|].
    intros h n Hget. apply (Hpn h n). apply In_dict_get; [exact Hnd|].
    eapply Permutation_in; [symmetry; exact Hperm|].
    apply in_or_app. right. now apply dict_get_In.
  - discriminate.
  - exfalso. now apply (block_loop_halts cl (S fuel) cs BlockData_init 8192).
Qed.

(** When no name of the input has the hash 0, [_createblocks] returns or
    raises as soon as the fuel exceeds the number of input pairs. *)
Lemma createblocks_halts (fuel : nat) (lines : lines_t) :
  (forall name line, In (name, line) lines -> name_hash name <> Ok 0) ->
  (List.length lines < fuel)%nat ->
  _createblocks fuel lines <> OutOfFuel.
Proof.
  intros Hnz Hfuel. unfold _createblocks.
  destruct (encode_lines_outcome lines [] [])
    as [(_ & cl & cs & Henc)|[_ Henc]]; rewrite Henc; cbn [bind];
    [|discriminate].
  pose proof (encode_lines_encoded _ _ _ _ _ Henc encoded_nil)
    as (Hnd & Hag & Hrange).
  apply blocks_loop_halts; try assumption.
  - apply encode_lines_len_le in Henc. unfold len in Henc.
    cbn [List.length] in Henc. lia.
  - intros h n Hget. split; [apply Hrange in Hget; lia|].
    destruct (Hag h n Hget) as (payload & Hcl & _).
    destruct (encode_lines_payloads _ _ _ _ _ _ _ Henc Hcl)
      as [Hnil|(name & line & Hin & Hh & _)]; [discriminate Hnil|].
    intros ->. exact (Hnz name line Hin Hh).
Qed.

(** ** Inputs that fit one block *)

Lemma total_Permutation (cs cs' : dict Z) :
  Permutation cs cs' -> total cs = total cs'.
Proof.
  unfold total. induction 1; cbn [map fold_right]; lia.
Qed.

Lemma total_app (cs cs' : dict Z) : total (cs ++ cs') = total cs + total cs'.
Proof.
  unfold total. induction cs as [|[k v] cs IH]; cbn [app map fold_right snd];
    lia.
Qed.

Lemma total_nonneg (cs : dict Z) :
  (forall h n, In (h, n) cs -> 0 <= n) -> 0 <= total cs.
Proof.
  unfold total. induction cs as [|[k v] cs IH]; intros H;
    cbn [map fold_right snd]; [lia|].
  assert (0 <= v) by (apply (H k v); now left).
  assert (0 <= fold_right Z.add 0 (map snd cs))
    by (apply IH; intros h n Hin; apply (H h n); now right).
  lia.
Qed.

Lemma total_dict_set (cs : dict Z) (k v : Z) :
  (forall h n, In (h, n) cs -> 0 <= n) ->
  total (dict_set cs k v) <= total cs + v.
Proof.
  unfold total. induction cs as [|[k0 v0] cs IH]; intros H;
    cbn [dict_set map fold_right snd]; [lia|].
  assert (0 <= v0) by (apply (H k0 v0); now left).
  destruct (k0 =? k); cbn [map fold_right snd]; [lia|].
  assert (fold_right Z.add 0 (map snd (dict_set cs k v))
          <= fold_right Z.add 0 (map snd cs) + v)
    by (apply IH; intros h n Hin; apply (H h n); now right).
  lia.
Qed.

Lemma encode_lines_total (lines : lines_t) :
  forall cl0 cs0 cl cs,
    encode_lines lines cl0 cs0 = Ok (cl, cs) ->
    (forall h n, In (h, n) cs0 -> 0 <= n) ->
    total cs <= total cs0 + input_bytes lines /\
    (forall h n, In (h, n) cs -> 0 <= n).
Proof.
  induction lines as [|[name line] lines IH]; intros cl0 cs0 cl cs Hrun Hnn.
  - injection Hrun as <- <-. cbn. split; [lia|exact Hnn].
  - cbn [encode_lines] in Hrun. inv_bind Hrun. inv_bind Hrun.
    rename a into k, a0 into payload.
    assert (Hnn' : forall h n,
               In (h, n) (dict_set cs0 k (len payload)) -> 0 <= n).
    { clear -Hnn. induction cs0 as [|[k0 v0] cs0 IHc]; intros h n Hin;
        cbn [dict_set] in Hin.
      - destruct Hin as [[= <- <-]|[]]. apply len_nonneg.
      - destruct (k0 =? k).
        + destruct Hin as [[= <- <-]|Hin]; [apply len_nonneg|].
          apply (Hnn h n). now right.
        + destruct Hin as [[= <- <-]|Hin]; [apply (Hnn k0 v0); now left|].
          apply (IHc (fun h n H => Hnn h n (or_intror H)) h n Hin). }
    destruct (IH _ _ _ _ Hrun Hnn') as [Hle Hout]. split; [|exact Hout].
    pose proof (total_dict_set cs0 k (len payload) Hnn).
    unfold input_bytes in *. cbn [map fold_right snd].
    unfold payload_len at 1. rewrite E0. lia.
Qed.

(** With room for every entry of the dict, the inner loop does not raise. *)
Lemma block_loop_fits (cl : dict bytes) (fuel : nat) :
  forall cs b rem e,
    NoDup (dict_keys cs) -> dicts_agree cl cs ->
    (forall h n, In (h, n) cs -> 0 <= n) ->
    rem = BLOCK_SIZE - len (block b) -> total cs <= rem ->
    block_loop fuel cl cs b rem <> Raise e.
Proof.
  induction fuel as [|fuel IH]; intros cs b rem e Hnd Hag Hnn Hcap Htot;
    [discriminate|].
  pose proof (total_nonneg cs Hnn) as H0.
  assert (HFill : Fill b <> Raise e).
  { unfold Fill, bytes_zero.
    replace (BLOCK_SIZE - len (block b) <? 0) with false;
      [discriminate|symmetry; apply Z.ltb_ge; lia]. }
  cbn [block_loop]. destruct (rem =? 0); [discriminate|].
  destruct (GetLineSized cs rem) as [[linehash size] cs1] eqn:EG.
  apply GetLineSized_spec in EG as [_ Hsel].
  destruct linehash as [h|].
  - destruct Hsel as (Hget & Hpos & ->). cbn [truthy].
    destruct (h =? 0); cbn [negb].
    + destruct (Fill b); cbn [bind]; congruence.
    + destruct (Hag h size Hget) as (line & Hline & Hlen).
      unfold getitem. rewrite Hline. cbn [bind].
      pose proof (dict_del_Permutation cs h size Hnd Hget) as Hperm.
      apply IH.
      * now apply NoDup_dict_del.
      * now apply dicts_agree_del.
      * intros k n Hin. apply (Hnn k n).
        eapply Permutation_in; [symmetry; exact Hperm|]. now right.
      * cbn [AddLine block]. rewrite len_app. blia.
      * apply total_Permutation in Hperm.
        change ((h, size) :: dict_del cs h)
          with ([(h, size)] ++ dict_del cs h) in Hperm.
        rewrite total_app in Hperm. unfold total at 2 in Hperm.
        cbn [map fold_right snd] in Hperm. lia.
  - destruct (Fill b); cbn [bind]; congruence.
Qed.

(** When the whole dict fits one block, the outer loop does not raise, and
    it adds at most one block per entry. *)
Lemma blocks_loop_fits (cl : dict bytes) (fuel : nat) :
  forall cs blocks,
    NoDup (dict_keys cs) -> dicts_agree cl cs -> positive_nonzero cs ->
    total cs <= BLOCK_SIZE ->
    (forall e, blocks_loop fuel cl cs blocks <> Raise e) /\
    (forall out, blocks_loop fuel cl cs blocks = Ok out ->
                 len out <= len blocks + len cs).
Proof.
  induction fuel as [|fuel IH]; intros cs blocks Hnd Hag Hpn Htot;
    [split; intros; discriminate|].
  assert (Hnn : forall h n, In (h, n) cs -> 0 <= n).
  { intros h n Hin. apply In_dict_get in Hin; [|exact Hnd].
    apply Hpn in Hin. lia. }
  cbn [blocks_loop]. destruct (len cs =? 0) eqn:E0.
  - split; [discriminate|]. intros out H. apply Ok_inj in H. subst out.
    pose proof (len_nonneg cs). lia.
  - assert (Hne : cs <> []) by (intros ->; discriminate E0).
    destruct (block_loop (S fuel) cl cs BlockData_init 8192)
      as [[cs1 b]|e|] eqn:E; cbn [bind].
    + pose proof (block_loop_progress _ _ _ _ _ _ _ E ltac:(lia) Hne Hnd Hag
                    Hpn (placed_nil cl) eq_refl) as Hlt.
      apply block_loop_spec in E as (new & _ & _ & Hperm & Hnd1 & Hag1);
        try assumption; [|constructor|reflexivity].
      assert (Hsub : forall h n, In (h, n) cs1 -> In (h, n) cs).
      { intros h n Hin. eapply Permutation_in; [symmetry; exact Hperm|].
        apply in_or_app. now right. }
      assert (Hpn1 : positive_nonzero cs1).
      { intros h n Hget. apply (Hpn h n). apply In_dict_get; [exact Hnd|].
        now apply Hsub, dict_get_In. }
      assert (Htot1 : total cs1 <= BLOCK_SIZE).
      { pose proof (total_Permutation _ _ Hperm) as Ht.
        rewrite total_app in Ht.
        assert (0 <= total (map entry_of new)).
        { apply total_nonneg. intros h n Hin. apply (Hnn h n).
          eapply Permutation_in; [symmetry; exact Hperm|].
          apply in_or_app. now left. }
        lia. }
      destruct (IH cs1 (blocks ++ [b]) Hnd1 Hag1 Hpn1 Htot1) as [Hr Hc].
      split; [exact Hr|]. intros out Hout. apply Hc in Hout.
      rewrite len_app in Hout. unfold len in *. cbn [List.length] in Hout.
      lia.
    + exfalso.
      apply (block_loop_fits cl (S fuel) cs BlockData_init 8192 e);
        try assumption; reflexivity.
    + split; intros; discriminate.
Qed.

(** [serialize] returns as soon as the packer and the directory builder do
    and the three counts of the header fit a signed 32-bit field. *)
Lemma serialize_returns (fuel : nat) (lines : lines_t)
    (blocks : list BlockData) (directory : bytes) :
  _createblocks fuel lines = Ok blocks ->
  _createdirectory blocks = Ok directory ->
  len blocks <= 2147483647 -> len lines <= 2147483647 ->
  block0_offset (24 + len directory) <= 2147483647 ->
  serialize fuel lines =
    Ok (header (len blocks) (len lines) (block0_offset (24 + len directory)) ++
        directory ++
        repeat x00 (Z.to_nat (block0_offset (24 + len directory)
                              - (24 + len directory))) ++
        List.concat (map block blocks)).
Proof.
  intros Hb Hd Hnb Hnl Hoff. unfold serialize.
  pose proof (len_nonneg blocks). pose proof (len_nonneg lines).
  pose proof (len_nonneg directory) as Hdir.
  destruct (block0_offset_spec (24 + len directory) ltac:(lia))
    as (Hpos & _ & Hlt & _).
  rewrite Hb. cbn [bind]. rewrite Hd. cbn [bind].
  rewrite (pack_in_range fmt_i VERSION) by (cbn; unfold VERSION; lia).
  cbn [bind]. rewrite (pack_in_range fmt_i (len blocks)) by (cbn; lia).
  cbn [bind].
  rewrite (pack_in_range fmt_i BLOCK_SIZE) by (cbn; unfold BLOCK_SIZE; lia).
  cbn [bind]. rewrite (pack_in_range fmt_i (len lines)) by (cbn; lia).
  cbn [bind fmt_size].
  match goal with
  | |- context [len ?hd + (len directory + 4)] =>
      assert (Hcur : len hd + (len directory + 4) = 24 + len directory)
        by (unfold len; rewrite !length_app, !length_le_bytes;
            cbn [List.length MAGIC_KEYWORD]; lia);
      rewrite Hcur
  end.
  fold (block0_offset (24 + len directory)).
  rewrite (pack_in_range fmt_i (block0_offset (24 + len directory)))
    by (cbn [fmt_min fmt_max]; lia).
  cbn [bind fmt_size]. unfold bytes_zero.
  replace (block0_offset (24 + len directory) - (24 + len directory) <? 0)
    with false by (symmetry; apply Z.ltb_ge; lia).
  cbn [bind]. rewrite fold_left_blocks. unfold header. cbn [app].
  now rewrite <- !app_assoc.
Qed.

Lemma input_bytes_lower (lines : lines_t) :
  all_encodable lines = true -> 2 * len lines <= input_bytes lines.
Proof.
  induction lines as [|[name line] lines IH]; intros H; [cbn; lia|].
  cbn [all_encodable forallb fst snd] in H.
  apply andb_true_iff in H as [Hl Hr]. apply andb_true_iff in Hl as [_ Hl].
  specialize (IH Hr). unfold input_bytes in *. cbn [map fold_right snd].
  destruct (encode_line_encodable line Hl) as [payload Hp].
  unfold payload_len at 1. rewrite Hp.
  apply encode_line_Ok in Hp as (us & _ & _ & Hlen).
  pose proof (len_nonneg us). unfold len in *. cbn [List.length]. lia.
Qed.

(** An input converts when its names and texts have no lone surrogate, no
    name has the hash 0 and the payloads together fit one block: with one
    unit of fuel more than there are pairs, [serialize] returns a file. *)
Lemma small_input_converts (lines : lines_t) :
  all_encodable lines = true ->
  (forall name line, In (name, line) lines -> name_hash name <> Ok 0) ->
  input_bytes lines <= BLOCK_SIZE ->
  exists file, serialize (S (List.length lines)) lines = Ok file.
Proof.
  intros Henc Hnz Hfit.
  pose proof (input_bytes_lower lines Henc) as Hcount.
  destruct (encode_lines_encodable lines [] [] Henc) as (cl & cs & Hrun).
  pose proof (encode_lines_encoded _ _ _ _ _ Hrun encoded_nil)
    as (Hnd & Hag & Hrange).
  assert (Hpn : positive_nonzero cs).
  { intros h n Hget. split; [apply Hrange in Hget; lia|].
    destruct (Hag h n Hget) as (payload & Hcl & _).
    destruct (encode_lines_payloads _ _ _ _ _ _ _ Hrun Hcl)
      as [Hnil|(name & line & Hin & Hh & _)]; [discriminate Hnil|].
    intros ->. exact (Hnz name line Hin Hh). }
  assert (Htot : total cs <= BLOCK_SIZE).
  { destruct (encode_lines_total _ _ _ _ _ Hrun) as [Ht _];
      [intros ? ? []|]. change (total []) with 0 in Ht. lia. }
  assert (Hlen : len cs <= len lines).
  { apply encode_lines_len_le in Hrun.
    change (len (@nil (Z * Z))) with 0 in Hrun. lia. }
  destruct (blocks_loop_fits cl (S (List.length lines)) cs [] Hnd Hag Hpn Htot)
    as [Hnoraise Hcountb].
  assert (Hhalt : blocks_loop (S (List.length lines)) cl cs [] <> OutOfFuel).
  { apply blocks_loop_halts; try assumption. unfold len in Hlen. lia. }
  destruct (blocks_loop (S (List.length lines)) cl cs []) as [blocks|e|] eqn:Hb;
    [|now elim (Hnoraise e)|now elim Hhalt].
  specialize (Hcountb blocks eq_refl). change (len (@nil BlockData)) with 0 in Hcountb.
  assert (Hcb : _createblocks (S (List.length lines)) lines = Ok blocks).
  { unfold _createblocks. rewrite Hrun. cbn [bind]. exact Hb. }
  assert (Hpack : Forall packable (indexed_records 0 blocks)).
  { apply (createblocks_packable _ _ _ Hcb). blia. }
  pose proof (createdirectory_packable blocks Hpack) as Hd.
  destruct (directory_record_count _ _ _ _ Hcb Hd)
    as (cl' & cs' & Hrun' & Hdl & Hcs' & _).
  rewrite Hrun in Hrun'. apply Ok_inj in Hrun'. injection Hrun' as <- <-.
  eexists. apply (serialize_returns _ _ _ _ Hcb Hd); [blia|blia|].
  set (d := flat_map record_bytes (indexed_records 0 blocks)) in *.
  pose proof (len_nonneg d).
  destruct (block0_offset_spec (24 + len d) ltac:(lia)) as (_ & _ & _ & Hup).
  blia.
Qed.

(** * Further properties of the code *)

(** ** [GetLineSized] *)

(** X1.  What a call of [GetLineSized] returns and does to the dict:
    [max_size] is the greatest length in the dict (0 when no length is
    positive, and then no hash is returned and the dict is untouched);
    the returned hash is a key that has this length; when the hash is not 0
    exactly its binding is deleted, every other binding stays; when it is 0
    the dict is left as it was. *)
Theorem GetLineSized_result (d : dict Z) (size : Z) :
  let '((chash, max_size), d') := GetLineSized d size in
  (forall k l, dict_get d k = Some l -> l <= max_size) /\
  match chash with
  | None => max_size = 0 /\ d' = d
  | Some h =>
      dict_get d h = Some max_size /\ 0 < max_size /\
      (h = 0 -> d' = d) /\
      (h <> 0 ->
       dict_get d' h = None /\
       (forall k, k <> h -> dict_get d' k = dict_get d k) /\
       (List.length d' < List.length d)%nat)
  end.
Proof.
  destruct (GetLineSized d size) as [[chash m] d'] eqn:E.
  apply GetLineSized_spec in E as [Hmax Hsel]. split; [exact Hmax|].
  destruct chash as [h|]; [|exact Hsel].
  destruct Hsel as (Hget & Hpos & ->).
  split; [exact Hget|]. split; [exact Hpos|]. split.
  - intros ->. reflexivity.
  - intros Hne. apply Z.eqb_neq in Hne. rewrite Hne.
    split; [apply dict_get_del_eq|]. split.
    + intros k Hk. apply dict_get_del_neq. congruence.
    + apply length_dict_del_lt. eapply dict_get_key, Hget.
Qed.

Lemma scan_items (d : dict Z) (l : dict Z) :
  (forall k v, In (k, v) l -> dict_get d k = Some v) ->
  forall acc,
    fold_left (GetLineSized_step d) (map fst l) acc =
    fold_left (fun a kv => if snd kv >? snd a
                           then (Some (fst kv), snd kv) else a) l acc.
Proof.
  induction l as [|[k v] l IH]; intros Hl acc; [reflexivity|].
  cbn [map fst fold_left snd]. rewrite IH.
  - f_equal. unfold GetLineSized_step. destruct acc as [c m].
    rewrite (Hl k v) by now left. cbn [snd]. now destruct (v >? m).
  - intros k' v' Hin. apply Hl. now right.
Qed.

Lemma scan_below (m : Z) (l : dict Z) :
  Forall (fun kv => snd kv < m) l ->
  forall acc : option Z * Z,
    snd acc < m ->
    snd (fold_left (fun a kv => if snd kv >? snd a
                                then (Some (fst kv), snd kv) else a) l acc)
    < m.
Proof.
  induction 1 as [|[k v] l Hv Hl IH]; intros acc Hacc; [exact Hacc|].
  cbn [fold_left]. apply IH. cbn [snd fst] in *.
  destruct (v >? snd acc); cbn [snd]; lia.
Qed.

Lemma scan_keep (c : option Z) (m : Z) (l : dict Z) :
  Forall (fun kv => snd kv <= m) l ->
  fold_left (fun a kv => if snd kv >? snd a
                         then (Some (fst kv), snd kv) else a) l (c, m)
  = (c, m).
Proof.
  induction 1 as [|[k v] l Hv Hl IH]; [reflexivity|].
  cbn [fold_left snd fst] in *.
  replace (v >? m) with false; [exact IH|].
  symmetry. rewrite Z.gtb_ltb. apply Z.ltb_ge. lia.
Qed.

(** X2.  Ties go to the entry inserted first: when the dict is
    [pre ++ (h, m) :: post] with every length of [pre] below [m] and every
    length of [post] at most [m], the call returns the hash [h]. *)
Theorem GetLineSized_first_longest (pre post : dict Z) (h m size : Z) :
  NoDup (dict_keys (pre ++ (h, m) :: post)) ->
  0 < m ->
  Forall (fun kv => snd kv < m) pre ->
  Forall (fun kv => snd kv <= m) post ->
  fst (GetLineSized (pre ++ (h, m) :: post) size) = (Some h, m).
Proof.
  intros Hnd Hm Hpre Hpost. unfold GetLineSized, dict_keys.
  rewrite scan_items by (intros k v Hin; now apply In_dict_get).
  rewrite fold_left_app. cbn [fold_left].
  pose proof (scan_below m pre Hpre (None, 0) Hm) as Hb.
  destruct (fold_left _ pre (None, 0)) as [c1 m1]. cbn [snd fst] in *.
  replace (m >? m1) with true by (symmetry; apply Z.gtb_lt; lia).
  rewrite (scan_keep (Some h) m post Hpost). reflexivity.
Qed.

Lemma GetLineSized_first_longest_witness :
  NoDup (dict_keys ([(7, 4)] ++ (8, 6) :: [(9, 6)])) /\
  fst (GetLineSized ([(7, 4)] ++ (8, 6) :: [(9, 6)]) 8192) = (Some 8, 6).
Proof.
  assert (H : NoDup (dict_keys ([(7, 4)] ++ (8, 6) :: [(9, 6)]))).
  { repeat constructor; cbn; intuition discriminate. }
  split; [exact H|].
  apply (GetLineSized_first_longest [(7, 4)] [(9, 6)] 8 6 8192 H).
  - lia.
  - repeat constructor.
  - repeat constructor; cbn; lia.
Defined.

(** ** [BlockData] *)

(** X3.  [Fill] pads a block of at most 8192 bytes with zeros to exactly
    8192 bytes, keeping its bytes in front and its records as they are; on a
    block that is longer it raises [ValueError]. *)
Theorem Fill_behaviour (b : BlockData) :
  (len (block b) <= 8192 ->
   exists z,
     Fill b = Ok (mkBlockData (line_data b) (block b ++ z)) /\
     z = repeat x00 (Z.to_nat (8192 - len (block b))) /\
     len (block b ++ z) = 8192) /\
  (8192 < len (block b) -> Fill b = Raise ValueError).
Proof.
  unfold Fill, bytes_zero. change BLOCK_SIZE with 8192. split; intros H.
  - replace (8192 - len (block b) <? 0) with false
      by (symmetry; apply Z.ltb_ge; lia).
    cbn [bind]. eexists. split; [reflexivity|]. split; [reflexivity|].
    rewrite len_app. unfold len at 2. rewrite repeat_length.
    pose proof (len_nonneg (block b)). lia.
  - replace (8192 - len (block b) <? 0) with true
      by (symmetry; apply Z.ltb_lt; lia).
    reflexivity.
Qed.

(** X4.  [AddLine] appends the payload and one record for it: the record
    holds the hash, the length of the block before the call as offset and the
    length of the payload; the slice it points at is the payload; and the
    slice of every record that lay inside the block before the call is
    unchanged. *)
Theorem AddLine_record (b : BlockData) (linehash : Z) (bytedata : bytes) :
  let b' := AddLine b linehash bytedata in
  let ld := mkLineData linehash (len (block b)) (len bytedata) in
  line_data b' = line_data b ++ [ld] /\
  block b' = block b ++ bytedata /\
  len (block b') = len (block b) + len bytedata /\
  slice (block b') ld = bytedata /\
  forall old,
    0 <= offset old -> 0 <= len_ old ->
    offset old + len_ old <= len (block b) ->
    slice (block b') old = slice (block b) old.
Proof.
  cbv zeta. cbn [AddLine line_data block].
  split; [reflexivity|]. split; [reflexivity|]. split; [apply len_app|].
  split.
  - unfold slice, len. cbn [offset len_].
    rewrite !Nat2Z.id, skipn_app, skipn_all, Nat.sub_diag. cbn [skipn app].
    apply firstn_all.
  - intros old Ho Hl Hb. now apply slice_app.
Qed.

(** ** The blocks of a returning [_createblocks] *)

(** Every payload of the working set is an encoded caption: at least the
    terminator, and an even number of bytes. *)
Lemma working_set_payload (lines : lines_t) (cl : dict bytes) (cs : dict Z)
    (h : Z) (payload : bytes) :
  encode_lines lines [] [] = Ok (cl, cs) ->
  dict_get cl h = Some payload ->
  2 <= len payload /\ len payload mod 2 = 0.
Proof.
  intros Henc Hget.
  destruct (encode_lines_payloads _ _ _ _ _ _ _ Henc Hget)
    as [Hnil|(name & line & _ & _ & He)]; [discriminate Hnil|].
  apply encode_line_Ok in He as (us & _ & _ & Hlen).
  pose proof (len_nonneg us). split; [lia|].
  rewrite Hlen. replace (2 * len us + 2) with ((len us + 1) * 2) by lia.
  apply Z.mod_mul. lia.
Qed.

(** X5.  When [_createblocks] returns, the records of its blocks are exactly
    the entries of the encoder's working set: every (hash, length) entry has
    one record, in one block, and no hash has two records. *)
Theorem createblocks_places_once (fuel : nat) (lines : lines_t)
    (blocks : list BlockData) :
  _createblocks fuel lines = Ok blocks ->
  exists cl cs,
    encode_lines lines [] [] = Ok (cl, cs) /\
    Permutation cs (entries_of blocks) /\
    NoDup (map fst (entries_of blocks)) /\
    (forall name line, In (name, line) lines ->
       exists h,
         name_hash name = Ok h /\ In h (map fst (entries_of blocks))).
Proof.
  intros Hrun.
  apply createblocks_spec in Hrun as (cl & cs & Henc & Hwf & _ & Hperm).
  exists cl, cs. split; [exact Henc|]. split; [exact Hperm|].
  destruct Hwf as (Hnd & _ & _).
  assert (Hk : Permutation (dict_keys cs) (map fst (entries_of blocks)))
    by now apply Permutation_map.
  split.
  - eapply Permutation_NoDup; [exact Hk|exact Hnd].
  - intros name line Hin.
    destruct (encode_lines_hashed _ _ _ _ _ _ Henc Hin) as [h Hh].
    exists h. split; [exact Hh|]. eapply Permutation_in; [exact Hk|].
    eapply encode_lines_key; [exact Henc|]. left. now exists name, line.
Qed.

Lemma createblocks_places_once_witness :
  _createblocks 5 scenario_B = Ok scenario_B_blocks /\
  exists cl cs,
    encode_lines scenario_B [] [] = Ok (cl, cs) /\
    Permutation cs (entries_of scenario_B_blocks) /\
    NoDup (map fst (entries_of scenario_B_blocks)) /\
    (forall name line, In (name, line) scenario_B ->
       exists h,
         name_hash name = Ok h /\
         In h (map fst (entries_of scenario_B_blocks))).
Proof.
  assert (H : _createblocks 5 scenario_B = Ok scenario_B_blocks)
    by (vm_compute; reflexivity).
  split; [exact H|].
  exact (createblocks_places_once 5 scenario_B scenario_B_blocks H).
Defined.

Lemma contiguous_app (l1 l2 : list LineData) :
  forall off,
    contiguous off l1 ->
    contiguous (off + fold_right Z.add 0 (map len_ l1)) l2 ->
    contiguous off (l1 ++ l2).
Proof.
  induction l1 as [|ld l1 IH]; intros off H1 H2; cbn [app map fold_right] in *.
  - now rewrite Z.add_0_r in H2.
  - destruct H1 as (Ho & Hl & Hrest). cbn [contiguous].
    split; [exact Ho|]. split; [exact Hl|].
    apply IH; [exact Hrest|]. now rewrite <- Z.add_assoc.
Qed.

Lemma placed_contiguous (cl : dict bytes) (lds : list LineData) (bs : bytes) :
  (forall h line, dict_get cl h = Some line -> 0 < len line) ->
  placed cl lds bs -> contiguous 0 lds.
Proof.
  intros Hpos. induction 1 as [|lds bs h line Hp IH Hg]; [exact I|].
  apply contiguous_app; [exact IH|].
  rewrite <- (placed_len _ _ _ Hp). cbn [contiguous offset len_].
  split; [lia|]. split; [exact (Hpos h line Hg)|exact I].
Qed.

(** X6.  In every block of a returning [_createblocks] the payloads lie end to
    end: the first record has offset 0, every other record starts where the
    one before it ends, every record has a positive length, and the records
    together take at most 8192 bytes. *)
Theorem createblocks_contiguous (fuel : nat) (lines : lines_t)
    (blocks : list BlockData) :
  _createblocks fuel lines = Ok blocks ->
  Forall (fun b => contiguous 0 (line_data b) /\ used_bytes b <= 8192) blocks.
Proof.
  intros Hrun.
  apply createblocks_spec in Hrun as (cl & cs & Henc & _ & Hall & _).
  eapply Forall_impl; [|exact Hall].
  intros b (bs & Hp & Hle & _). split.
  - apply (placed_contiguous cl _ bs); [|exact Hp].
    intros h line Hget.
    destruct (working_set_payload _ _ _ _ _ Henc Hget). lia.
  - unfold used_bytes. rewrite <- (placed_len _ _ _ Hp). exact Hle.
Qed.

Lemma createblocks_contiguous_witness :
  _createblocks 5 scenario_B = Ok scenario_B_blocks /\
  Forall (fun b => contiguous 0 (line_data b) /\ used_bytes b <= 8192)
         scenario_B_blocks.
Proof.
  assert (H : _createblocks 5 scenario_B = Ok scenario_B_blocks)
    by (vm_compute; reflexivity).
  split; [exact H|].
  exact (createblocks_contiguous 5 scenario_B scenario_B_blocks H).
Defined.

(** ** The order of placement *)

Lemma Fill_line_data (b b' : BlockData) :
  Fill b = Ok b' -> line_data b' = line_data b.
Proof.
  unfold Fill. intros H. inv_bind H. apply Ok_inj in H. now subst b'.
Qed.

Lemma last_cons {A : Type} (x d : A) (l : list A) :
  last (x :: l) d = last l x.
Proof.
  revert x d. induction l as [|y l IH]; intros x d; [reflexivity|].
  change (last (x :: y :: l) d) with (last (y :: l) d).
  now rewrite (IH y d), (IH y x).
Qed.

Lemma descending_from_app (l1 l2 : list Z) :
  forall bound,
    descending_from bound l1 -> descending_from (last l1 bound) l2 ->
    descending_from bound (l1 ++ l2).
Proof.
  induction l1 as [|x l1 IH]; intros bound H1 H2; [exact H2|].
  destruct H1 as [Hx Hrest]. cbn [app descending_from].
  split; [exact Hx|]. apply IH; [exact Hrest|]. now rewrite <- last_cons with (d := bound).
Qed.

Lemma descending_from_below (l : list Z) :
  forall bound, descending_from bound l -> Forall (fun y => y <= bound) l.
Proof.
  induction l as [|x l IH]; intros bound H; [constructor|].
  destruct H as [Hx Hrest]. constructor; [exact Hx|].
  eapply Forall_impl; [|exact (IH x Hrest)]. cbv beta. intros y Hy. lia.
Qed.

Lemma descending_from_split (pre rest : list Z) (x : Z) :
  forall bound,
    descending_from bound (pre ++ x :: rest) -> descending_from x rest.
Proof.
  induction pre as [|p pre IH]; intros bound H; cbn [app] in H.
  - exact (proj2 H).
  - exact (IH p (proj2 H)).
Qed.

(** A run of the inner loop places its entries longest first, none longer
    than [bound], and leaves only entries that are at most as long as the
    last one placed. *)
Lemma block_loop_descending (cl : dict bytes) (fuel : nat) :
  forall cs b rem cs' b' bound,
    block_loop fuel cl cs b rem = Ok (cs', b') ->
    dicts_agree cl cs ->
    (forall k l, dict_get cs k = Some l -> l <= bound) ->
    exists new,
      line_data b' = line_data b ++ new /\
      descending_from bound (map len_ new) /\
      (forall k l, dict_get cs' k = Some l ->
                   l <= last (map len_ new) bound).
Proof.
  induction fuel as [|fuel IH]; intros cs b rem cs' b' bound Hrun Hag Hb;
    [discriminate|].
  assert (Hstop : forall b0, Fill b = Ok b0 ->
            exists new,
              line_data b0 = line_data b ++ new /\
              descending_from bound (map len_ new) /\
              (forall k l, dict_get cs k = Some l ->
                           l <= last (map len_ new) bound)).
  { intros b0 HF. exists []. rewrite app_nil_r.
    split; [exact (Fill_line_data _ _ HF)|]. split; [exact I|exact Hb]. }
  cbn [block_loop] in Hrun.
  destruct (rem =? 0).
  - apply Ok_inj in Hrun. injection Hrun as <- <-.
    exists []. rewrite app_nil_r. split; [reflexivity|]. split; [exact I|exact Hb].
  - destruct (GetLineSized cs rem) as [[linehash size] cs1] eqn:EG.
    apply GetLineSized_spec in EG as [Hmax Hsel].
    destruct linehash as [h|].
    + destruct Hsel as (Hget & Hpos & ->). cbn [truthy] in Hrun.
      destruct (h =? 0) eqn:Eh; cbn [negb] in Hrun.
      * inv_bind Hrun. apply Ok_inj in Hrun. injection Hrun as <- <-.
        now apply Hstop.
      * inv_bind Hrun. rename a into line. apply getitem_Ok in E.
        destruct (Hag h size Hget) as (line' & Hline' & Hlen).
        assert (line' = line) by congruence. subst line'.
        apply (IH _ _ _ _ _ size) in Hrun as (new & Hld & Hdesc & Hrest).
        -- exists (mkLineData h (len (block b)) (len line) :: new).
           split; [rewrite Hld; cbn [AddLine line_data];
                   now rewrite <- app_assoc|].
           cbn [map len_ descending_from]. rewrite Hlen.
           split; [split; [exact (Hb h size Hget)|exact Hdesc]|].
           intros k l Hk. rewrite last_cons. exact (Hrest k l Hk).
        -- now apply dicts_agree_del.
        -- intros k l Hk. destruct (Z.eq_dec h k) as [->|Hne].
           ++ now rewrite dict_get_del_eq in Hk.
           ++ rewrite dict_get_del_neq in Hk by exact Hne.
              exact (Hmax k l Hk).
    + destruct Hsel as [_ ->]. inv_bind Hrun.
      apply Ok_inj in Hrun. injection Hrun as <- <-. now apply Hstop.
Qed.

Lemma blocks_loop_descending (cl : dict bytes) (fuel : nat) :
  forall cs blocks out bound,
    blocks_loop fuel cl cs blocks = Ok out ->
    NoDup (dict_keys cs) -> dicts_agree cl cs ->
    (forall k l, dict_get cs k = Some l -> l <= bound) ->
    exists added,
      out = blocks ++ added /\
      descending_from bound (map snd (entries_of added)).
Proof.
  induction fuel as [|fuel IH]; intros cs blocks out bound Hrun Hnd Hag Hb;
    [discriminate|].
  cbn [blocks_loop] in Hrun. destruct (len cs =? 0).
  - apply Ok_inj in Hrun. subst out. exists []. rewrite app_nil_r.
    split; [reflexivity|exact I].
  - inv_bind Hrun. destruct a as [cs1 b].
    destruct (block_loop_descending _ _ _ _ _ _ _ bound E Hag Hb)
      as (new & Hld & Hdesc & Hrest).
    apply block_loop_spec in E as (_ & _ & _ & _ & Hnd1 & Hag1);
      try assumption; [|constructor|reflexivity].
    apply (IH _ _ _ _ Hrun Hnd1 Hag1) in Hrest as (added & -> & Hdesc').
    exists (b :: added). split; [now rewrite <- app_assoc|].
    cbn [entries_of flat_map]. fold (entries_of added).
    rewrite map_app, map_map. cbn [line_data BlockData_init app] in Hld.
    rewrite Hld. change (fun x => snd (entry_of x)) with len_.
    now apply descending_from_app.
Qed.

Lemma dict_bound (cs : dict Z) :
  exists bound, forall k l, dict_get cs k = Some l -> l <= bound.
Proof.
  assert (H : exists bound, forall k l, In (k, l) cs -> l <= bound).
  { induction cs as [|[k0 v0] cs [bound IH]]; [exists 0; intros ? ? []|].
    exists (Z.max v0 bound). intros k l [[= <- <-]|Hin]; [lia|].
    specialize (IH k l Hin). lia. }
  destruct H as [bound H]. exists bound.
  intros k l Hget. apply (H k l). now apply dict_get_In.
Qed.

(** X7.  A returning [_createblocks] places the payloads longest first: in the
    sequence of all records, block after block, no record is longer than a
    record before it.  (The directory lists the records in this order.) *)
Theorem createblocks_longest_first (fuel : nat) (lines : lines_t)
    (blocks : list BlockData) :
  _createblocks fuel lines = Ok blocks ->
  forall pre x mid y post,
    map snd (entries_of blocks) = pre ++ x :: mid ++ y :: post -> y <= x.
Proof.
  intros Hrun pre x mid y post Hsplit.
  unfold _createblocks in Hrun. inv_bind Hrun. destruct a as [cl cs].
  pose proof (encode_lines_encoded _ _ _ _ _ E encoded_nil) as (Hnd & Hag & _).
  destruct (dict_bound cs) as [bound Hb].
  destruct (blocks_loop_descending _ _ _ _ _ bound Hrun Hnd Hag Hb)
    as (added & -> & Hdesc).
  cbn [app] in Hsplit. rewrite Hsplit in Hdesc.
  apply descending_from_split in Hdesc.
  apply descending_from_below in Hdesc.
  rewrite Forall_forall in Hdesc. apply Hdesc.
  apply in_or_app. right. now left.
Qed.

Lemma createblocks_longest_first_witness :
  _createblocks 5 [(txt "a", txt "x"); (txt "b", txt "xyz")]
    = Ok [mkBlockData [mkLineData 0x71beeff9 0 8; mkLineData 0xe8b7be43 8 4]
            ([x78; x00; x79; x00; x7a; x00; x00; x00; x78; x00; x00; x00] ++
             repeat x00 (Z.to_nat 8180))] /\
  4 <= 8.
Proof.
  assert (H : _createblocks 5 [(txt "a", txt "x"); (txt "b", txt "xyz")]
    = Ok [mkBlockData [mkLineData 0x71beeff9 0 8; mkLineData 0xe8b7be43 8 4]
            ([x78; x00; x79; x00; x7a; x00; x00; x00; x78; x00; x00; x00] ++
             repeat x00 (Z.to_nat 8180))])
    by (vm_compute; reflexivity).
  split; [exact H|].
  apply (createblocks_longest_first _ _ _ H [] 8 [] 4 []). reflexivity.
Defined.

(** ** Which blocks a returning run can have *)

Lemma dict_nonempty_get {V : Type} (d : dict V) :
  d <> [] -> exists k v, dict_get d k = Some v.
Proof.
  destruct d as [|[k v] d]; [contradiction|]. intros _.
  exists k, v. cbn [dict_get]. now rewrite Z.eqb_refl.
Qed.

(** A run of the inner loop that returns has emptied the dict, or has met
    the key 0, or has filled the block to the last byte. *)
Lemma block_loop_exit (cl : dict bytes) (fuel : nat) :
  forall cs b rem cs' b',
    block_loop fuel cl cs b rem = Ok (cs', b') ->
    dicts_agree cl cs ->
    (forall h n, dict_get cs h = Some n -> 0 < n) ->
    placed cl (line_data b) (block b) -> rem = BLOCK_SIZE - len (block b) ->
    cs' = [] \/ In 0 (dict_keys cs') \/ used_bytes b' = BLOCK_SIZE.
Proof.
  induction fuel as [|fuel IH]; intros cs b rem cs' b' Hrun Hag Hpos Hp Hcap;
    [discriminate|].
  cbn [block_loop] in Hrun. destruct (rem =? 0) eqn:E0.
  - apply Z.eqb_eq in E0. apply Ok_inj in Hrun. injection Hrun as <- <-.
    right. right. unfold used_bytes. rewrite <- (placed_len _ _ _ Hp). lia.
  - destruct (GetLineSized cs rem) as [[linehash size] cs1] eqn:EG.
    apply GetLineSized_spec in EG as [Hmax Hsel].
    destruct linehash as [h|].
    + destruct Hsel as (Hget & Hsz & ->). cbn [truthy] in Hrun.
      destruct (h =? 0) eqn:Eh; cbn [negb] in Hrun.
      * apply Z.eqb_eq in Eh. subst h. inv_bind Hrun.
        apply Ok_inj in Hrun. injection Hrun as <- <-.
        right. left. eapply dict_get_key, Hget.
      * inv_bind Hrun. rename a into line. apply getitem_Ok in E.
        destruct (Hag h size Hget) as (line' & Hline' & Hlen).
        assert (line' = line) by congruence. subst line'.
        apply IH in Hrun; [exact Hrun| | | |].
        -- now apply dicts_agree_del.
        -- intros k n Hk. destruct (Z.eq_dec h k) as [->|Hne].
           ++ now rewrite dict_get_del_eq in Hk.
           ++ rewrite dict_get_del_neq in Hk by exact Hne.
              exact (Hpos k n Hk).
        -- now apply placed_AddLine.
        -- cbn [AddLine block]. rewrite len_app. blia.
    + destruct Hsel as [Hm ->]. inv_bind Hrun.
      apply Ok_inj in Hrun. injection Hrun as <- <-. left.
      destruct cs as [|kv cs]; [reflexivity|]. exfalso.
      destruct (dict_nonempty_get (kv :: cs) ltac:(discriminate))
        as (k & v & Hk).
      specialize (Hmax k v Hk). specialize (Hpos k v Hk). lia.
Qed.

Lemma blocks_loop_nil (cl : dict bytes) (fuel : nat)
    (blocks out : list BlockData) :
  blocks_loop fuel cl [] blocks = Ok out -> out = blocks.
Proof.
  destruct fuel; [discriminate|]. cbn. now intros [= <-].
Qed.

Lemma blocks_loop_full (cl : dict bytes) (fuel : nat) :
  forall cs blocks out,
    blocks_loop fuel cl cs blocks = Ok out ->
    NoDup (dict_keys cs) -> dicts_agree cl cs ->
    (forall h n, dict_get cs h = Some n -> 0 < n) ->
    exists added,
      out = blocks ++ added /\
      (added = [] \/
       exists init final,
         added = init ++ [final] /\
         Forall (fun b => used_bytes b = BLOCK_SIZE) init).
Proof.
  induction fuel as [|fuel IH]; intros cs blocks out Hrun Hnd Hag Hpos;
    [discriminate|].
  cbn [blocks_loop] in Hrun. destruct (len cs =? 0).
  - apply Ok_inj in Hrun. subst out. exists []. rewrite app_nil_r.
    split; [reflexivity|now left].
  - inv_bind Hrun. destruct a as [cs1 b].
    pose proof (block_loop_exit _ _ _ _ _ _ _ E Hag Hpos (placed_nil cl)
                  eq_refl) as Hexit.
    apply block_loop_spec in E as (new & _ & _ & Hperm & Hnd1 & Hag1);
      try assumption; [|constructor|reflexivity].
    assert (Hpos1 : forall h n, dict_get cs1 h = Some n -> 0 < n).
    { intros h n Hget. apply (Hpos h n). apply In_dict_get; [exact Hnd|].
      eapply Permutation_in; [symmetry; exact Hperm|].
      apply in_or_app. right. now apply dict_get_In. }
    destruct Hexit as [->|[Hz|Hfull]].
    + apply blocks_loop_nil in Hrun. subst out.
      exists [b]. split; [reflexivity|]. right. exists [], b.
      split; [reflexivity|constructor].
    + exfalso. exact (blocks_loop_zero_key _ _ _ _ _ Hz Hrun).
    + apply IH in Hrun as (added & -> & Hshape); try assumption.
      exists (b :: added). split; [now rewrite <- app_assoc|]. right.
      destruct Hshape as [->|(init & final & -> & Hinit)].
      * exists [], b. split; [reflexivity|constructor].
      * exists (b :: init), final. split; [reflexivity|].
        now constructor.
Qed.

Lemma createblocks_all_but_last_full_aux (fuel : nat) (lines : lines_t)
    (init : list BlockData) (final : BlockData) :
  _createblocks fuel lines = Ok (init ++ [final]) ->
  Forall (fun b => used_bytes b = 8192) init.
Proof.
  intros Hrun. unfold _createblocks in Hrun. inv_bind Hrun.
  destruct a as [cl cs].
  pose proof (encode_lines_encoded _ _ _ _ _ E encoded_nil)
    as (Hnd & Hag & Hrange).
  apply blocks_loop_full in Hrun as (added & Hout & Hshape);
    try assumption.
  - cbn [app] in Hout. subst added.
    destruct Hshape as [Hnil|(init' & final' & Heq & Hinit)].
    + now destruct init.
    + apply app_inj_tail in Heq as [-> _]. exact Hinit.
  - intros h n Hget. apply Hrange in Hget. lia.
Qed.

(** X8.  When [_createblocks] returns more than one block, every block but
    the last is filled by payloads to the last byte: its records add up to
    exactly 8192 bytes and it has no padding. *)
Theorem createblocks_all_but_last_full (fuel : nat) (lines : lines_t)
    (init : list BlockData) (final : BlockData) :
  _createblocks fuel lines = Ok (init ++ [final]) ->
  Forall (fun b => used_bytes b = 8192) init.
Proof. apply createblocks_all_but_last_full_aux. Qed.

Lemma full_then_short_createblocks :
  _createblocks 5 full_then_short = Ok ([full_block] ++ [short_block]).
Proof. vm_compute. reflexivity. Qed.

Lemma createblocks_all_but_last_full_witness :
  _createblocks 5 full_then_short = Ok ([full_block] ++ [short_block]) /\
  Forall (fun b => used_bytes b = 8192) [full_block].
Proof.
  assert (H : _createblocks 5 full_then_short
              = Ok ([full_block] ++ [short_block]))
    by (vm_compute; reflexivity).
  split; [exact H|].
  exact (createblocks_all_but_last_full 5 full_then_short [full_block]
           short_block H).
Defined.

Lemma blocks_loop_nonempty (cl : dict bytes) (fuel : nat) :
  forall cs blocks out,
    blocks_loop fuel cl cs blocks = Ok out ->
    NoDup (dict_keys cs) -> dicts_agree cl cs ->
    (forall h n, dict_get cs h = Some n -> 0 < n) ->
    exists added,
      out = blocks ++ added /\ Forall (fun b => line_data b <> []) added.
Proof.
  induction fuel as [|fuel IH]; intros cs blocks out Hrun Hnd Hag Hpos;
    [discriminate|].
  cbn [blocks_loop] in Hrun. destruct (len cs =? 0) eqn:E0.
  - apply Ok_inj in Hrun. subst out. exists []. rewrite app_nil_r.
    split; [reflexivity|constructor].
  - assert (Hne : cs <> []) by (intros ->; discriminate E0).
    assert (Hz : ~ In 0 (dict_keys cs)).
    { intros Hz. exact (blocks_loop_zero_key cl (S fuel) cs blocks out Hz
                          ltac:(cbn [blocks_loop]; rewrite E0; exact Hrun)). }
    inv_bind Hrun. destruct a as [cs1 b].
    assert (Hpn : positive_nonzero cs).
    { intros h n Hget. split; [exact (Hpos h n Hget)|].
      intros ->. apply Hz. eapply dict_get_key, Hget. }
    pose proof (block_loop_progress _ _ _ _ _ _ _ E ltac:(lia) Hne Hnd Hag Hpn
                  (placed_nil cl) eq_refl) as Hlt.
    apply block_loop_spec in E as (new & Hld & _ & Hperm & Hnd1 & Hag1);
      try assumption; [|constructor|reflexivity].
    assert (Hpos1 : forall h n, dict_get cs1 h = Some n -> 0 < n).
    { intros h n Hget. apply (Hpos h n). apply In_dict_get; [exact Hnd|].
      eapply Permutation_in; [symmetry; exact Hperm|].
      apply in_or_app. right. now apply dict_get_In. }
    apply IH in Hrun as (added & -> & Hall); try assumption.
    exists (b :: added). split; [now rewrite <- app_assoc|].
    constructor; [|exact Hall].
    cbn [BlockData_init line_data app] in Hld. rewrite Hld.
    intros ->. apply Permutation_length in Hperm. cbn in Hperm. lia.
Qed.

Lemma len_entries_of_lower (blocks : list BlockData) :
  Forall (fun b => line_data b <> []) blocks ->
  len blocks <= len (entries_of blocks).
Proof.
  induction 1 as [|b blocks Hb Hall IH]; [reflexivity|].
  cbn [entries_of flat_map]. fold (entries_of blocks).
  rewrite len_app. unfold len in *. rewrite length_map. cbn [List.length].
  destruct (line_data b); [contradiction|]. cbn [List.length]. lia.
Qed.

Lemma createblocks_no_empty_block_aux (fuel : nat) (lines : lines_t)
    (blocks : list BlockData) :
  _createblocks fuel lines = Ok blocks ->
  Forall (fun b => line_data b <> []) blocks /\ len blocks <= len lines.
Proof.
  intros Hrun. pose proof Hrun as Hrun'.
  apply createblocks_spec in Hrun' as (cl & cs & Henc & Hwf & _ & Hperm).
  unfold _createblocks in Hrun. rewrite Henc in Hrun. cbn [bind] in Hrun.
  destruct Hwf as (Hnd & Hag & Hrange).
  apply blocks_loop_nonempty in Hrun as (added & Hout & Hall);
    try assumption.
  - cbn [app] in Hout. subst added. split; [exact Hall|].
    apply len_entries_of_lower in Hall.
    apply encode_lines_len_le in Henc.
    change (len (@nil (Z * Z))) with 0 in Henc.
    assert (len (entries_of blocks) = len cs)
      by (unfold len; now rewrite (Permutation_length Hperm)).
    lia.
  - intros h n Hget. apply Hrange in Hget. lia.
Qed.

(** X9.  A returning [_createblocks] never hands back a block without a
    record, so it returns at most as many blocks as the input has pairs. *)
Theorem createblocks_no_empty_block (fuel : nat) (lines : lines_t)
    (blocks : list BlockData) :
  _createblocks fuel lines = Ok blocks ->
  Forall (fun b => line_data b <> []) blocks /\ len blocks <= len lines.
Proof. apply createblocks_no_empty_block_aux. Qed.

Lemma createblocks_no_empty_block_witness :
  _createblocks 5 full_then_short = Ok ([full_block] ++ [short_block]) /\
  Forall (fun b => line_data b <> []) ([full_block] ++ [short_block]) /\
  len ([full_block] ++ [short_block]) <= len full_then_short.
Proof.
  assert (H : _createblocks 5 full_then_short
              = Ok ([full_block] ++ [short_block]))
    by (vm_compute; reflexivity).
  split; [exact H|].
  exact (createblocks_no_empty_block 5 full_then_short _ H).
Defined.

(** ** How a run can end *)

Lemma pack_outcome (f : fmt) (v : Z) :
  pack f v = Ok (le_bytes (fmt_size f) v) \/ pack f v = Raise StructError.
Proof. unfold pack. destruct (_ && _); [now left|now right]. Qed.

Lemma directory_lines_outcome (i : Z) (lds : list LineData) :
  forall directory,
    (exists out, directory_lines i lds directory = Ok out) \/
    directory_lines i lds directory = Raise StructError.
Proof.
  induction lds as [|ld lds IH]; intros directory; [left; now eexists|].
  cbn [directory_lines].
  destruct (pack_outcome fmt_I (hash ld)) as [-> | ->]; cbn [bind];
    [|now right].
  destruct (pack_outcome fmt_I i) as [-> | ->]; cbn [bind]; [|now right].
  destruct (pack_outcome fmt_H (offset ld)) as [-> | ->]; cbn [bind];
    [|now right].
  destruct (pack_outcome fmt_H (len_ ld)) as [-> | ->]; cbn [bind];
    [|now right].
  apply IH.
Qed.

Lemma directory_blocks_outcome (blocks : list BlockData) :
  forall i directory,
    (exists out, directory_blocks i blocks directory = Ok out) \/
    directory_blocks i blocks directory = Raise StructError.
Proof.
  induction blocks as [|b blocks IH]; intros i directory;
    [left; now eexists|].
  cbn [directory_blocks].
  destruct (directory_lines_outcome i (line_data b) directory)
    as [[out ->]| ->]; cbn [bind]; [apply IH|now right].
Qed.

(** X10.  [_createdirectory] returns exactly when every record can be
    packed: hash and block index below 2^32, offset and length below 2^16,
    none negative.  It then returns 12 bytes per record; otherwise it raises
    the error of [struct.pack] and nothing else. *)
Theorem createdirectory_outcome (blocks : list BlockData) :
  (Forall packable (indexed_records 0 blocks) ->
   _createdirectory blocks =
     Ok (flat_map record_bytes (indexed_records 0 blocks)) /\
   len (flat_map record_bytes (indexed_records 0 blocks)) =
     12 * len (indexed_records 0 blocks)) /\
  (~ Forall packable (indexed_records 0 blocks) ->
   _createdirectory blocks = Raise StructError).
Proof.
  split.
  - intros H. split; [now apply createdirectory_packable|].
    apply len_flat_map_record_bytes.
  - intros H. unfold _createdirectory.
    destruct (directory_blocks_outcome blocks 0 []) as [[out Hout]|Hr];
      [|exact Hr].
    exfalso. apply H. now apply directory_blocks_Ok in Hout as [_ Hp].
Qed.

Lemma block_loop_raises (cl : dict bytes) (fuel : nat) :
  forall cs b rem e,
    block_loop fuel cl cs b rem = Raise e ->
    dicts_agree cl cs -> e = ValueError.
Proof.
  induction fuel as [|fuel IH]; intros cs b rem e Hrun Hag; [discriminate|].
  assert (HFill : forall cs0 : dict Z,
             bind (Fill b) (fun block => Ok (cs0, block)) = Raise e ->
             e = ValueError).
  { intros cs0. unfold Fill, bytes_zero.
    destruct (BLOCK_SIZE - len (block b) <? 0); cbn [bind];
      [congruence|discriminate]. }
  cbn [block_loop] in Hrun. destruct (rem =? 0); [discriminate|].
  destruct (GetLineSized cs rem) as [[linehash size] cs1] eqn:EG.
  apply GetLineSized_spec in EG as [_ Hsel].
  destruct linehash as [h|].
  - destruct Hsel as (Hget & _ & ->). cbn [truthy] in Hrun.
    destruct (h =? 0); cbn [negb] in Hrun.
    + exact (HFill _ Hrun).
    + destruct (Hag h size Hget) as (line & Hline & _).
      unfold getitem in Hrun. rewrite Hline in Hrun. cbn [bind] in Hrun.
      apply IH in Hrun; [exact Hrun|]. now apply dicts_agree_del.
  - destruct Hsel as [_ ->]. exact (HFill _ Hrun).
Qed.

Lemma blocks_loop_raises (cl : dict bytes) (fuel : nat) :
  forall cs blocks e,
    blocks_loop fuel cl cs blocks = Raise e ->
    NoDup (dict_keys cs) -> dicts_agree cl cs -> e = ValueError.
Proof.
  induction fuel as [|fuel IH]; intros cs blocks e Hrun Hnd Hag;
    [discriminate|].
  cbn [blocks_loop] in Hrun. destruct (len cs =? 0); [discriminate|].
  destruct (block_loop (S fuel) cl cs BlockData_init 8192)
    as [[cs1 b]|e'|] eqn:E; cbn [bind] in Hrun.
  - apply block_loop_spec in E as (_ & _ & _ & _ & Hnd1 & Hag1);
      try assumption; [|constructor|reflexivity].
    exact (IH _ _ _ Hrun Hnd1 Hag1).
  - injection Hrun as <-. exact (block_loop_raises _ _ _ _ _ _ E Hag).
  - discriminate.
Qed.

(** After a returning [_createblocks], [serialize] returns or raises the
    error of [struct.pack]. *)
Lemma serialize_after_createblocks (fuel : nat) (lines : lines_t)
    (blocks : list BlockData) :
  _createblocks fuel lines = Ok blocks ->
  (exists file, serialize fuel lines = Ok file) \/
  serialize fuel lines = Raise StructError.
Proof.
  intros Hb. unfold serialize. rewrite Hb. cbn [bind].
  destruct (directory_blocks_outcome blocks 0 []) as [[directory Hd]|Hd];
    unfold _createdirectory; rewrite Hd; cbn [bind]; [|now right].
  rewrite (pack_in_range fmt_i VERSION) by (cbn; unfold VERSION; lia).
  cbn [bind].
  destruct (pack_outcome fmt_i (len blocks)) as [-> | ->]; cbn [bind];
    [|now right].
  rewrite (pack_in_range fmt_i BLOCK_SIZE) by (cbn; unfold BLOCK_SIZE; lia).
  cbn [bind].
  destruct (pack_outcome fmt_i (len lines)) as [-> | ->]; cbn [bind];
    [|now right].
  cbn [fmt_size].
  match goal with
  | |- context [len ?hd + (len directory + 4)] =>
      assert (Hcur : len hd + (len directory + 4) = 24 + len directory)
        by (unfold len; rewrite !length_app, !length_le_bytes;
            cbn [List.length MAGIC_KEYWORD]; lia);
      rewrite Hcur
  end.
  fold (block0_offset (24 + len directory)).
  destruct (pack_outcome fmt_i (block0_offset (24 + len directory)))
    as [-> | ->]; cbn [bind]; [|now right].
  pose proof (len_nonneg directory).
  destruct (block0_offset_spec (24 + len directory) ltac:(lia))
    as (_ & _ & Hlt & _).
  unfold bytes_zero.
  replace (block0_offset (24 + len directory) - (24 + len directory) <? 0)
    with false by (symmetry; apply Z.ltb_ge; lia).
  cbn [bind]. left. now eexists.
Qed.

(** X11.  The only ways [serialize] can raise: [UnicodeEncodeError],
    exactly when a name or a text of the input has a lone surrogate (line 72
    raises it for a name, line 73 for a text), with any fuel; [ValueError],
    from the zero fill of an overfull block, only when every name and every
    text can be encoded; the error of [struct.pack], only after the blocks
    were built.  In particular [crc_line[linehash]] never raises
    [KeyError]. *)
Theorem serialize_raises (fuel : nat) (lines : lines_t) :
  (all_encodable lines = false ->
   serialize fuel lines = Raise UnicodeEncodeError) /\
  (forall e, serialize fuel lines = Raise e ->
     (e = UnicodeEncodeError /\ all_encodable lines = false) \/
     (e = ValueError /\ all_encodable lines = true /\
      _createblocks fuel lines = Raise ValueError) \/
     (e = StructError /\
      exists blocks, _createblocks fuel lines = Ok blocks)).
Proof.
  split.
  - intros Henc. unfold serialize, _createblocks.
    now rewrite (encode_lines_unencodable lines [] [] Henc).
  - intros e Hrun.
    destruct (_createblocks fuel lines) as [blocks|e'|] eqn:Hb.
    + right. right.
      destruct (serialize_after_createblocks _ _ _ Hb) as [[file Hf]|Hs];
        [congruence|].
      split; [congruence|]. now exists blocks.
    + assert (e' = e).
      { unfold serialize in Hrun. rewrite Hb in Hrun. cbn [bind] in Hrun.
        congruence. }
      subst e'. unfold _createblocks in Hb.
      destruct (all_encodable lines) eqn:Henc.
      * right. left.
        destruct (encode_lines_encodable lines [] [] Henc) as (cl & cs & Hl).
        rewrite Hl in Hb. cbn [bind] in Hb.
        pose proof (encode_lines_encoded _ _ _ _ _ Hl encoded_nil)
          as (Hnd & Hag & _).
        pose proof (blocks_loop_raises _ _ _ _ _ Hb Hnd Hag). subst e.
        repeat split.
      * left. rewrite (encode_lines_unencodable lines [] [] Henc) in Hb.
        cbn [bind] in Hb. split; [congruence|reflexivity].
    + unfold serialize in Hrun. rewrite Hb in Hrun. discriminate Hrun.
Qed.

Lemma serialize_raises_witness :
  (all_encodable [([0xD800], txt "x")] = false /\
   serialize 5 [([0xD800], txt "x")] = Raise UnicodeEncodeError) /\
  (all_encodable [(txt "a", [0xDC00])] = false /\
   serialize 5 [(txt "a", [0xDC00])] = Raise UnicodeEncodeError) /\
  serialize 5 two_long = Raise ValueError /\
  ((ValueError = UnicodeEncodeError /\ all_encodable two_long = false) \/
   (ValueError = ValueError /\ all_encodable two_long = true /\
    _createblocks 5 two_long = Raise ValueError) \/
   (ValueError = StructError /\
    exists blocks, _createblocks 5 two_long = Ok blocks)).
Proof.
  assert (H : serialize 5 two_long = Raise ValueError)
    by (vm_compute; reflexivity).
  split; [|split; [|split; [exact H|]]].
  - split; [reflexivity|].
    apply (proj1 (serialize_raises 5 [([0xD800], txt "x")])). reflexivity.
  - split; [reflexivity|].
    apply (proj1 (serialize_raises 5 [(txt "a", [0xDC00])])). reflexivity.
  - exact (proj2 (serialize_raises 5 two_long) ValueError H).
Defined.

(** ** When a run ends, and when it returns *)

(** X12.  The loops of [serialize] end for every input in which no name has
    the hash 0: with more fuel than the input has pairs, the run returns a
    file or raises; it is never still running. *)
Theorem serialize_halts (fuel : nat) (lines : lines_t) :
  (forall name line, In (name, line) lines -> name_hash name <> Ok 0) ->
  (List.length lines < fuel)%nat ->
  serialize fuel lines <> OutOfFuel.
Proof.
  intros Hnz Hfuel Hrun.
  pose proof (createblocks_halts fuel lines Hnz Hfuel) as Hh.
  destruct (_createblocks fuel lines) as [blocks|e|] eqn:Hb.
  - destruct (serialize_after_createblocks _ _ _ Hb) as [[file Hf]|Hs];
      congruence.
  - unfold serialize in Hrun. rewrite Hb in Hrun. discriminate Hrun.
  - now elim Hh.
Qed.

Lemma serialize_halts_witness :
  (List.length two_long < 5)%nat /\ serialize 5 two_long <> OutOfFuel.
Proof.
  split; [cbn; lia|].
  apply (serialize_halts 5 two_long).
  - intros name line [[= <- <-]|[[= <- <-]|[]]]; vm_compute; discriminate.
  - cbn; lia.
Defined.

(** X13.  An input with a name whose hash is 0 never gets an output: neither
    [_createblocks] nor [serialize] returns a value, whatever the fuel. *)
Theorem serialize_zero_hash (fuel : nat) (lines : lines_t) (name : text)
    (line : text) :
  In (name, line) lines -> name_hash name = Ok 0 ->
  returned (_createblocks fuel lines) = false /\
  returned (serialize fuel lines) = false.
Proof.
  intros Hin Hz.
  assert (H : returned (_createblocks fuel lines) = false).
  { destruct (_createblocks fuel lines) as [blocks| |] eqn:Hb;
      [|reflexivity|reflexivity].
    now elim (createblocks_zero_hash fuel lines name line blocks Hin Hz). }
  split; [exact H|]. unfold serialize.
  destruct (_createblocks fuel lines); [discriminate H|reflexivity|reflexivity].
Qed.

Lemma serialize_zero_hash_witness :
  In (txt "Xohetvi", txt "Hi")
     [(txt "a", txt "x"); (txt "Xohetvi", txt "Hi")] /\
  name_hash (txt "Xohetvi") = Ok 0 /\
  returned (_createblocks 9 [(txt "a", txt "x");
                             (txt "Xohetvi", txt "Hi")]) = false /\
  returned (serialize 9 [(txt "a", txt "x");
                         (txt "Xohetvi", txt "Hi")]) = false.
Proof.
  assert (H1 : In (txt "Xohetvi", txt "Hi")
                  [(txt "a", txt "x"); (txt "Xohetvi", txt "Hi")])
    by (right; left; reflexivity).
  assert (H2 : name_hash (txt "Xohetvi") = Ok 0) by (vm_compute; reflexivity).
  split; [exact H1|]. split; [exact H2|].
  exact (serialize_zero_hash 9 _ _ _ H1 H2).
Defined.

Lemma total_entries_of (blocks : list BlockData) :
  total (entries_of blocks) = fold_right Z.add 0 (map used_bytes blocks).
Proof.
  induction blocks as [|b blocks IH]; [reflexivity|].
  cbn [entries_of flat_map map fold_right]. fold (entries_of blocks).
  rewrite total_app, IH. f_equal. unfold total, used_bytes.
  rewrite map_map. reflexivity.
Qed.

(** X14.  An input converts into a file with at most one block when its
    names and its texts have no lone surrogate, no name has the hash 0 and
    the payloads together take at most 8192 bytes: with one unit of fuel
    more than there are pairs, [serialize] returns, and the file is the
    offset plus 8192 bytes per block long. *)
Theorem fitting_input_one_block (lines : lines_t) :
  all_encodable lines = true ->
  (forall name line, In (name, line) lines -> name_hash name <> Ok 0) ->
  input_bytes lines <= BLOCK_SIZE ->
  exists file blocks directory,
    serialize (S (List.length lines)) lines = Ok file /\
    _createblocks (S (List.length lines)) lines = Ok blocks /\
    _createdirectory blocks = Ok directory /\
    len blocks <= 1 /\
    (lines <> [] -> len blocks = 1) /\
    len file = block0_offset (24 + len directory) + 8192 * len blocks.
Proof.
  intros Henc Hnz Hfit.
  destruct (small_input_converts lines Henc Hnz Hfit) as [file Hfile].
  pose proof Hfile as Hshape.
  apply serialize_Ok in Hshape
    as (blocks & directory & Hb & Hd & _ & _ & _ & Hlayout).
  exists file, blocks, directory.
  split; [exact Hfile|]. split; [exact Hb|]. split; [exact Hd|].
  destruct (createblocks_spec _ _ _ Hb)
    as (cl & cs & Hrun & Hwf & Hall & Hperm).
  destruct (createblocks_no_empty_block_aux _ _ _ Hb) as [Hne _].
  assert (Htot : total cs <= BLOCK_SIZE).
  { destruct (encode_lines_total _ _ _ _ _ Hrun) as [Ht _];
      [intros ? ? []|]. change (total []) with 0 in Ht. lia. }
  rewrite (total_Permutation _ _ Hperm), total_entries_of in Htot.
  assert (Hused : forall b, In b blocks -> 0 < used_bytes b).
  { intros b Hin. rewrite Forall_forall in Hall, Hne.
    destruct (Hall b Hin) as (bs & Hp & _ & _).
    specialize (Hne b Hin). unfold used_bytes.
    assert (Hc : contiguous 0 (line_data b)).
    { apply (placed_contiguous cl _ bs); [|exact Hp].
      intros h line Hget.
      destruct (working_set_payload _ _ _ _ _ Hrun Hget). lia. }
    destruct (line_data b) as [|ld lds]; [contradiction|].
    assert (Hpos : forall off l, contiguous off l ->
                                 0 <= fold_right Z.add 0 (map len_ l)).
    { intros off l. revert off.
      induction l as [|x l IHl]; intros off Hl; cbn [map fold_right]; [lia|].
      destruct Hl as (_ & Hx & Hr). specialize (IHl _ Hr). lia. }
    destruct Hc as (_ & Hld & Hrest). cbn [map fold_right].
    specialize (Hpos _ _ Hrest). lia. }
  assert (Hone : len blocks <= 1).
  { destruct blocks as [|b1 [|b2 rest]]; [cbn; lia|cbn; lia|exfalso].
    destruct (exists_last (l := b1 :: b2 :: rest) ltac:(discriminate))
      as (init & final & Heq).
    rewrite Heq in Hb.
    pose proof (createblocks_all_but_last_full_aux _ _ _ _ Hb) as Hfull.
    destruct init as [|i0 init]; [discriminate Heq|].
    injection Heq as <- Heq. inversion Hfull as [|? ? Hf _]; subst.
    cbn [map fold_right] in Htot.
    pose proof (Hused b2 ltac:(right; left; reflexivity)).
    assert (0 <= fold_right Z.add 0 (map used_bytes rest)).
    { clear -Hused. induction rest as [|r rest IH]; cbn [map fold_right];
        [lia|].
      assert (0 < used_bytes r) by (apply Hused; right; right; now left).
      assert (0 <= fold_right Z.add 0 (map used_bytes rest)).
      { apply IH. intros b [Hb|[Hb|Hb]]; apply Hused;
          [now left|right; now left|right; right; now right]. }
      lia. }
    blia. }
  split; [exact Hone|]. split.
  - intros Hlines. pose proof (len_nonneg blocks).
    destruct blocks as [|b0 rest]; [exfalso|unfold len in *; cbn in *; lia].
    cbn [entries_of flat_map] in Hperm.
    apply Permutation_sym, Permutation_nil in Hperm. subst cs.
    destruct lines as [|[n l] lines]; [contradiction|].
    destruct (encode_lines_hashed _ _ _ _ n l Hrun (or_introl eq_refl))
      as [h Hh].
    apply (encode_lines_key _ _ _ _ _ h Hrun). left. exists n, l.
    split; [now left|exact Hh].
  - subst file. rewrite !len_app, len_header, (len_concat_blocks cl _ Hall).
    unfold len at 2. rewrite repeat_length.
    pose proof (len_nonneg directory).
    destruct (block0_offset_spec (24 + len directory) ltac:(lia))
      as (_ & _ & Hlt & _). blia.
Qed.

Lemma fitting_input_one_block_witness :
  all_encodable scenario_B = true /\
  input_bytes scenario_B <= BLOCK_SIZE /\
  exists file blocks directory,
    serialize (S (List.length scenario_B)) scenario_B = Ok file /\
    _createblocks (S (List.length scenario_B)) scenario_B = Ok blocks /\
    _createdirectory blocks = Ok directory /\
    len blocks <= 1 /\
    (scenario_B <> [] -> len blocks = 1) /\
    len file = block0_offset (24 + len directory) + 8192 * len blocks.
Proof.
  assert (H1 : all_encodable scenario_B = true) by reflexivity.
  assert (H2 : input_bytes scenario_B <= BLOCK_SIZE)
    by (vm_compute; discriminate).
  split; [exact H1|]. split; [exact H2|].
  apply (fitting_input_one_block scenario_B H1); [|exact H2].
  intros name line [[= <- <-]|[]]. vm_compute. discriminate.
Defined.

(** ** Reading the file back *)

Lemma field_header_version (nb ne off : Z) (rest : bytes) :
  field (header nb ne off ++ rest) 4 4 = le_bytes 4 VERSION.
Proof.
  unfold header.
  pose proof (field_le_bytes 4 VERSION MAGIC_KEYWORD
                (le_bytes 4 nb ++ le_bytes 4 BLOCK_SIZE ++ le_bytes 4 ne ++
                 le_bytes 4 off ++ rest)) as F.
  cbn [List.length MAGIC_KEYWORD] in F.
  rewrite <- F; f_equal; now rewrite <- !app_assoc.
Qed.

Lemma field_header_blocks (nb ne off : Z) (rest : bytes) :
  field (header nb ne off ++ rest) 8 4 = le_bytes 4 nb.
Proof.
  unfold header.
  pose proof (field_le_bytes 4 nb (MAGIC_KEYWORD ++ le_bytes 4 VERSION)
                (le_bytes 4 BLOCK_SIZE ++ le_bytes 4 ne ++
                 le_bytes 4 off ++ rest)) as F.
  rewrite !length_app, !length_le_bytes in F. cbn [List.length Nat.add] in F.
  rewrite <- F; f_equal; now rewrite <- !app_assoc.
Qed.

Lemma field_header_block_size (nb ne off : Z) (rest : bytes) :
  field (header nb ne off ++ rest) 12 4 = le_bytes 4 BLOCK_SIZE.
Proof.
  unfold header.
  pose proof (field_le_bytes 4 BLOCK_SIZE
                (MAGIC_KEYWORD ++ le_bytes 4 VERSION ++ le_bytes 4 nb)
                (le_bytes 4 ne ++ le_bytes 4 off ++ rest)) as F.
  rewrite !length_app, !length_le_bytes in F. cbn [List.length Nat.add] in F.
  rewrite <- F; f_equal; now rewrite <- !app_assoc.
Qed.

(** X15.  Reading back the header of a file that [serialize] returned: the
    first four bytes are "VCCD", and the five little-endian 32-bit fields
    after them are the version 1, the number of blocks, the block size 8192,
    the number of input pairs and the first-block offset. *)
Theorem serialize_header_fields (fuel : nat) (lines : lines_t) (file : bytes) :
  serialize fuel lines = Ok file ->
  exists blocks directory,
    _createblocks fuel lines = Ok blocks /\
    _createdirectory blocks = Ok directory /\
    field file 0 4 = [x56; x43; x43; x44] /\
    le_decode (field file 4 4) = 1 /\
    le_decode (field file 8 4) = len blocks /\
    le_decode (field file 12 4) = 8192 /\
    le_decode (field file 16 4) = len lines /\
    le_decode (field file 20 4) = block0_offset (24 + len directory).
Proof.
  intros H.
  apply serialize_Ok in H
    as (blocks & directory & Hb & Hd & Hnb & Hnl & Hoff & ->).
  exists blocks, directory. split; [exact Hb|]. split; [exact Hd|].
  pose proof (len_nonneg blocks). pose proof (len_nonneg lines).
  pose proof (len_nonneg directory).
  destruct (block0_offset_spec (24 + len directory) ltac:(lia))
    as (Hpos & _ & _ & _).
  split; [reflexivity|].
  rewrite field_header_version, field_header_blocks, field_header_block_size,
    field_header_entries, field_header_block0.
  repeat split; try reflexivity;
    apply le_decode_le_bytes_small;
    change (256 ^ Z.of_nat 4) with 4294967296; lia.
Qed.

Lemma serialize_header_fields_witness :
  serialize 5 scenario_B = Ok scenario_B_file /\
  exists blocks directory,
    _createblocks 5 scenario_B = Ok blocks /\
    _createdirectory blocks = Ok directory /\
    field scenario_B_file 0 4 = [x56; x43; x43; x44] /\
    le_decode (field scenario_B_file 4 4) = 1 /\
    le_decode (field scenario_B_file 8 4) = len blocks /\
    le_decode (field scenario_B_file 12 4) = 8192 /\
    le_decode (field scenario_B_file 16 4) = len scenario_B /\
    le_decode (field scenario_B_file 20 4) = block0_offset (24 + len directory).
Proof.
  assert (H : serialize 5 scenario_B = Ok scenario_B_file)
    by (vm_compute; reflexivity).
  split; [exact H|].
  exact (serialize_header_fields 5 scenario_B scenario_B_file H).
Defined.

Lemma firstn_app_exact {A : Type} (n : nat) (l1 l2 : list A) :
  List.length l1 = n -> firstn n (l1 ++ l2) = l1.
Proof.
  intros <-. rewrite firstn_app, Nat.sub_diag, firstn_O, app_nil_r.
  apply firstn_all.
Qed.

Lemma skipn_app_plus {A : Type} (n k : nat) (l1 l2 : list A) :
  List.length l1 = n -> skipn (n + k) (l1 ++ l2) = skipn k l2.
Proof.
  intros <-. rewrite skipn_app, skipn_all2 by lia.
  cbn [app]. f_equal. lia.
Qed.

Lemma concat_chunk {A : Type} (n : nat) (ls : list (list A)) :
  Forall (fun l => List.length l = n) ls ->
  forall i x, nth_error ls i = Some x ->
              firstn n (skipn (i * n) (List.concat ls)) = x.
Proof.
  induction 1 as [|l ls Hl Hall IH]; intros i x Hnth;
    [destruct i; discriminate Hnth|].
  destruct i as [|i]; cbn [nth_error] in Hnth.
  - injection Hnth as <-. cbn [Nat.mul skipn List.concat].
    now apply firstn_app_exact.
  - cbn [Nat.mul List.concat]. rewrite skipn_app_plus by exact Hl.
    now apply IH.
Qed.

(** In a returned file the block number [i] is the 8192 bytes that start
    8192 * i bytes after the first-block offset. *)
Lemma serialize_block_at (fuel : nat) (lines : lines_t) (file : bytes)
    (blocks : list BlockData) (directory : bytes) :
  serialize fuel lines = Ok file ->
  _createblocks fuel lines = Ok blocks ->
  _createdirectory blocks = Ok directory ->
  forall i b,
    nth_error blocks i = Some b ->
    firstn (Z.to_nat 8192)
      (skipn (Z.to_nat (block0_offset (24 + len directory)
                        + 8192 * Z.of_nat i)) file)
    = block b.
Proof.
  intros H Hb Hd i b Hnth.
  apply serialize_Ok in H
    as (blocks' & directory' & Hb' & Hd' & _ & _ & _ & ->).
  assert (blocks' = blocks) by congruence. subst blocks'.
  assert (directory' = directory) by congruence. subst directory'.
  destruct (createblocks_spec _ _ _ Hb) as (cl & cs & _ & _ & Hall & _).
  pose proof (len_nonneg directory) as Hdir.
  destruct (block0_offset_spec (24 + len directory) ltac:(lia))
    as (Hpos & _ & Hlt & _).
  set (off := block0_offset (24 + len directory)) in *.
  set (pad := repeat x00 (Z.to_nat (off - (24 + len directory)))).
  assert (Hpre : List.length (header (len blocks) (len lines) off ++
                              directory ++ pad) = Z.to_nat off).
  { pose proof (len_header (len blocks) (len lines) off) as Hh.
    unfold len in Hh, Hdir, Hlt. rewrite !length_app. unfold pad.
    rewrite repeat_length. unfold len. lia. }
  replace (header (len blocks) (len lines) off ++ directory ++ pad ++
           List.concat (map block blocks))
    with ((header (len blocks) (len lines) off ++ directory ++ pad) ++
          List.concat (map block blocks))
    by now rewrite <- !app_assoc.
  replace (Z.to_nat (off + 8192 * Z.of_nat i))
    with (Z.to_nat off + i * Z.to_nat 8192)%nat by lia.
  rewrite skipn_app_plus by exact Hpre.
  apply concat_chunk.
  - rewrite Forall_map. eapply Forall_impl; [|exact Hall].
    intros b0 Hok. pose proof (block_ok_len cl b0 Hok) as Hl.
    unfold len, BLOCK_SIZE in Hl. lia.
  - now apply map_nth_error.
Qed.

(** X16.  The layout of a returned file: the directory is the bytes from
    position 24 on, zeros follow up to the first-block offset, and block
    number [i] is the 8192 bytes at offset + 8192 * i.  The offset and the
    length of the file are multiples of 512, so every block starts on a
    512-byte boundary. *)
Theorem serialize_layout (fuel : nat) (lines : lines_t) (file : bytes) :
  serialize fuel lines = Ok file ->
  exists blocks directory,
    _createblocks fuel lines = Ok blocks /\
    _createdirectory blocks = Ok directory /\
    let off := block0_offset (24 + len directory) in
    firstn (List.length directory) (skipn 24 file) = directory /\
    firstn (Z.to_nat (off - (24 + len directory)))
           (skipn (24 + List.length directory) file)
    = repeat x00 (Z.to_nat (off - (24 + len directory))) /\
    (forall i b,
       nth_error blocks i = Some b ->
       firstn (Z.to_nat 8192)
              (skipn (Z.to_nat (off + 8192 * Z.of_nat i)) file) = block b) /\
    off mod 512 = 0 /\ len file mod 512 = 0 /\
    (forall i : Z, (off + 8192 * i) mod 512 = 0).
Proof.
  intros H. pose proof H as H'.
  apply serialize_Ok in H'
    as (blocks & directory & Hb & Hd & _ & _ & _ & Hfile).
  exists blocks, directory. split; [exact Hb|]. split; [exact Hd|].
  cbv zeta.
  pose proof (serialize_block_at _ _ _ _ _ H Hb Hd) as Hblk.
  destruct (createblocks_spec _ _ _ Hb) as (cl & cs & _ & _ & Hall & _).
  pose proof (len_nonneg directory) as Hdir.
  destruct (block0_offset_spec (24 + len directory) ltac:(lia))
    as (Hpos & Hmod & Hlt & _).
  set (off := block0_offset (24 + len directory)) in *.
  assert (Hh : List.length (header (len blocks) (len lines) off) = 24%nat).
  { pose proof (len_header (len blocks) (len lines) off) as Hh.
    unfold len at 1 in Hh. lia. }
  assert (Hstep : forall i : Z, (off + 8192 * i) mod 512 = 0).
  { intros i. replace (off + 8192 * i) with (off + (16 * i) * 512) by lia.
    rewrite Z.mod_add by lia. exact Hmod. }
  split; [|split; [|split; [exact Hblk|split; [exact Hmod|split]]]].
  - subst file.
    replace 24%nat with (24 + 0)%nat by lia.
    rewrite skipn_app_plus by exact Hh. cbn [skipn].
    now apply firstn_app_exact.
  - subst file. rewrite skipn_app_plus by exact Hh.
    replace (List.length directory) with (List.length directory + 0)%nat
      at 1 by lia.
    rewrite skipn_app_plus by reflexivity. cbn [skipn].
    apply firstn_app_exact. apply repeat_length.
  - subst file.
    rewrite !len_app, len_header, (len_concat_blocks cl _ Hall).
    unfold len at 2. rewrite repeat_length.
    replace (24 + (len directory +
               (Z.of_nat (Z.to_nat (off - (24 + len directory))) +
                BLOCK_SIZE * len blocks)))
      with (off + 8192 * len blocks) by blia.
    apply Hstep.
  - exact Hstep.
Qed.

Lemma serialize_layout_witness :
  serialize 5 scenario_B = Ok scenario_B_file /\
  exists blocks directory,
    _createblocks 5 scenario_B = Ok blocks /\
    _createdirectory blocks = Ok directory /\
    let off := block0_offset (24 + len directory) in
    firstn (List.length directory) (skipn 24 scenario_B_file) = directory /\
    firstn (Z.to_nat (off - (24 + len directory)))
           (skipn (24 + List.length directory) scenario_B_file)
    = repeat x00 (Z.to_nat (off - (24 + len directory))) /\
    (forall i b,
       nth_error blocks i = Some b ->
       firstn (Z.to_nat 8192)
              (skipn (Z.to_nat (off + 8192 * Z.of_nat i)) scenario_B_file)
       = block b) /\
    off mod 512 = 0 /\ len scenario_B_file mod 512 = 0 /\
    (forall i : Z, (off + 8192 * i) mod 512 = 0).
Proof.
  assert (H : serialize 5 scenario_B = Ok scenario_B_file)
    by (vm_compute; reflexivity).
  split; [exact H|].
  exact (serialize_layout 5 scenario_B scenario_B_file H).
Defined.

Lemma indexed_records_intro (blocks : list BlockData) :
  forall start i b ld,
    nth_error blocks i = Some b -> In ld (line_data b) ->
    In (start + Z.of_nat i, ld) (indexed_records start blocks).
Proof.
  induction blocks as [|b0 blocks IH]; intros start i b ld Hnth Hin;
    [destruct i; discriminate Hnth|].
  cbn [indexed_records]. apply in_or_app.
  destruct i as [|i]; cbn [nth_error] in Hnth.
  - injection Hnth as ->. left. rewrite Z.add_0_r. now apply in_map.
  - right. replace (start + Z.of_nat (S i)) with (start + 1 + Z.of_nat i)
      by lia.
    now apply (IH _ _ b).
Qed.

Lemma slice_of_chunk (file blk : bytes) (a : nat) (ld : LineData) :
  firstn (Z.to_nat 8192) (skipn a file) = blk ->
  0 <= offset ld -> 0 <= len_ ld -> offset ld + len_ ld <= 8192 ->
  firstn (Z.to_nat (len_ ld)) (skipn (a + Z.to_nat (offset ld)) file)
  = slice blk ld.
Proof.
  intros <- Ho Hl Hb. unfold slice.
  rewrite skipn_firstn_comm, firstn_firstn, skipn_skipn.
  replace (Nat.min (Z.to_nat (len_ ld))
             (Z.to_nat 8192 - Z.to_nat (offset ld)))
    with (Z.to_nat (len_ ld)) by lia.
  f_equal. f_equal. lia.
Qed.

(** X17.  Looking a caption up in a returned file.  For a pair (name, text)
    of the input whose hash no later pair has, the directory has a record
    with the hash of the name, and the bytes of the file that the record
    points at (first-block offset + 8192 * block index + offset, for the
    length of the record) are the UTF-16LE text followed by the 16-bit
    zero. *)
Theorem serialize_lookup (fuel : nat) (pre post : lines_t) (name : text)
    (line : text) (file : bytes) :
  serialize fuel (pre ++ (name, line) :: post) = Ok file ->
  (forall n l, In (n, l) post -> name_hash n <> name_hash name) ->
  exists blocks directory i ld us,
    _createblocks fuel (pre ++ (name, line) :: post) = Ok blocks /\
    _createdirectory blocks = Ok directory /\
    directory = flat_map record_bytes (indexed_records 0 blocks) /\
    In (i, ld) (indexed_records 0 blocks) /\
    name_hash name = Ok (hash ld) /\
    utf16_code_units line = Ok us /\
    len_ ld = 2 * len us + 2 /\
    firstn (Z.to_nat (len_ ld))
           (skipn (Z.to_nat (block0_offset (24 + len directory)
                             + 8192 * i + offset ld)) file)
    = flat_map (le_bytes 2) us ++ [x00; x00].
Proof.
  intros H Hpost. pose proof H as H'.
  apply serialize_Ok in H' as (blocks & directory & Hb & Hd & _).
  destruct (createblocks_spec _ _ _ Hb)
    as (cl & cs & Henc & (Hnd & _ & _) & Hall & Hperm).
  destruct (encode_lines_last _ _ _ _ _ _ _ _ Henc Hpost)
    as (h & payload & Hname & Hp & Hcl & Hcs).
  apply encode_line_Ok in Hp as (us & Hus & Hpay & Hlen).
  apply dict_get_In in Hcs. apply (Permutation_in _ Hperm) in Hcs.
  unfold entries_of in Hcs. apply in_flat_map in Hcs as (b & Hbin & Hin).
  apply in_map_iff in Hin as (ld & Hld & Hin).
  unfold entry_of in Hld. injection Hld as Hh Hl.
  apply In_nth_error in Hbin as [i Hnth].
  rewrite Forall_forall in Hall.
  destruct (block_ok_record cl b ld (Hall b (nth_error_In _ _ Hnth)) Hin)
    as (Ho & Hl0 & Hsum & payload' & Hget & _ & Hslice).
  rewrite Hh, Hcl in Hget. injection Hget as <-.
  pose proof (serialize_block_at _ _ _ _ _ H Hb Hd i b Hnth) as Hblk.
  pose proof (len_nonneg directory) as Hdir.
  destruct (block0_offset_spec (24 + len directory) ltac:(lia))
    as (Hpos & _ & _ & _).
  exists blocks, directory, (Z.of_nat i), ld, us.
  split; [exact Hb|]. split; [exact Hd|]. split.
  { unfold _createdirectory in Hd.
    now apply directory_blocks_Ok in Hd as [-> _]. }
  split; [exact (indexed_records_intro blocks 0 i b ld Hnth Hin)|].
  split; [now rewrite Hh|]. split; [exact Hus|]. split; [lia|].
  rewrite <- Hpay, <- Hslice.
  rewrite <- (slice_of_chunk file (block b) _ ld Hblk Ho Hl0 ltac:(blia)).
  f_equal. f_equal. lia.
Qed.

Lemma serialize_lookup_witness :
  serialize 5 ([] ++ (txt "Caption.hello", txt "Hi") :: [])
    = Ok scenario_B_file /\
  exists blocks directory i ld us,
    _createblocks 5 ([] ++ (txt "Caption.hello", txt "Hi") :: [])
      = Ok blocks /\
    _createdirectory blocks = Ok directory /\
    directory = flat_map record_bytes (indexed_records 0 blocks) /\
    In (i, ld) (indexed_records 0 blocks) /\
    name_hash (txt "Caption.hello") = Ok (hash ld) /\
    utf16_code_units (txt "Hi") = Ok us /\
    len_ ld = 2 * len us + 2 /\
    firstn (Z.to_nat (len_ ld))
           (skipn (Z.to_nat (block0_offset (24 + len directory)
                             + 8192 * i + offset ld)) scenario_B_file)
    = flat_map (le_bytes 2) us ++ [x00; x00].
Proof.
  assert (H : serialize 5 ([] ++ (txt "Caption.hello", txt "Hi") :: [])
              = Ok scenario_B_file) by (vm_compute; reflexivity).
  split; [exact H|].
  apply (serialize_lookup 5 [] [] (txt "Caption.hello") (txt "Hi")
           scenario_B_file H).
  intros n l [].
Defined.

(** ** Counts and sizes *)

(** X18.  The two counts of a returned file.  The count field of the header
    is the number of input pairs; the directory has 12 bytes per entry of
    the working set, one entry per distinct hash, so at most 12 bytes per
    input pair, and exactly that when the hashes of the names are pairwise
    distinct. *)
Theorem serialize_counts (fuel : nat) (lines : lines_t) (file : bytes) :
  serialize fuel lines = Ok file ->
  exists blocks directory cl cs,
    _createblocks fuel lines = Ok blocks /\
    _createdirectory blocks = Ok directory /\
    encode_lines lines [] [] = Ok (cl, cs) /\
    le_decode (field file 16 4) = len lines /\
    len directory = 12 * len cs /\
    len cs <= len lines /\
    (NoDup (map (fun p => name_hash (fst p)) lines) ->
     len directory = 12 * len lines).
Proof.
  intros H. pose proof (serialize_entry_count _ _ _ H) as Hcount.
  apply serialize_Ok in H as (blocks & directory & Hb & Hd & _).
  destruct (directory_record_count _ _ _ _ Hb Hd)
    as (cl & cs & Henc & Hlen & Hle & Heq).
  exists blocks, directory, cl, cs.
  repeat (split; [assumption|]).
  intros Hnd. rewrite Hlen, (Heq Hnd). reflexivity.
Qed.

Lemma serialize_counts_witness :
  serialize 5 scenario_B = Ok scenario_B_file /\
  exists blocks directory cl cs,
    _createblocks 5 scenario_B = Ok blocks /\
    _createdirectory blocks = Ok directory /\
    encode_lines scenario_B [] [] = Ok (cl, cs) /\
    le_decode (field scenario_B_file 16 4) = len scenario_B /\
    len directory = 12 * len cs /\
    len cs <= len scenario_B /\
    (NoDup (map (fun p => name_hash (fst p)) scenario_B) ->
     len directory = 12 * len scenario_B).
Proof.
  assert (H : serialize 5 scenario_B = Ok scenario_B_file)
    by (vm_compute; reflexivity).
  split; [exact H|].
  exact (serialize_counts 5 scenario_B scenario_B_file H).
Defined.

Lemma placed_even (cl : dict bytes) (lds : list LineData) (bs : bytes) :
  (forall h line, dict_get cl h = Some line -> len line mod 2 = 0) ->
  placed cl lds bs ->
  len bs mod 2 = 0 /\
  Forall (fun ld => offset ld mod 2 = 0 /\ len_ ld mod 2 = 0) lds.
Proof.
  intros Hev. induction 1 as [|lds bs h line Hp [IHb IHl] Hg].
  - split; [reflexivity|constructor].
  - specialize (Hev h line Hg). split.
    + rewrite len_app, Z.add_mod, IHb, Hev by lia. reflexivity.
    + apply Forall_app. split; [exact IHl|].
      constructor; [|constructor]. cbn [offset len_]. now split.
Qed.

(** X19.  In the blocks of a returning [_createblocks] every record has an
    even offset and an even length of at least 2: every payload starts on a
    16-bit boundary of its block. *)
Theorem createblocks_even_offsets (fuel : nat) (lines : lines_t)
    (blocks : list BlockData) :
  _createblocks fuel lines = Ok blocks ->
  forall b ld, In b blocks -> In ld (line_data b) ->
    offset ld mod 2 = 0 /\ len_ ld mod 2 = 0 /\ 2 <= len_ ld.
Proof.
  intros Hrun b ld Hb Hld.
  apply createblocks_spec in Hrun as (cl & cs & Henc & _ & Hall & _).
  rewrite Forall_forall in Hall.
  pose proof (Hall b Hb) as Hok.
  destruct (block_ok_record cl b ld Hok Hld)
    as (_ & _ & _ & payload & Hget & Hlen & _).
  destruct Hok as (bs & Hp & _ & _).
  destruct (placed_even cl _ _
              (fun h line Hg => proj2 (working_set_payload _ _ _ _ _ Henc Hg))
              Hp) as [_ Hev].
  rewrite Forall_forall in Hev. destruct (Hev ld Hld) as [Ho Hl].
  split; [exact Ho|]. split; [exact Hl|].
  destruct (working_set_payload _ _ _ _ _ Henc Hget). lia.
Qed.

Lemma createblocks_even_offsets_witness :
  _createblocks 5 scenario_B = Ok scenario_B_blocks /\
  forall b ld, In b scenario_B_blocks -> In ld (line_data b) ->
    offset ld mod 2 = 0 /\ len_ ld mod 2 = 0 /\ 2 <= len_ ld.
Proof.
  assert (H : _createblocks 5 scenario_B = Ok scenario_B_blocks)
    by (vm_compute; reflexivity).
  split; [exact H|].
  exact (createblocks_even_offsets 5 scenario_B scenario_B_blocks H).
Defined.

Lemma utf16_code_units_len (t : text) (us : list Z) :
  utf16_code_units t = Ok us ->
  len t <= len us <= 2 * len t /\
  (Forall (fun c => c < 65536) t -> len us = len t).
Proof.
  revert us. induction t as [|c t IH]; intros us H.
  - apply Ok_inj in H. subst us. split; [cbn; lia|reflexivity].
  - cbn [utf16_code_units] in H. inv_bind H. inv_bind H.
    apply Ok_inj in H. subst us. rename a into u, a0 into vs.
    destruct (IH vs eq_refl) as [Hb Hbmp].
    pose proof (utf16_units_Ok c u E) as [Hu _].
    rewrite len_app. unfold len in *. cbn [List.length]. split; [lia|].
    intros Hall. inversion Hall as [|? ? Hc Ht]; subst.
    rewrite (Hbmp Ht).
    assert (List.length u = 1%nat); [|lia].
    unfold utf16_units in E. destruct (_ || _); [now injection E as <-|].
    destruct (_ && _) eqn:E2; [|discriminate E].
    apply andb_true_iff in E2 as [E2 _]. apply Z.leb_le in E2. lia.
Qed.

(** X20.  The size of a payload: a text of [n] code points takes between
    2n + 2 and 4n + 2 bytes, and exactly 2n + 2 when every code point is
    below U+10000. *)
Theorem encode_line_size (line : text) (payload : bytes) :
  encode_line line = Ok payload ->
  2 * len line + 2 <= len payload <= 4 * len line + 2 /\
  (Forall (fun c => c < 65536) line -> len payload = 2 * len line + 2).
Proof.
  intros H. apply encode_line_Ok in H as (us & Hus & _ & Hlen).
  destruct (utf16_code_units_len line us Hus) as [Hb Hbmp].
  split; [lia|]. intros Hall. rewrite Hlen, (Hbmp Hall). reflexivity.
Qed.

Lemma encode_line_size_witness :
  encode_line [72; 0x1F600] = Ok [x48; x00; x3d; xd8; x00; xde; x00; x00] /\
  2 * len [72; 0x1F600] + 2 <= len [x48; x00; x3d; xd8; x00; xde; x00; x00]
    <= 4 * len [72; 0x1F600] + 2.
Proof.
  assert (H : encode_line [72; 0x1F600]
              = Ok [x48; x00; x3d; xd8; x00; xde; x00; x00])
    by (vm_compute; reflexivity).
  split; [exact H|].
  exact (proj1 (encode_line_size _ _ H)).
Defined.

(** ** Payloads keep the text *)

Lemma utf16_code_units_range (t : text) (us : list Z) :
  utf16_code_units t = Ok us -> Forall (fun u => 0 <= u < 65536) us.
Proof.
  revert us. induction t as [|c t IH]; intros us H.
  - apply Ok_inj in H. subst us. constructor.
  - cbn [utf16_code_units] in H. inv_bind H. inv_bind H.
    apply Ok_inj in H. subst us. apply Forall_app. split.
    + exact (proj2 (utf16_units_Ok c a E)).
    + now apply IH.
Qed.

Lemma units_of_bytes_le_bytes (u : Z) (rest : bytes) :
  0 <= u < 65536 ->
  units_of_bytes (le_bytes 2 u ++ rest) = u :: units_of_bytes rest.
Proof.
  intros Hu. cbn [le_bytes app units_of_bytes]. f_equal.
  rewrite !Z_of_byte_of_Z.
  rewrite (Z.mod_small (u / 256)).
  - pose proof (Z.div_mod u 256 ltac:(lia)). lia.
  - split; [apply Z.div_pos; lia|apply Z.div_lt_upper_bound; lia].
Qed.

Lemma units_of_bytes_payload (us : list Z) :
  Forall (fun u => 0 <= u < 65536) us ->
  units_of_bytes (flat_map (le_bytes 2) us ++ [x00; x00]) = us ++ [0].
Proof.
  induction 1 as [|u us Hu Hall IH]; [reflexivity|].
  cbn [flat_map]. rewrite <- app_assoc, units_of_bytes_le_bytes by exact Hu.
  now rewrite IH.
Qed.

Lemma utf16_decode_units (t : text) (us : list Z) :
  utf16_code_units t = Ok us -> utf16_decode us = t.
Proof.
  revert us. induction t as [|c t IH]; intros us H.
  - apply Ok_inj in H. now subst us.
  - cbn [utf16_code_units] in H. inv_bind H. inv_bind H.
    apply Ok_inj in H. subst us. rename a into u, a0 into vs.
    specialize (IH vs eq_refl). unfold utf16_units in E.
    destruct ((0 <=? c) && (c <? 55296) || (57344 <=? c) && (c <? 65536))
      eqn:E1.
    + apply Ok_inj in E. subst u. cbn [app utf16_decode].
      replace ((55296 <=? c) && (c <? 56320)) with false; [now rewrite IH|].
      symmetry. apply andb_false_iff.
      apply orb_true_iff in E1 as [E1|E1]; apply andb_true_iff in E1 as [Ea Eb].
      * apply Z.ltb_lt in Eb. left. apply Z.leb_gt. lia.
      * apply Z.leb_le in Ea. right. apply Z.ltb_ge. lia.
    + destruct ((65536 <=? c) && (c <=? 1114111)) eqn:E2; [|discriminate E].
      apply Ok_inj in E. subst u.
      apply andb_true_iff in E2 as [Ea Eb]. apply Z.leb_le in Ea, Eb.
      assert (Hq : 0 <= (c - 65536) / 1024 < 1024).
      { split; [apply Z.div_pos; lia|apply Z.div_lt_upper_bound; lia]. }
      pose proof (Z.div_mod (c - 65536) 1024 ltac:(lia)) as Hdm.
      cbn [app utf16_decode].
      replace ((55296 <=? 55296 + (c - 65536) / 1024) &&
               (55296 + (c - 65536) / 1024 <? 56320)) with true.
      * rewrite IH. f_equal. lia.
      * symmetry. apply andb_true_iff.
        split; [apply Z.leb_le|apply Z.ltb_lt]; lia.
Qed.

(** Decoding the payload of a text gives the text back. *)
Lemma decode_encode_line (line : text) (payload : bytes) :
  encode_line line = Ok payload -> decode_line payload = line.
Proof.
  intros H. apply encode_line_Ok in H as (us & Hus & -> & _).
  unfold decode_line.
  rewrite units_of_bytes_payload by exact (utf16_code_units_range _ _ Hus).
  rewrite removelast_last. now apply utf16_decode_units.
Qed.

(** X21.  The payload keeps the text: decoding the UTF-16LE units of a
    payload without its terminator gives the text back, so two texts with
    the same payload are the same text. *)
Theorem encode_line_injective (line1 line2 : text) (payload : bytes) :
  encode_line line1 = Ok payload -> encode_line line2 = Ok payload ->
  line1 = line2 /\ decode_line payload = line1.
Proof.
  intros H1 H2.
  rewrite <- (decode_encode_line line1 payload H1) at 1.
  rewrite <- (decode_encode_line line2 payload H2) at 1.
  split; [reflexivity|exact (decode_encode_line line1 payload H1)].
Qed.

Lemma encode_line_injective_witness :
  encode_line [72; 0x1F600] = Ok [x48; x00; x3d; xd8; x00; xde; x00; x00] /\
  decode_line [x48; x00; x3d; xd8; x00; xde; x00; x00] = [72; 0x1F600].
Proof.
  assert (H : encode_line [72; 0x1F600]
              = Ok [x48; x00; x3d; xd8; x00; xde; x00; x00])
    by (vm_compute; reflexivity).
  split; [exact H|].
  exact (proj2 (encode_line_injective _ _ _ H H)).
Defined.

(** ** Sample evaluations of the two-sided statements *)

Lemma Fill_behaviour_witness :
  len (block (mkBlockData [] [x48; x00])) <= 8192 /\
  exists z,
    Fill (mkBlockData [] [x48; x00]) =
      Ok (mkBlockData [] ([x48; x00] ++ z)) /\
    z = repeat x00 (Z.to_nat (8192 - len [x48; x00])) /\
    len ([x48; x00] ++ z) = 8192.
Proof.
  assert (H : len (block (mkBlockData [] [x48; x00])) <= 8192)
    by (vm_compute; discriminate).
  split; [exact H|].
  exact (proj1 (Fill_behaviour (mkBlockData [] [x48; x00])) H).
Defined.

Lemma createdirectory_outcome_witness :
  Forall packable (indexed_records 0 scenario_B_blocks) /\
  _createdirectory scenario_B_blocks =
    Ok (flat_map record_bytes (indexed_records 0 scenario_B_blocks)) /\
  len (flat_map record_bytes (indexed_records 0 scenario_B_blocks)) =
    12 * len (indexed_records 0 scenario_B_blocks).
Proof.
  assert (H : Forall packable (indexed_records 0 scenario_B_blocks)).
  { constructor; [|constructor]. unfold packable. cbn [fst snd hash offset len_].
    lia. }
  split; [exact H|].
  exact (proj1 (createdirectory_outcome scenario_B_blocks) H).
Defined.
